(** * Stress_Fibre_Scores

    A shallow embedding of [Stress_Fibre_Scores.py], the Jython script that
    tiles the band-passed actin channel of an image, convolves every tile
    with the eight Kirsch kernels and scores stress fibres by the share of
    the principal gradient direction.

    Conventions of the embedding.
    - Python [int] is [Z]; the script runs under Jython (Python 2), so [/]
      between two ints is floor division.
    - Python [float] (Java [double]) is idealised as an exact rational [Q];
      angles, which involve [maths.pi], [maths.cos] and [maths.sin], are
      real numbers [R].
    - The ImageJ classes the script calls are not part of the script; the
      image operations are a type class [ImageJ], the results table, the
      overlay and the stack addressing are modelled after the ImageJ API.
    - Python and Java exceptions are values of [Exc]; statements run in a
      state-and-exception monad over the [World] the script mutates. *)

From Stdlib Require Import ZArith QArith Qround List String Bool Lia Lra Reals.
From Stdlib Require Import DecimalString Sorted.
From Stdlib Require Lqa.
From Stdlib Require DecimalPos DecimalZ.
Import ListNotations.

Open Scope Z_scope.

(** ** Exceptions and the statement monad *)

Inductive Exc : Type :=
| ZeroDivisionError
| ValueError
| IllegalArgumentException.

Inductive Result (W A : Type) : Type :=
| Ok (a : A) (w : W)
| Raise (e : Exc) (w : W).

Arguments Ok {W A} a w.
Arguments Raise {W A} e w.

Definition M (W A : Type) : Type := W -> Result W A.

Definition ret {W A} (a : A) : M W A := fun w => Ok a w.

Definition bind {W A B} (m : M W A) (k : A -> M W B) : M W B :=
  fun w => match m w with
           | Ok a w' => k a w'
           | Raise e w' => Raise e w'
           end.

Definition lift {W A} (r : Exc + A) : M W A :=
  fun w => match r with
           | inl e => Raise e w
           | inr a => Ok a w
           end.

Notation "x <- m ;; k" := (bind m (fun x => k))
  (at level 61, m at next level, right associativity).
Notation "m ;;; k" := (bind m (fun _ => k))
  (at level 61, right associativity).

(** [for b in l: s = body(b, s)]: the loop-carried variables are [s]; an
    exception in the body leaves the loop. *)
Fixpoint forM {W B S} (l : list B) (body : B -> S -> M W S) (s : S) : M W S :=
  match l with
  | [] => ret s
  | b :: t => s' <- body b s ;; forM t body s'
  end.

(** ** The Python built-ins the script uses *)

Module Py.

Fixpoint range_from (n : nat) (start step : Z) : list Z :=
  match n with
  | O => []
  | S n' => start :: range_from n' (start + step) step
  end.

(** [range(start, stop, step)]; a zero step is a [ValueError]. *)
Definition range (start stop step : Z) : Exc + list Z :=
  if step =? 0 then inl ValueError
  else if 0 <? step
       then inr (range_from (Z.to_nat ((stop - start + step - 1) / step)) start step)
       else inr (range_from (Z.to_nat ((start - stop - step - 1) / (- step))) start step).

(** [a < b] on floats. *)
Definition lt (a b : Q) : bool := (Qnum a * QDen b <? Qnum b * QDen a)%Z.

(** [a == b] on floats. *)
Definition eq (a b : Q) : bool := Qeq_bool a b.

(** [sum(l)]: left to right, starting from 0. *)
Definition sum (l : list Q) : Q := fold_left Qplus l 0%Q.

(** [max(l)]: the first maximal element; [ValueError] on an empty list. *)
Definition max (l : list Q) : Exc + Q :=
  match l with
  | [] => inl ValueError
  | x :: t => inr (fold_left (fun m v => if lt m v then v else m) t x)
  end.

(** [min(l)]: the first minimal element; [ValueError] on an empty list. *)
Definition min (l : list Q) : Exc + Q :=
  match l with
  | [] => inl ValueError
  | x :: t => inr (fold_left (fun m v => if lt v m then v else m) t x)
  end.

(** [max(a, b)] and [min(a, b)] of two arguments. *)
Definition max2 (a b : Q) : Q := if lt a b then b else a.
Definition min2 (a b : Q) : Q := if lt b a then b else a.

(** [l.index(v)]: the first position holding a value equal to [v]. *)
Fixpoint index (l : list Q) (v : Q) : Exc + nat :=
  match l with
  | [] => inl ValueError
  | x :: t =>
      if eq x v then inr O
      else match index t v with
           | inl e => inl e
           | inr i => inr (S i)
           end
  end.

(** Float division [a / b]. *)
Definition div (a b : Q) : Exc + Q :=
  if eq b 0%Q then inl ZeroDivisionError else inr (a / b)%Q.

(** [str(n)] of an int. *)
Definition str (n : Z) : string := NilZero.string_of_int (Z.to_int n).

(** [s.endswith(suffix)]. *)
Definition endswith (s suffix : string) : bool :=
  let n := String.length s in
  let k := String.length suffix in
  (k <=? n)%nat && String.eqb (substring (n - k) k s) suffix.

End Py.

(** ** Kirsch kernels *)

Definition dirKernels : list (list Z) :=
  [ [ 5;  5;  5;
     -3;  0; -3;
     -3; -3; -3];
    [-3;  5;  5;
     -3;  0;  5;
     -3; -3; -3];
    [-3; -3;  5;
     -3;  0;  5;
     -3; -3;  5];
    [-3; -3; -3;
     -3;  0;  5;
     -3;  5;  5];
    [-3; -3; -3;
      5;  0; -3;
      5;  5; -3];
    [-3; -3; -3;
     -3;  0; -3;
      5;  5;  5];
    [ 5;  5; -3;
      5;  0; -3;
     -3; -3; -3];
    [ 5; -3; -3;
      5;  0; -3;
      5; -3; -3] ].

(** ** Angles *)

Definition normAngle (theta : R) : R :=
  let theta := if Rlt_dec theta 0 then (2 * PI + theta)%R else theta in
  let theta := if Rgt_dec theta PI then (theta - PI)%R else theta in
  theta.

(** The angle [tiledAnalysis] derives from the position [maxi] of the
    largest of [n] directional responses, before [normAngle]. *)
Definition rawAngle (maxi n : nat) : R :=
  (INR maxi * ((2 * PI) / INR n) + PI / 2)%R.

(** ** The ImageJ image operations

    [ij.process.ImageProcessor] as the script uses it.  The Java methods
    mutate the receiver; the script always works on a fresh [duplicate()]
    or [crop()], so every operation is a function to a new image.
    - [crop x y w h ip] is [ip.setRoi(Roi(x, y, w, h)); ip.crop()];
    - [copyBitsSubtract ip sub] is [ip.copyBits(sub, 0, 0, Blitter.SUBTRACT)];
    - [mean ip] is [ip.getStatistics().mean]. *)

Class ImageJ : Type := {
  ImageProcessor : Type;
  getWidth : ImageProcessor -> Z;
  getHeight : ImageProcessor -> Z;
  blurGaussian : Q -> ImageProcessor -> ImageProcessor;
  copyBitsSubtract : ImageProcessor -> ImageProcessor -> ImageProcessor;
  crop : Z -> Z -> Z -> Z -> ImageProcessor -> ImageProcessor;
  convolve : list Z -> Z -> Z -> ImageProcessor -> ImageProcessor;
  mean : ImageProcessor -> Q
}.

(** ** Overlay and results table *)

(** [java.awt.Color]: red, green, blue, alpha. *)
Definition Color : Type := (Q * Q * Q * Q)%type.

Definition tileRoiColour : Color := (1, 1, 0, 1 # 4)%Q.
Definition CYAN : Color := (0, 1, 1, 1)%Q.

(** The head styles of [ij.gui.Arrow]. *)
Inductive ArrowStyle : Type := FILLED | NOTCHED | OPEN | HEADLESS | BAR.

(** The three kinds of [ij.gui.Roi] the script puts on an overlay, each
    with the attributes the script sets. *)
Inductive Roi : Type :=
| RectRoi (x y w h : Z) (stroke : Color)
| ArrowRoi (x1 y1 x2 y2 : R) (style : ArrowStyle) (doubleHeaded : bool)
           (strokeWidth headSize : Z) (stroke : Color)
| TextRoi (x y : Z) (text : string) (stroke : Color).

Definition Overlay : Type := list Roi.

(** One row of the results table, a field per column heading:
    "Image", "Tile", "X", "Y", "Fibre Intensity", "Principal Direction",
    "Stress Fibre Score". *)
Record Row : Type := mkRow {
  Image : string;
  Tile : Z;
  X : Q;
  Y : Q;
  FibreIntensity : Q;
  PrincipalDirection : R;
  StressFibreScore : Q
}.

Definition emptyRow : Row := mkRow EmptyString 0 0%Q 0%Q 0%Q 0%R 0%Q.

Definition set_Image (v : string) (r : Row) : Row :=
  mkRow v (Tile r) (X r) (Y r) (FibreIntensity r) (PrincipalDirection r) (StressFibreScore r).
Definition set_Tile (v : Z) (r : Row) : Row :=
  mkRow (Image r) v (X r) (Y r) (FibreIntensity r) (PrincipalDirection r) (StressFibreScore r).
Definition set_X (v : Q) (r : Row) : Row :=
  mkRow (Image r) (Tile r) v (Y r) (FibreIntensity r) (PrincipalDirection r) (StressFibreScore r).
Definition set_Y (v : Q) (r : Row) : Row :=
  mkRow (Image r) (Tile r) (X r) v (FibreIntensity r) (PrincipalDirection r) (StressFibreScore r).
Definition set_FibreIntensity (v : Q) (r : Row) : Row :=
  mkRow (Image r) (Tile r) (X r) (Y r) v (PrincipalDirection r) (StressFibreScore r).
Definition set_PrincipalDirection (v : R) (r : Row) : Row :=
  mkRow (Image r) (Tile r) (X r) (Y r) (FibreIntensity r) v (StressFibreScore r).
Definition set_StressFibreScore (v : Q) (r : Row) : Row :=
  mkRow (Image r) (Tile r) (X r) (Y r) (FibreIntensity r) (PrincipalDirection r) v.

Definition ResultsTable : Type := list Row.

(** Apply [f] to the element at position [n], if there is one. *)
Fixpoint updateAt {A} (n : nat) (f : A -> A) (l : list A) : list A :=
  match l, n with
  | [], _ => []
  | a :: t, O => f a :: t
  | a :: t, S n' => a :: updateAt n' f t
  end.

(** [ResultsTable.setValue(column, row, value)]: writing to the row just
    past the end appends a row first; a row further out is rejected. *)
Definition ResultsTable_setValue (column : Row -> Row) (row : Z) (t : ResultsTable)
  : Exc + ResultsTable :=
  let counter := Z.of_nat (List.length t) in
  if row =? counter then inr (t ++ [column emptyRow])
  else if (0 <=? row) && (row <? counter)
       then inr (updateAt (Z.to_nat row) column t)
       else inl IllegalArgumentException.

Record Calibration : Type := mkCalibration {
  pixelWidth : Q;
  pixelHeight : Q
}.

(** ** The script *)

Set Warnings "-register-all".

Section Script.

Context {IJ : ImageJ}.

(** [ij.ImagePlus]: a title, a calibration, and a stack of
    [getNChannels * getNSlices * getNFrames] images in channel-slice-frame
    order. *)
Record ImagePlus : Type := mkImagePlus {
  getTitle : string;
  getCalibration : Calibration;
  getNChannels : Z;
  getNSlices : Z;
  getNFrames : Z;
  getImageStack : list ImageProcessor
}.

(** [ImagePlus.getStackIndex(channel, slice, frame)]: positions are
    one-based, each is clamped to its dimension, and the result is the
    one-based index into the stack. *)
Definition getStackIndex (imp : ImagePlus) (channel slice frame : Z) : Z :=
  let channel := if channel <? 1 then 1 else channel in
  let channel := if getNChannels imp <? channel then getNChannels imp else channel in
  let slice := if slice <? 1 then 1 else slice in
  let slice := if getNSlices imp <? slice then getNSlices imp else slice in
  let frame := if frame <? 1 then 1 else frame in
  let frame := if getNFrames imp <? frame then getNFrames imp else frame in
  (frame - 1) * getNChannels imp * getNSlices imp
  + (slice - 1) * getNChannels imp + channel.

(** [ImageStack.getProcessor(n)], [n] one-based. *)
Definition getProcessor (stack : list ImageProcessor) (n : Z) : Exc + ImageProcessor :=
  if (n <? 1) || (Z.of_nat (List.length stack) <? n) then inl IllegalArgumentException
  else match nth_error stack (Z.to_nat (n - 1)) with
       | Some ip => inr ip
       | None => inl IllegalArgumentException
       end.

(** What the script mutates: the module-level results table [rt] and
    calibration [cal], the error dialogs [IJ.error] has raised, and the
    images [show()] has displayed with their overlays. *)
Record World : Type := mkWorld {
  rt : ResultsTable;
  cal : Calibration;
  errors : list string;
  shown : list (string * ImageProcessor * Overlay)
}.

Definition St : Type -> Type := M World.

Definition getCounter : St Z :=
  fun w => Ok (Z.of_nat (List.length (rt w))) w.

Definition setValue (column : Row -> Row) (row : Z) : St unit :=
  fun w => match ResultsTable_setValue column row (rt w) with
           | inl e => Raise e w
           | inr t => Ok tt (mkWorld t (cal w) (errors w) (shown w))
           end.

Definition getCal : St Calibration := fun w => Ok (cal w) w.

Definition setCal (c : Calibration) : St unit :=
  fun w => Ok tt (mkWorld (rt w) c (errors w) (shown w)).

Definition IJ_error (msg : string) : St unit :=
  fun w => Ok tt (mkWorld (rt w) (cal w) (errors w ++ [msg]) (shown w)).

Definition show (title : string) (ip : ImageProcessor) (ol : Overlay) : St unit :=
  fun w => Ok tt (mkWorld (rt w) (cal w) (errors w) (shown w ++ [(title, ip, ol)])).

Definition process (inip : ImageProcessor) : ImageProcessor :=
  let ip := inip in
  let sub := inip in
  let sigmaPx := 2%Q in
  let ip := blurGaussian sigmaPx ip in
  let sub := blurGaussian (sigmaPx * (14 # 10))%Q sub in
  copyBitsSubtract ip sub.

Definition edgeDirections (ip : ImageProcessor) : list Q :=
  map (fun k => mean (convolve k 3 3 ip)) dirKernels.

Definition nRows : Z := 24.

(** The body of the two tile loops of [tiledAnalysis]; the loop-carried
    variables are the table row [row] and the overlay [ol]. *)
Definition tileBody (ip : ImageProcessor) (title : string)
    (W H step overlap y x : Z) (st : Z * Overlay) : St (Z * Overlay) :=
  let '(row, ol) := st in
  let ox := x + step / 2 in
  let oy := y + step / 2 in
  if (W - 1 <? ox) || (H - 1 <? oy) then ret (row, ol)
  else
    let tile := crop (x - overlap) (y - overlap)
                     (step + overlap * 2) (step + overlap * 2) ip in
    let fibreI := mean tile in
    let edgeDir := edgeDirections tile in
    let edgeSum := Py.sum edgeDir in
    edgeMax <- lift (Py.max edgeDir) ;;
    edgeMin <- lift (Py.min edgeDir) ;;
    ratio <- lift (Py.div (edgeMax - edgeMin) (edgeSum - edgeMin)) ;;
    let score := (ratio * 8)%Q in
    maxi <- lift (Py.index edgeDir edgeMax) ;;
    let theta := normAngle (rawAngle maxi (List.length edgeDir)) in
    c <- getCal ;;
    setValue (set_Image title) row ;;;
    setValue (set_Tile row) row ;;;
    setValue (set_X (inject_Z ox * pixelWidth c)%Q) row ;;;
    setValue (set_Y (inject_Z oy * pixelHeight c)%Q) row ;;;
    setValue (set_FibreIntensity fibreI) row ;;;
    setValue (set_PrincipalDirection theta) row ;;;
    setValue (set_StressFibreScore score) row ;;;
    let tileRoi := RectRoi (x - overlap) (y - overlap)
                           (step + overlap * 2) (step + overlap * 2)
                           tileRoiColour in
    let ol := ol ++ [tileRoi] in
    let scale := 20 in
    let dx := (cos theta * IZR scale)%R in
    let dy := (sin theta * IZR scale)%R in
    let f := Py.max2 0 (Py.min2 score 1) in
    let arrow := ArrowRoi (IZR ox - dx) (IZR oy + dy) (IZR ox + dx) (IZR oy - dy)
                          OPEN true 4 4 (1 - f, f, f / 2, 1)%Q in
    let ol := ol ++ [arrow] in
    let label := TextRoi (x + step / 2 - 10) (y + 6) (Py.str row) CYAN in
    let ol := ol ++ [label] in
    ret (row + 1, ol).

(** [tiledAnalysis(ip, ol, title)]; the result is the overlay [ol] as the
    call leaves it. *)
Definition tiledAnalysis (ip : ImageProcessor) (ol : Overlay) (title : string)
  : St Overlay :=
  let W := getWidth ip in
  let H := getHeight ip in
  if negb (W =? H) then
    IJ_error "Image is not square" ;;;
    ret ol
  else
    row <- getCounter ;;
    let step := H / nRows in
    let overlap := Z.quot step 5 in
    ys <- lift (Py.range overlap (H - 1) step) ;;
    st <- forM ys (fun y st =>
            xs <- lift (Py.range overlap (W - 1) step) ;;
            forM xs (tileBody ip title W H step overlap y) st) (row, ol) ;;
    ret (snd st).

(** The slice loop of [run]: the loop-carried variables are [maxM] and
    [maxZ]. *)
Definition sliceBody (imp : ImagePlus) (z : Z) (st : Q * Z) : St (Q * Z) :=
  let '(maxM, maxZ) := st in
  ip <- lift (getProcessor (getImageStack imp) (getStackIndex imp 2 z 1)) ;;
  let value := mean ip in
  if Py.lt maxM value then ret (value, z) else ret (maxM, maxZ).

Definition run (imp : ImagePlus) : St unit :=
  setCal (getCalibration imp) ;;;
  let stack := getImageStack imp in
  zs <- lift (Py.range 0 (getNSlices imp) 1) ;;
  st <- forM zs (sliceBody imp) ((-1)%Q, -1) ;;
  let maxZ := snd st in
  actin <- lift (getProcessor stack (getStackIndex imp 2 maxZ 1)) ;;
  let ol : Overlay := [] in
  let title := (getTitle imp ++ "-Z" ++ Py.str maxZ)%string in
  let proc := process actin in
  ol <- tiledAnalysis proc ol title ;;
  show title actin ol.

(** [java.io.File] as [fileHandler] sees it: a regular file with its path
    and the image series Bio-Formats opens from it, a directory with its
    entries, or neither. *)
Inductive File : Type :=
| RegularFile (path : string) (images : list ImagePlus)
| Directory (files : list File)
| NoFile.

Fixpoint fileHandler (fil : File) : St unit :=
  match fil with
  | RegularFile path images =>
      if Py.endswith path ".lif"
      then forM images (fun imp _ => run imp) tt
      else ret tt
  | Directory files =>
      (fix each (fs : list File) : St unit :=
         match fs with
         | [] => ret tt
         | f :: fs' => fileHandler f ;;; each fs'
         end) files
  | NoFile => ret tt
  end.

(** Induction over a directory tree. *)
Fixpoint File_tree_ind (P : File -> Prop)
    (Hfile : forall path images, P (RegularFile path images))
    (Hdir : forall files, Forall P files -> P (Directory files))
    (Hnone : P NoFile) (fil : File) : P fil :=
  match fil with
  | RegularFile path images => Hfile path images
  | Directory files =>
      Hdir files
           ((fix all (fs : list File) : Forall P fs :=
               match fs with
               | [] => Forall_nil P
               | f :: fs' =>
                   Forall_cons f (File_tree_ind P Hfile Hdir Hnone f) (all fs')
               end) files)
  | NoFile => Hnone
  end.

(** The module body: a fresh results table, then either the chosen path
    or the current image. *)
Definition main (current : option ImagePlus) (chosen : File) (c0 : Calibration)
  : Result World unit :=
  let w0 := mkWorld [] c0 [] [] in
  match current with
  | None => fileHandler chosen w0
  | Some imp => run imp w0
  end.

End Script.

(** ** A reference implementation of the image operations

    Images of exact rational pixels: integer numerators, rows first, over
    one common denominator.  Smoothing with standard deviation [sigma] is
    repeated binomial (1 2 1)/4 smoothing along rows and columns with the
    edge pixels replicated: [n] passes have variance [n/2], so
    [round (2 sigma^2)] passes are made.  Convolution reads the nearest
    edge pixel outside the image and divides by the sum of the kernel when
    that is not zero, as ImageJ's [Convolver] does. *)

Module RationalImage.

Record image : Type := mkImage {
  den : positive;
  rows : list (list Z)
}.

Definition width (img : image) : Z :=
  match rows img with
  | [] => 0
  | r :: _ => Z.of_nat (List.length r)
  end.

Definition height (img : image) : Z := Z.of_nat (List.length (rows img)).

Fixpoint smoothFrom (prev : Z) (l : list Z) : list Z :=
  match l with
  | [] => []
  | x :: t =>
      match t with
      | [] => [prev + 2 * x + x]
      | y :: _ => (prev + 2 * x + y) :: smoothFrom x t
      end
  end.

(** One (1 2 1) pass along a row; the result is four times too large. *)
Definition smoothRow (l : list Z) : list Z :=
  match l with
  | [] => []
  | x :: _ => smoothFrom x l
  end.

Fixpoint transpose (m : list (list Z)) : list (list Z) :=
  match m with
  | [] => []
  | r :: t =>
      match t with
      | [] => map (fun v => [v]) r
      | _ => map (fun p => fst p :: snd p) (combine r (transpose t))
      end
  end.

Definition smooth (img : image) : image :=
  mkImage (16 * den img)
          (transpose (map smoothRow (transpose (map smoothRow (rows img))))).

Definition passes (sigma : Q) : nat :=
  Z.to_nat (Qfloor (2 * sigma * sigma + (1 # 2))).

Definition blur (sigma : Q) (img : image) : image :=
  Nat.iter (passes sigma) smooth img.

Definition subtract (a b : image) : image :=
  mkImage (den a * den b)
          (map (fun rs => map (fun p => fst p * Z.pos (den b) - snd p * Z.pos (den a))
                              (combine (fst rs) (snd rs)))
               (combine (rows a) (rows b))).

Definition cropTo (x y w h : Z) (img : image) : image :=
  mkImage (den img)
          (map (fun r => firstn (Z.to_nat w) (skipn (Z.to_nat x) r))
               (firstn (Z.to_nat h) (skipn (Z.to_nat y) (rows img)))).

Definition clamp (n v : Z) : nat := Z.to_nat (Z.max 0 (Z.min (n - 1) v)).

Definition pixel (img : image) (x y : Z) : Z :=
  nth (clamp (width img) x) (nth (clamp (height img) y) (rows img) []) 0.

Definition indices (n : Z) : list Z := map Z.of_nat (seq 0 (Z.to_nat n)).

Definition convolveAt (k : list Z) (kw kh : Z) (img : image) (x y : Z) : Z :=
  fold_left Z.add
    (map (fun vu : Z * Z =>
            let (v, u) := vu in
            nth (Z.to_nat (v * kw + u)) k 0
            * pixel img (x + u - kw / 2) (y + v - kh / 2))
         (list_prod (indices kh) (indices kw)))
    0.

Definition conv (k : list Z) (kw kh : Z) (img : image) : image :=
  let total := fold_left Z.add k 0 in
  let sign := if total <? 0 then -1 else 1 in
  let scale := if total =? 0 then 1%positive else Z.to_pos (Z.abs total) in
  mkImage (den img * scale)
          (map (fun y => map (fun x => sign * convolveAt k kw kh img x y)
                             (indices (width img)))
               (indices (height img))).

Definition average (img : image) : Q :=
  let px := List.concat (rows img) in
  match px with
  | [] => 0%Q
  | _ => Qred (fold_left Z.add px 0
               # (Pos.of_nat (List.length px) * den img))
  end.

(** The pixel positions of an image, row by row. *)
Definition positions (img : image) : list (Z * Z) :=
  List.concat (map (fun y => map (fun x => (x, y)) (indices (width img)))
                   (indices (height img))).

#[export] Instance rational : ImageJ := {|
  ImageProcessor := image;
  getWidth := width;
  getHeight := height;
  blurGaussian := blur;
  copyBitsSubtract := subtract;
  crop := cropTo;
  convolve := conv;
  mean := average
|}.

End RationalImage.

(** ** What one tile contributes

    The values [tileBody] computes for the tile anchored at [(x, y)], as
    functions of the image; the lemmas below show that [tileBody] records
    exactly these. *)

Section Tiles.

Context {IJ : ImageJ}.

Definition edgeMaxOf (edgeDir : list Q) : Q :=
  match Py.max edgeDir with inr m => m | inl _ => 0%Q end.

Definition edgeMinOf (edgeDir : list Q) : Q :=
  match Py.min edgeDir with inr m => m | inl _ => 0%Q end.

Definition maxiOf (edgeDir : list Q) : nat :=
  match Py.index edgeDir (edgeMaxOf edgeDir) with inr i => i | inl _ => O end.

Definition scoreOf (edgeDir : list Q) : Q :=
  ((edgeMaxOf edgeDir - edgeMinOf edgeDir)
   / (Py.sum edgeDir - edgeMinOf edgeDir) * 8)%Q.

Definition thetaOf (edgeDir : list Q) : R :=
  normAngle (rawAngle (maxiOf edgeDir) (List.length edgeDir)).

Definition tileOf (ip : ImageProcessor) (step overlap x y : Z) : ImageProcessor :=
  crop (x - overlap) (y - overlap) (step + overlap * 2) (step + overlap * 2) ip.

(** The division of the score is defined for this tile. *)
Definition tileOk (ip : ImageProcessor) (step overlap : Z) (xy : Z * Z) : bool :=
  let edgeDir := edgeDirections (tileOf ip step overlap (fst xy) (snd xy)) in
  negb (Py.eq (Py.sum edgeDir - edgeMinOf edgeDir) 0).

Definition rowOf (ip : ImageProcessor) (title : string) (c : Calibration)
    (step overlap row : Z) (xy : Z * Z) : Row :=
  let (x, y) := xy in
  let edgeDir := edgeDirections (tileOf ip step overlap x y) in
  mkRow title row
        (inject_Z (x + step / 2) * pixelWidth c)
        (inject_Z (y + step / 2) * pixelHeight c)
        (mean (tileOf ip step overlap x y))
        (thetaOf edgeDir)
        (scoreOf edgeDir).

Definition arrowColour (score : Q) : Color :=
  let f := Py.max2 0 (Py.min2 score 1) in
  (1 - f, f, f / 2, 1)%Q.

Definition primsOf (ip : ImageProcessor) (step overlap row : Z) (xy : Z * Z)
  : list Roi :=
  let (x, y) := xy in
  let edgeDir := edgeDirections (tileOf ip step overlap x y) in
  let theta := thetaOf edgeDir in
  let ox := x + step / 2 in
  let oy := y + step / 2 in
  [ RectRoi (x - overlap) (y - overlap) (step + overlap * 2) (step + overlap * 2)
            tileRoiColour;
    ArrowRoi (IZR ox - cos theta * IZR 20) (IZR oy + sin theta * IZR 20)
             (IZR ox + cos theta * IZR 20) (IZR oy - sin theta * IZR 20)
             OPEN true 4 4 (arrowColour (scoreOf edgeDir));
    TextRoi (x + step / 2 - 10) (y + 6) (Py.str row) CYAN ].

Fixpoint rowsFrom (ip : ImageProcessor) (title : string) (c : Calibration)
    (step overlap row : Z) (tiles : list (Z * Z)) : list Row :=
  match tiles with
  | [] => []
  | xy :: t => rowOf ip title c step overlap row xy
               :: rowsFrom ip title c step overlap (row + 1) t
  end.

Fixpoint primsFrom (ip : ImageProcessor) (step overlap row : Z)
    (tiles : list (Z * Z)) : list Roi :=
  match tiles with
  | [] => []
  | xy :: t => primsOf ip step overlap row xy
               ++ primsFrom ip step overlap (row + 1) t
  end.

(** The tiles before the first one whose score division fails. *)
Fixpoint scored (ip : ImageProcessor) (step overlap : Z) (tiles : list (Z * Z))
  : list (Z * Z) :=
  match tiles with
  | [] => []
  | xy :: t => if tileOk ip step overlap xy
               then xy :: scored ip step overlap t
               else []
  end.

(** The boundary check of [tileBody], negated: the tile is analysed. *)
Definition inBounds (W H step : Z) (xy : Z * Z) : bool :=
  negb ((W - 1 <? fst xy + step / 2) || (H - 1 <? snd xy + step / 2)).

(** The anchors the two loops reach that pass the boundary check, in the
    order the loops reach them. *)
Definition anchors (W H step : Z) (xs ys : list Z) : list (Z * Z) :=
  flat_map (fun y => filter (inBounds W H step) (map (fun x => (x, y)) xs)) ys.

(** The anchors of the tiles [tiledAnalysis] sets out to analyse, in
    order; none when the image is not square or [range] fails. *)
Definition gridOf (ip : ImageProcessor) : list (Z * Z) :=
  let H := getHeight ip in
  let step := H / nRows in
  let overlap := Z.quot step 5 in
  if getWidth ip =? H then
    match Py.range overlap (H - 1) step with
    | inl _ => []
    | inr cs => anchors H H step cs cs
    end
  else [].

(** The first anchor [tiledAnalysis] analyses, if it reaches one. *)
Definition firstAnchor (ip : ImageProcessor) : option (Z * Z) :=
  let H := getHeight ip in
  let step := H / nRows in
  let overlap := Z.quot step 5 in
  if getWidth ip =? H then
    match Py.range overlap (H - 1) step with
    | inl _ => None
    | inr cs => hd_error (anchors H H step cs cs)
    end
  else None.

(** The image is square, the loops have a grid, and the score division
    is defined for every tile. *)
Definition allScored (ip : ImageProcessor) : bool :=
  let H := getHeight ip in
  let step := H / nRows in
  let overlap := Z.quot step 5 in
  (getWidth ip =? H)
  && match Py.range overlap (H - 1) step with
     | inl _ => false
     | inr cs => forallb (tileOk ip step overlap) (anchors H H step cs cs)
     end.

Definition addRows (rows : list Row) (w : World) : World :=
  mkWorld (rt w ++ rows) (cal w) (errors w) (shown w).

(** The slice loop of [run] without the monad. *)
Definition sliceStep (imp : ImagePlus) (st : Exc + Q * Z) (z : Z) : Exc + Q * Z :=
  match st with
  | inl e => inl e
  | inr (maxM, maxZ) =>
      match getProcessor (getImageStack imp) (getStackIndex imp 2 z 1) with
      | inl e => inl e
      | inr ip => if Py.lt maxM (mean ip) then inr (mean ip, z) else inr (maxM, maxZ)
      end
  end.

Definition sliceScan (imp : ImagePlus) (zs : list Z) (st : Q * Z) : Exc + Q * Z :=
  fold_left (sliceStep imp) zs (inr st).

(** The slice index [maxZ] and the slice [actin] that [run] settles on. *)
Definition selected (imp : ImagePlus) : Exc + Z * ImageProcessor :=
  match Py.range 0 (getNSlices imp) 1 with
  | inl e => inl e
  | inr zs =>
      match sliceScan imp zs ((-1)%Q, -1) with
      | inl e => inl e
      | inr (_, maxZ) =>
          match getProcessor (getImageStack imp) (getStackIndex imp 2 maxZ 1) with
          | inl e => inl e
          | inr actin => inr (maxZ, actin)
          end
      end
  end.

Definition titleOf (imp : ImagePlus) (maxZ : Z) : string :=
  (getTitle imp ++ "-Z" ++ Py.str maxZ)%string.

Definition withCal (c : Calibration) (w : World) : World :=
  mkWorld (rt w) c (errors w) (shown w).

Definition withError (msg : string) (w : World) : World :=
  mkWorld (rt w) (cal w) (errors w ++ [msg]) (shown w).

Definition withShown (title : string) (ip : ImageProcessor) (ol : Overlay)
    (w : World) : World :=
  mkWorld (rt w) (cal w) (errors w) (shown w ++ [(title, ip, ol)]).

(** [for imp in images: run(imp)]. *)
Definition runAll (images : list ImagePlus) : St unit :=
  forM images (fun imp _ => run imp) tt.

(** The images [run] hands to a batch: what [fileHandler] opens, depth
    first. *)
Fixpoint imagesOf (fil : File) : list ImagePlus :=
  match fil with
  | RegularFile path images => if Py.endswith path ".lif" then images else []
  | Directory files => flat_map imagesOf files
  | NoFile => []
  end.

Definition worldOf {A} (r : Result World A) : World :=
  match r with
  | Ok _ w => w
  | Raise _ w => w
  end.

End Tiles.

(** ** The specification's own words, for comparison with the code *)

(** A 3x3 kernel turned by 45 degrees: every weight on the ring around the
    centre moves one place along the ring, clockwise ([rot45]) or
    anticlockwise ([rot45ccw]). *)
Definition rot45 (k : list Z) : list Z :=
  match k with
  | [a; b; c; d; e; f; g; h; i] => [d; a; b; g; e; c; h; i; f]
  | _ => k
  end.

Definition rot45ccw (k : list Z) : list Z :=
  match k with
  | [a; b; c; d; e; f; g; h; i] => [b; c; f; a; e; i; d; g; h]
  | _ => k
  end.

(** Three weights of +5 side by side on the top row, centre 0, -3
    elsewhere. *)
Definition kirsch0 : list Z := [5; 5; 5; -3; 0; -3; -3; -3; -3].

(** Eight successive rotations of [k], the [i]-th turned [i] times. *)
Definition rotations (rot : list Z -> list Z) (k : list Z) : list (list Z) :=
  map (fun i => Nat.iter i rot k) (seq 0 8).

(** The sum of a list of integers. *)
Definition zsum (l : list Z) : Z := fold_left Z.add l 0.

(** [a, a+1, ..., b-1]. *)
Definition between (a b : Z) : list Z :=
  map (fun i => a + Z.of_nat i) (seq 0 (Z.to_nat (b - a))).

Definition spec_step (H : Z) : Z := H / 24.

Definition spec_overlap (H : Z) : Z := spec_step H / 5.

(** The set [{overlap, overlap + step, overlap + 2 step, ...}] cut to
    [0 <= v < H - 1], in increasing order. *)
Definition spec_candidates (H : Z) : list Z :=
  filter (fun v => (spec_overlap H <=? v)
                   && ((v - spec_overlap H) mod spec_step H =? 0))
         (between 0 (H - 1)).

(** A candidate is kept when its centre [(x + step/2, y + step/2)], with the
    integer division of the script, is at most [(H - 1, H - 1)]. *)
Definition spec_kept (H : Z) (xy : Z * Z) : bool :=
  (fst xy + spec_step H / 2 <=? H - 1) && (snd xy + spec_step H / 2 <=? H - 1).

(** The kept anchors in raster order: [y] outer, [x] inner. *)
Definition spec_anchors (H : Z) : list (Z * Z) :=
  flat_map (fun y => filter (spec_kept H) (map (fun x => (x, y)) (spec_candidates H)))
           (spec_candidates H).

(** Top-left corner and side of the tile of an anchor. *)
Definition spec_tile (H : Z) (xy : Z * Z) : Z * Z * Z :=
  (fst xy - spec_overlap H, snd xy - spec_overlap H,
   spec_step H + 2 * spec_overlap H).

(** The rectangles of an overlay, in order: corner, width, height. *)
Definition rectsOf (ol : Overlay) : list (Z * Z * Z * Z) :=
  flat_map (fun r => match r with
                     | RectRoi x y w h _ => [(x, y, w, h)]
                     | _ => []
                     end) ol.

(** The values of [l] are all numerically equal. *)
Definition allEqual (l : list Q) : Prop :=
  forall u v, In u l -> In v l -> (u == v)%Q.

(** The rows of a table are numbered by their position. *)
Definition indexed (t : ResultsTable) : Prop :=
  map Tile t = between 0 (Z.of_nat (List.length t)).

(** [m] is a largest, respectively a smallest, value of [l]. *)
Definition isMax (l : list Q) (m : Q) : Prop :=
  In m l /\ forall v, In v l -> (v <= m)%Q.

Definition isMin (l : list Q) (m : Q) : Prop :=
  In m l /\ forall v, In v l -> (m <= v)%Q.



Section SliceSpec.

Context {IJ : ImageJ}.

(** The slices of the reference channel (channel 2, frame 1), first
    slice first. *)
Definition referenceSlices (imp : ImagePlus) : list (Exc + ImageProcessor) :=
  map (fun s => getProcessor (getImageStack imp) (getStackIndex imp 2 s 1))
      (between 1 (getNSlices imp + 1)).

(** [ip] is the first of [slices] with the largest mean. *)
Definition firstBrightest (slices : list (Exc + ImageProcessor))
    (ip : ImageProcessor) : Prop :=
  exists i,
    nth_error slices i = Some (inr ip) /\
    (forall j s, nth_error slices j = Some (inr s) -> (mean s <= mean ip)%Q) /\
    (forall j s, (j < i)%nat -> nth_error slices j = Some (inr s) ->
                 (mean s < mean ip)%Q).

End SliceSpec.

(** ** Concrete inputs *)

Module Demo.

Import RationalImage.

(** An [n] by [n] image with integer pixels [f x y + lift]. *)
Definition synthetic (n lift : Z) : image :=
  mkImage 1
    (map (fun y => map (fun x =>
            (x * x + 3 * y * y + 7 * x * y + (x * y * y) mod 5) mod 23 + lift)
            (indices n))
         (indices n)).

(** A [w] by [h] image of one value. *)
Definition uniform (w h v : Z) : image :=
  mkImage 1 (map (fun _ => map (fun _ => v) (indices w)) (indices h)).

Definition unit : Calibration := mkCalibration 1 1.

Definition w0 : World := mkWorld [] unit [] [].

(** Two channels, two slices; the second slice of channel 2 is the
    brighter one. *)
Definition cells : ImagePlus :=
  mkImagePlus "cells" unit 2 2 1
    [uniform 48 48 0; synthetic 48 0; uniform 48 48 0; synthetic 48 1].

(** One channel, one slice, every pixel 100. *)
Definition flat : ImagePlus :=
  mkImagePlus "flat" unit 1 1 1 [uniform 48 48 100].

(** One channel, one slice, 100 wide and 150 high. *)
Definition oblong : ImagePlus :=
  mkImagePlus "oblong" unit 1 1 1 [uniform 100 150 7].

(** One channel, one slice, 6 wide and 4 high. *)
Definition strip : ImagePlus :=
  mkImagePlus "strip" unit 1 1 1 [uniform 6 4 7].

(** One channel, one slice, 10 by 10. *)
Definition small : ImagePlus :=
  mkImagePlus "small" unit 1 1 1 [synthetic 10 0].

End Demo.

(** ** Unsigned pixels

    ImageJ's 8-bit and 16-bit processors hold no negative value: where a
    subtraction or a convolution gives one, the pixel becomes zero.  The
    reference implementation with that one change; it is not declared an
    instance, so it is used only where it is named. *)

Module UnsignedImage.

Import RationalImage.

Definition floor0 (img : image) : image :=
  mkImage (den img) (map (map (Z.max 0)) (rows img)).

Definition unsigned : ImageJ := {|
  ImageProcessor := image;
  getWidth := width;
  getHeight := height;
  blurGaussian := blur;
  copyBitsSubtract := fun a b => floor0 (subtract a b);
  crop := cropTo;
  convolve := fun k kw kh img => floor0 (conv k kw kh img);
  mean := average
|}.

End UnsignedImage.

(** The texts of the labels of an overlay, in order. *)
Definition labelsOf (ol : Overlay) : list string :=
  flat_map (fun r => match r with
                     | TextRoi _ _ text _ => [text]
                     | _ => []
                     end) ol.

(** ** Further inputs *)

Module Sample.

Import RationalImage.

(** [Demo.synthetic 48 0] with every pixel halved. *)
Definition halved : image := mkImage 2 (rows (Demo.synthetic 48 0)).

(** [Demo.cells] with other images in channel 1. *)
Definition recoloured : ImagePlus :=
  mkImagePlus "cells" Demo.unit 2 2 1
    [Demo.uniform 48 48 9; Demo.synthetic 48 0;
     Demo.uniform 48 48 5; Demo.synthetic 48 1].

End Sample.

(** [b] is [a] on the scale [c]. *)
Definition scaled (c a b : Q) : Prop := (b == c * a)%Q.

(** ** Facts about the Python built-ins *)

Lemma lt_iff (a b : Q) : Py.lt a b = true <-> (a < b)%Q.
Proof. unfold Py.lt, Qlt. apply Z.ltb_lt. Qed.

Lemma lt_false_iff (a b : Q) : Py.lt a b = false <-> (b <= a)%Q.
Proof. unfold Py.lt, Qle. rewrite Z.ltb_ge. reflexivity. Qed.

Lemma eq_iff (a b : Q) : Py.eq a b = true <-> (a == b)%Q.
Proof. apply Qeq_bool_iff. Qed.

Lemma eq_same (a : Q) : Py.eq a a = true.
Proof. apply eq_iff. reflexivity. Qed.

Lemma eq_false_iff (a b : Q) : Py.eq a b = false <-> ~ (a == b)%Q.
Proof.
  rewrite <- eq_iff. destruct (Py.eq a b); split; intros; congruence.
Qed.

(** The running maximum of [max] is an element and bounds every element. *)
Lemma fold_max_spec (t : list Q) (x : Q) :
  let m := fold_left (fun m v => if Py.lt m v then v else m) t x in
  In m (x :: t) /\ (forall v, In v (x :: t) -> (v <= m)%Q).
Proof.
  revert x. induction t as [|a t IH]; intros x; simpl.
  - split; [now left|]. intros v [<-|[]]. apply Qle_refl.
  - destruct (Py.lt x a) eqn:E.
    + apply lt_iff in E. destruct (IH a) as [Hin Hle]. split.
      * destruct Hin as [<-|Hin]; [right; now left | right; now right].
      * intros v [<-|[<-|Hv]].
        -- apply Qle_trans with a; [now apply Qlt_le_weak|]. apply Hle. now left.
        -- apply Hle. now left.
        -- apply Hle. now right.
    + apply lt_false_iff in E. destruct (IH x) as [Hin Hle]. split.
      * destruct Hin as [<-|Hin]; [now left | right; now right].
      * intros v [<-|[<-|Hv]].
        -- apply Hle. now left.
        -- apply Qle_trans with x; [exact E|]. apply Hle. now left.
        -- apply Hle. now right.
Qed.

Lemma fold_min_spec (t : list Q) (x : Q) :
  let m := fold_left (fun m v => if Py.lt v m then v else m) t x in
  In m (x :: t) /\ (forall v, In v (x :: t) -> (m <= v)%Q).
Proof.
  revert x. induction t as [|a t IH]; intros x; simpl.
  - split; [now left|]. intros v [<-|[]]. apply Qle_refl.
  - destruct (Py.lt a x) eqn:E.
    + apply lt_iff in E. destruct (IH a) as [Hin Hle]. split.
      * destruct Hin as [<-|Hin]; [right; now left | right; now right].
      * intros v [<-|[<-|Hv]].
        -- apply Qle_trans with a; [|now apply Qlt_le_weak]. apply Hle. now left.
        -- apply Hle. now left.
        -- apply Hle. now right.
    + apply lt_false_iff in E. destruct (IH x) as [Hin Hle]. split.
      * destruct Hin as [<-|Hin]; [now left | right; now right].
      * intros v [<-|[<-|Hv]].
        -- apply Hle. now left.
        -- apply Qle_trans with x; [|exact E]. apply Hle. now left.
        -- apply Hle. now right.
Qed.

Lemma max_nonempty (l : list Q) :
  l <> [] -> exists m, Py.max l = inr m /\ In m l /\ (forall v, In v l -> (v <= m)%Q).
Proof.
  destruct l as [|x t]; [congruence|]. intros _.
  eexists. split; [reflexivity|]. apply fold_max_spec.
Qed.

Lemma min_nonempty (l : list Q) :
  l <> [] -> exists m, Py.min l = inr m /\ In m l /\ (forall v, In v l -> (m <= v)%Q).
Proof.
  destruct l as [|x t]; [congruence|]. intros _.
  eexists. split; [reflexivity|]. apply fold_min_spec.
Qed.

(** [index] finds every value the list holds, at its first position. *)
Lemma index_In (l : list Q) (v : Q) :
  In v l ->
  exists i, Py.index l v = inr i /\ (i < List.length l)%nat /\
            (exists u, nth_error l i = Some u /\ (u == v)%Q) /\
            (forall j u, (j < i)%nat -> nth_error l j = Some u -> ~ (u == v)%Q).
Proof.
  induction l as [|x t IH]; [intros []|]. intros Hin. simpl.
  destruct (Py.eq x v) eqn:E.
  - exists O. split; [reflexivity|]. split; [simpl; lia|]. split.
    + exists x. split; [reflexivity|]. now apply eq_iff.
    + intros j u Hj. lia.
  - destruct Hin as [->|Hin]; [rewrite eq_same in E; discriminate|].
    destruct (IH Hin) as (i & Hi & Hlt & (u & Hu & Huv) & Hfirst).
    rewrite Hi. exists (S i). split; [reflexivity|]. split; [simpl; lia|]. split.
    + exists u. split; [exact Hu|exact Huv].
    + intros [|j] u' Hj Hnth; simpl in Hnth.
      * injection Hnth as <-. now apply eq_false_iff.
      * apply (Hfirst j); [lia|exact Hnth].
Qed.

Lemma range_from_length (n : nat) (start step : Z) :
  List.length (Py.range_from n start step) = n.
Proof. revert start. induction n; intros; simpl; [reflexivity|]. now rewrite IHn. Qed.

Lemma range_from_nth (n : nat) (start step : Z) (i : nat) :
  (i < n)%nat ->
  nth_error (Py.range_from n start step) i = Some (start + Z.of_nat i * step).
Proof.
  revert start i. induction n; intros start i Hi; [lia|].
  destruct i as [|i]; cbn [Py.range_from nth_error].
  - f_equal. change (Z.of_nat 0) with 0. ring.
  - rewrite IHn by lia. f_equal. rewrite Nat2Z.inj_succ. ring.
Qed.

Lemma range_from_map (n : nat) (start step : Z) :
  Py.range_from n start step = map (fun i => start + Z.of_nat i * step) (seq 0 n).
Proof.
  revert start. induction n; intros start; [reflexivity|].
  cbn [Py.range_from seq map]. f_equal; [change (Z.of_nat 0) with 0; ring|].
  rewrite IHn, <- seq_shift, map_map.
  apply map_ext. intros i. rewrite Nat2Z.inj_succ. ring.
Qed.

Lemma range_positive (start stop step : Z) :
  0 < step ->
  Py.range start stop step
  = inr (Py.range_from (Z.to_nat ((stop - start + step - 1) / step)) start step).
Proof.
  intros Hs. unfold Py.range.
  destruct (step =? 0) eqn:E0; [apply Z.eqb_eq in E0; lia|].
  destruct (0 <? step) eqn:E1; [reflexivity|apply Z.ltb_ge in E1; lia].
Qed.

Lemma range_zero (start stop : Z) : Py.range start stop 0 = inl ValueError.
Proof. reflexivity. Qed.

Lemma range_from_In (n : nat) (start step v : Z) :
  In v (Py.range_from n start step) <->
  exists i, 0 <= i < Z.of_nat n /\ v = start + i * step.
Proof.
  rewrite range_from_map, in_map_iff. split.
  - intros (i & <- & Hi). apply in_seq in Hi. exists (Z.of_nat i). split; [lia|reflexivity].
  - intros (i & Hi & ->). exists (Z.to_nat i). split.
    + rewrite Z2Nat.id by lia. reflexivity.
    + apply in_seq. lia.
Qed.

Lemma range_from_sorted (n : nat) (start step : Z) :
  0 < step -> StronglySorted Z.lt (Py.range_from n start step).
Proof.
  intros Hs. revert start. induction n; intros start; simpl; constructor.
  - apply IHn.
  - apply Forall_forall. intros v Hv. apply range_from_In in Hv.
    destruct Hv as (i & Hi & ->). nia.
Qed.

Lemma between_In (a b v : Z) : In v (between a b) <-> a <= v < b.
Proof.
  unfold between. rewrite in_map_iff. split.
  - intros (i & <- & Hi). apply in_seq in Hi. lia.
  - intros Hv. exists (Z.to_nat (v - a)). split; [lia|]. apply in_seq. lia.
Qed.

Lemma between_sorted (a b : Z) : StronglySorted Z.lt (between a b).
Proof.
  unfold between. generalize (Z.to_nat (b - a)) as n. intros n.
  generalize 0%nat as k. induction n; intros k; simpl; constructor.
  - apply IHn.
  - apply Forall_forall. intros v Hv. apply in_map_iff in Hv.
    destruct Hv as (i & <- & Hi). apply in_seq in Hi. lia.
Qed.

Lemma filter_sorted (f : Z -> bool) (l : list Z) :
  StronglySorted Z.lt l -> StronglySorted Z.lt (filter f l).
Proof.
  induction 1 as [|a l Hs IH Ha]; simpl; [constructor|].
  destruct (f a); [|exact IH]. constructor; [exact IH|].
  apply Forall_forall. intros v Hv. apply filter_In in Hv.
  rewrite Forall_forall in Ha. apply Ha, Hv.
Qed.

(** Two increasing lists with the same elements are the same list. *)
Lemma sorted_same (l1 l2 : list Z) :
  StronglySorted Z.lt l1 -> StronglySorted Z.lt l2 ->
  (forall v, In v l1 <-> In v l2) -> l1 = l2.
Proof.
  intros H1. revert l2. induction H1 as [|a l1 Hs1 IH Ha]; intros l2 H2 Hin.
  - destruct l2 as [|b l2]; [reflexivity|].
    exfalso. apply (proj2 (Hin b)). now left.
  - destruct H2 as [|b l2 Hs2 Hb].
    + exfalso. apply (proj1 (Hin a)). now left.
    + rewrite Forall_forall in Ha, Hb.
      assert (a = b) as <-.
      { destruct (proj1 (Hin a) (or_introl eq_refl)) as [->|Hab]; [reflexivity|].
        destruct (proj2 (Hin b) (or_introl eq_refl)) as [->|Hba]; [reflexivity|].
        specialize (Ha _ Hba). specialize (Hb _ Hab). lia. }
      f_equal. apply IH; [exact Hs2|]. intros v. split; intros Hv.
      * destruct (proj1 (Hin v) (or_intror Hv)) as [<-|Hv']; [|exact Hv'].
        specialize (Ha _ Hv). lia.
      * destruct (proj2 (Hin v) (or_intror Hv)) as [<-|Hv']; [|exact Hv'].
        specialize (Hb _ Hv). lia.
Qed.

(** With a positive step, [range] lists the multiples of the step above
    [start] that lie below [stop]: the set of the specification. *)
Lemma range_candidates (start stop step : Z) :
  0 < step -> 0 <= start ->
  Py.range start stop step
  = inr (filter (fun v => (start <=? v) && ((v - start) mod step =? 0))
                (between 0 stop)).
Proof.
  intros Hs H0. rewrite range_positive by exact Hs. f_equal.
  apply sorted_same.
  - now apply range_from_sorted.
  - apply filter_sorted, between_sorted.
  - intros v. rewrite range_from_In, filter_In, between_In.
    rewrite andb_true_iff, Z.leb_le, Z.eqb_eq.
    set (d := stop - start + step - 1).
    assert (Hd : step * (d / step) <= d) by (apply Z.mul_div_le; lia).
    assert (Hd' : d < step * (d / step) + step).
    { pose proof (Z.mod_pos_bound d step Hs). pose proof (Z.div_mod d step). lia. }
    split.
    + intros (i & Hi & ->). rewrite Z.add_simpl_l, Z.mod_mul by lia.
      destruct (Z_le_gt_dec (d / step) 0) as [Hle|Hgt].
      * rewrite Z2Nat.id in Hi by lia. lia.
      * rewrite Z2Nat.id in Hi by lia. subst d. split; [nia|]. split; [nia|reflexivity].
    + intros ((Hv0 & Hv1) & Hv2 & Hm).
      apply Z.mod_divide in Hm; [|lia]. destruct Hm as (q & Hq).
      exists q. assert (0 <= q) by nia.
      assert (q < d / step) by (subst d; nia).
      split; [|lia]. rewrite Z2Nat.id by lia. lia.
Qed.

(** ** Facts about loops *)

Lemma forM_app {W B S} (l1 l2 : list B) (body : B -> S -> M W S) (s : S) (w : W) :
  forM (l1 ++ l2) body s w = bind (forM l1 body s) (forM l2 body) w.
Proof.
  revert s w. induction l1 as [|b l1 IH]; intros s w; simpl.
  - reflexivity.
  - unfold bind. destruct (body b s w) as [s' w'|e w']; [|reflexivity].
    rewrite IH. reflexivity.
Qed.

Lemma forM_map {W A B S} (f : A -> B) (l : list A) (body : B -> S -> M W S)
    (s : S) (w : W) :
  forM (map f l) body s w = forM l (fun a => body (f a)) s w.
Proof.
  revert s w. induction l as [|a l IH]; intros s w; simpl; [reflexivity|].
  unfold bind. destruct (body (f a) s w); [apply IH|reflexivity].
Qed.

(** Iterations that change nothing can be left out. *)
Lemma forM_filter {W B S} (keep : B -> bool) (l : list B) (body : B -> S -> M W S)
    (s : S) (w : W) :
  (forall b s, keep b = false -> body b s = ret s) ->
  forM l body s w = forM (filter keep l) body s w.
Proof.
  intros Hskip. revert s w. induction l as [|b l IH]; intros s w; simpl; [reflexivity|].
  destruct (keep b) eqn:E; simpl.
  - unfold bind. destruct (body b s w); [apply IH|reflexivity].
  - rewrite (Hskip b s E). unfold bind, ret. apply IH.
Qed.

(** A loop in a loop is one loop over the pairs, outer variable slowest. *)
Lemma forM_nested {W A B S} (outer : list A) (inner : list B)
    (body : A -> B -> S -> M W S) (s : S) (w : W) :
  forM outer (fun a st => forM inner (body a) st) s w
  = forM (flat_map (fun a => map (fun b => (b, a)) inner) outer)
         (fun ba => body (snd ba) (fst ba)) s w.
Proof.
  revert s w. induction outer as [|a outer IH]; intros s w; simpl; [reflexivity|].
  rewrite forM_app. unfold bind. rewrite forM_map. simpl.
  replace (fun a0 : B => body a a0) with (body a) by reflexivity.
  destruct (forM inner (body a) s w); [apply IH|reflexivity].
Qed.

Lemma forM_ext {W B S} (l : list B) (body1 body2 : B -> S -> M W S) (s : S) (w : W) :
  (forall b s w, In b l -> body1 b s w = body2 b s w) ->
  forM l body1 s w = forM l body2 s w.
Proof.
  revert s w. induction l as [|b l IH]; intros s w Hext; simpl; [reflexivity|].
  unfold bind. rewrite Hext by now left.
  destruct (body2 b s w); [|reflexivity]. apply IH.
  intros b' s' w' Hin. apply Hext. now right.
Qed.

(** ** Facts about the results table *)

Lemma updateAt_last {A} (f : A -> A) (t : list A) (r : A) :
  updateAt (List.length t) f (t ++ [r]) = t ++ [f r].
Proof. induction t as [|a t IH]; simpl; [reflexivity|]. now rewrite IH. Qed.

(** Writing to the row past the end appends the row. *)
Lemma setValue_new (column : Row -> Row) (t : ResultsTable) :
  ResultsTable_setValue column (Z.of_nat (List.length t)) t
  = inr (t ++ [column emptyRow]).
Proof. unfold ResultsTable_setValue. now rewrite Z.eqb_refl. Qed.

(** Writing to the last row changes that row. *)
Lemma setValue_last (column : Row -> Row) (t : ResultsTable) (r : Row) :
  ResultsTable_setValue column (Z.of_nat (List.length t)) (t ++ [r])
  = inr (t ++ [column r]).
Proof.
  unfold ResultsTable_setValue. rewrite length_app. cbn [List.length].
  destruct (Z.of_nat (List.length t) =? Z.of_nat (List.length t + 1)) eqn:E;
    [apply Z.eqb_eq in E; lia|].
  replace ((0 <=? Z.of_nat (List.length t))
           && (Z.of_nat (List.length t) <? Z.of_nat (List.length t + 1))) with true.
  - now rewrite Nat2Z.id, updateAt_last.
  - symmetry. apply andb_true_iff. split; [apply Z.leb_le|apply Z.ltb_lt]; lia.
Qed.

(** ** What [tileBody] and the tile loops do *)

Section Analysis.

Context {IJ : ImageJ}.

Lemma edgeDirections_length (ip : ImageProcessor) :
  List.length (edgeDirections ip) = 8%nat.
Proof. reflexivity. Qed.

Lemma edgeDirections_nonempty (ip : ImageProcessor) : edgeDirections ip <> [].
Proof. discriminate. Qed.

Lemma max_edge (l : list Q) : l <> [] -> Py.max l = inr (edgeMaxOf l).
Proof.
  intros Hl. destruct (max_nonempty l Hl) as (m & Hm & _).
  unfold edgeMaxOf. now rewrite Hm.
Qed.

Lemma min_edge (l : list Q) : l <> [] -> Py.min l = inr (edgeMinOf l).
Proof.
  intros Hl. destruct (min_nonempty l Hl) as (m & Hm & _).
  unfold edgeMinOf. now rewrite Hm.
Qed.

Lemma edgeMaxOf_spec (l : list Q) :
  l <> [] -> In (edgeMaxOf l) l /\ (forall v, In v l -> (v <= edgeMaxOf l)%Q).
Proof.
  intros Hl. destruct (max_nonempty l Hl) as (m & Hm & Hin & Hle).
  unfold edgeMaxOf. rewrite Hm. now split.
Qed.

Lemma edgeMinOf_spec (l : list Q) :
  l <> [] -> In (edgeMinOf l) l /\ (forall v, In v l -> (edgeMinOf l <= v)%Q).
Proof.
  intros Hl. destruct (min_nonempty l Hl) as (m & Hm & Hin & Hle).
  unfold edgeMinOf. rewrite Hm. now split.
Qed.

Lemma index_edge (l : list Q) :
  l <> [] -> Py.index l (edgeMaxOf l) = inr (maxiOf l).
Proof.
  intros Hl. destruct (index_In l (edgeMaxOf l)) as (i & Hi & _).
  - now apply edgeMaxOf_spec.
  - unfold maxiOf. now rewrite Hi.
Qed.

Lemma maxiOf_bound (l : list Q) : l <> [] -> (maxiOf l < List.length l)%nat.
Proof.
  intros Hl. destruct (index_In l (edgeMaxOf l)) as (i & Hi & Hlt & _).
  - now apply edgeMaxOf_spec.
  - unfold maxiOf. now rewrite Hi.
Qed.

Lemma tileBody_skip ip title W H step overlap x y st :
  inBounds W H step (x, y) = false ->
  tileBody ip title W H step overlap y x st = ret st.
Proof.
  intros Hb. unfold inBounds in Hb. cbn [fst snd] in Hb.
  apply negb_false_iff in Hb. destruct st as [row ol].
  unfold tileBody. now rewrite Hb.
Qed.

Lemma tileBody_in ip title W H step overlap x y row ol w :
  inBounds W H step (x, y) = true ->
  row = Z.of_nat (List.length (rt w)) ->
  tileBody ip title W H step overlap y x (row, ol) w
  = if tileOk ip step overlap (x, y)
    then Ok (row + 1, ol ++ primsOf ip step overlap row (x, y))
            (addRows [rowOf ip title (cal w) step overlap row (x, y)] w)
    else Raise ZeroDivisionError w.
Proof.
  intros Hb ->. unfold inBounds in Hb. cbn [fst snd] in Hb.
  apply negb_true_iff in Hb.
  unfold tileBody. rewrite Hb.
  fold (tileOf ip step overlap x y).
  unfold tileOk, rowOf, primsOf. cbn [fst snd].
  set (e := edgeDirections (tileOf ip step overlap x y)).
  assert (He : e <> []) by apply edgeDirections_nonempty.
  unfold bind, lift.
  rewrite (max_edge e He), (min_edge e He).
  unfold Py.div.
  destruct (Py.eq (Py.sum e - edgeMinOf e) 0); cbn [negb]; [reflexivity|].
  rewrite (index_edge e He).
  unfold getCal, setValue. cbn [rt cal errors shown].
  rewrite setValue_new.
  repeat (cbn [rt cal errors shown]; rewrite setValue_last).
  unfold ret, addRows. cbn [rt cal errors shown].
  rewrite <- !app_assoc. reflexivity.
Qed.

Lemma addRows_nil (w : World) : addRows [] w = w.
Proof. destruct w. unfold addRows. cbn. now rewrite app_nil_r. Qed.

Lemma addRows_addRows (r1 r2 : list Row) (w : World) :
  addRows r2 (addRows r1 w) = addRows (r1 ++ r2) w.
Proof. unfold addRows. cbn. now rewrite app_assoc. Qed.

(** The tile loop from a state in which [row] is the table's counter:
    tiles are recorded one by one until the first whose score division
    fails. *)
Lemma tiles_loop ip title W H step overlap (tiles : list (Z * Z)) :
  forall row ol w,
    Forall (fun xy => inBounds W H step xy = true) tiles ->
    row = Z.of_nat (List.length (rt w)) ->
    forM tiles (fun xy => tileBody ip title W H step overlap (snd xy) (fst xy))
         (row, ol) w
    = if forallb (tileOk ip step overlap) tiles
      then Ok (row + Z.of_nat (List.length tiles),
               ol ++ primsFrom ip step overlap row tiles)
              (addRows (rowsFrom ip title (cal w) step overlap row tiles) w)
      else Raise ZeroDivisionError
                 (addRows (rowsFrom ip title (cal w) step overlap row
                                    (scored ip step overlap tiles)) w).
Proof.
  induction tiles as [|[x y] tiles IH]; intros row ol w Hin Hrow.
  - cbn. unfold ret. now rewrite addRows_nil, app_nil_r, Z.add_0_r.
  - inversion Hin as [|? ? Hxy Hrest]; subst.
    cbn [forM forallb scored fst snd]. unfold bind.
    rewrite tileBody_in by (exact Hxy || reflexivity).
    destruct (tileOk ip step overlap (x, y)); cbn [andb].
    + rewrite IH; [|exact Hrest|].
      * cbn [rowsFrom primsFrom List.length].
        rewrite !addRows_addRows, <- app_assoc. cbn [app addRows cal].
        replace (Z.of_nat (List.length (rt w)) + 1 + Z.of_nat (List.length tiles))
          with (Z.of_nat (List.length (rt w)) + Z.of_nat (S (List.length tiles)))
          by lia.
        reflexivity.
      * unfold addRows. cbn [rt]. rewrite length_app. cbn. lia.
    + cbn. now rewrite addRows_nil.
Qed.

Lemma filter_flat_map_pairs {A B} (f : B -> bool) (g : A -> list B) (l : list A) :
  filter f (flat_map g l) = flat_map (fun a => filter f (g a)) l.
Proof.
  induction l as [|a l IH]; simpl; [reflexivity|].
  now rewrite filter_app, IH.
Qed.

(** [tiledAnalysis] on a square image, without the monad. *)
Lemma tiledAnalysis_square ip ol title w :
  getWidth ip = getHeight ip ->
  tiledAnalysis ip ol title w
  = let H := getHeight ip in
    let step := H / nRows in
    let overlap := Z.quot step 5 in
    let row := Z.of_nat (List.length (rt w)) in
    match Py.range overlap (H - 1) step with
    | inl e => Raise e w
    | inr cs =>
        let tiles := anchors H H step cs cs in
        if forallb (tileOk ip step overlap) tiles
        then Ok (ol ++ primsFrom ip step overlap row tiles)
                (addRows (rowsFrom ip title (cal w) step overlap row tiles) w)
        else Raise ZeroDivisionError
                   (addRows (rowsFrom ip title (cal w) step overlap row
                                      (scored ip step overlap tiles)) w)
    end.
Proof.
  intros HW. unfold tiledAnalysis. rewrite HW, Z.eqb_refl. cbn [negb].
  cbv zeta. unfold bind at 1, getCounter. unfold bind at 1, lift at 1.
  destruct (Py.range _ _ _) as [e|cs]; [reflexivity|].
  unfold bind at 1.
  rewrite (forM_ext cs _
            (fun y st => forM cs (tileBody ip title (getHeight ip) (getHeight ip)
                                           (getHeight ip / nRows)
                                           (getHeight ip / nRows ÷ 5) y) st))
    by reflexivity.
  rewrite forM_nested.
  rewrite (forM_filter (inBounds (getHeight ip) (getHeight ip) (getHeight ip / nRows)))
    by (intros [x y] st Hk; now apply tileBody_skip).
  rewrite filter_flat_map_pairs. fold (anchors (getHeight ip) (getHeight ip)
                                          (getHeight ip / nRows) cs cs).
  rewrite tiles_loop; [|unfold anchors|reflexivity].
  - destruct (forallb _ _); reflexivity.
  - apply Forall_forall. intros xy Hxy. apply in_flat_map in Hxy.
    destruct Hxy as (y & _ & Hxy). now apply filter_In in Hxy.
Qed.

Lemma tiledAnalysis_oblong ip ol title w :
  getWidth ip <> getHeight ip ->
  tiledAnalysis ip ol title w
  = Ok ol (mkWorld (rt w) (cal w) (errors w ++ ["Image is not square"%string]) (shown w)).
Proof.
  intros HW. unfold tiledAnalysis.
  destruct (getWidth ip =? getHeight ip) eqn:E; [apply Z.eqb_eq in E; contradiction|].
  reflexivity.
Qed.

Lemma sliceStep_raised imp (zs : list Z) (e : Exc) :
  fold_left (sliceStep imp) zs (inl e) = inl e.
Proof. induction zs; simpl; [reflexivity|exact IHzs]. Qed.

(** The slice loop does not touch the world. *)
Lemma slice_loop imp (zs : list Z) (st : Q * Z) (w : World) :
  forM zs (sliceBody imp) st w = lift (sliceScan imp zs st) w.
Proof.
  unfold sliceScan. revert st. induction zs as [|z zs IH]; intros [maxM maxZ].
  - reflexivity.
  - cbn [forM fold_left sliceStep]. unfold bind at 1. unfold sliceBody at 1.
    unfold bind, lift at 1.
    destruct (getProcessor _ _) as [e|ip].
    + rewrite sliceStep_raised. reflexivity.
    + destruct (Py.lt maxM (mean ip)); unfold ret; apply IH.
Qed.

(** [run], without the monad. *)
Lemma run_eq imp w :
  run imp w
  = match selected imp with
    | inl e => Raise e (withCal (getCalibration imp) w)
    | inr (maxZ, actin) =>
        match tiledAnalysis (process actin) [] (titleOf imp maxZ)
                            (withCal (getCalibration imp) w) with
        | Ok ol w2 => Ok tt (withShown (titleOf imp maxZ) actin ol w2)
        | Raise e w2 => Raise e w2
        end
    end.
Proof.
  unfold run, selected. unfold bind at 1, setCal. unfold bind at 1, lift at 1.
  destruct (Py.range 0 (getNSlices imp) 1) as [e|zs]; [reflexivity|].
  unfold bind at 1. rewrite slice_loop. unfold lift at 1.
  destruct (sliceScan imp zs _) as [e|[maxM maxZ]]; [reflexivity|].
  cbn [snd]. unfold bind at 1, lift at 1.
  destruct (getProcessor _ _) as [e|actin]; [reflexivity|].
  cbv zeta. unfold bind.
  destruct (tiledAnalysis _ _ _ _) as [ol w2|e w2]; reflexivity.
Qed.

(** ** What the tiles of one image add to the table and the overlay *)

Lemma rowsFrom_length ip title c step overlap row tiles :
  List.length (rowsFrom ip title c step overlap row tiles) = List.length tiles.
Proof.
  revert row. induction tiles as [|xy t IH]; intros row; simpl; [reflexivity|].
  now rewrite IH.
Qed.

Lemma rowsFrom_Tile ip title c step overlap row tiles :
  map Tile (rowsFrom ip title c step overlap row tiles)
  = between row (row + Z.of_nat (List.length tiles)).
Proof.
  unfold between. replace (row + Z.of_nat (List.length tiles) - row)
    with (Z.of_nat (List.length tiles)) by lia.
  rewrite Nat2Z.id. revert row.
  induction tiles as [|[x y] t IH]; intros row; [reflexivity|].
  cbn [rowsFrom map List.length seq rowOf Tile]. f_equal; [cbn; lia|].
  rewrite IH, <- seq_shift, map_map. apply map_ext. intros i. lia.
Qed.

Lemma rowsFrom_Image ip title c step overlap row tiles :
  Forall (fun r => Image r = title) (rowsFrom ip title c step overlap row tiles).
Proof.
  revert row. induction tiles as [|[x y] t IH]; intros row; constructor;
    [reflexivity|apply IH].
Qed.

Lemma rowsFrom_FibreIntensity ip title c step overlap row tiles :
  map FibreIntensity (rowsFrom ip title c step overlap row tiles)
  = map (fun xy => mean (tileOf ip step overlap (fst xy) (snd xy))) tiles.
Proof.
  revert row. induction tiles as [|[x y] t IH]; intros row; [reflexivity|].
  cbn [rowsFrom map]. now rewrite IH.
Qed.


Lemma primsFrom_length ip step overlap row tiles :
  List.length (primsFrom ip step overlap row tiles) = (3 * List.length tiles)%nat.
Proof.
  revert row. induction tiles as [|[x y] t IH]; intros row; [reflexivity|].
  cbn [primsFrom]. rewrite length_app, IH. cbn [List.length primsOf]. lia.
Qed.

Lemma rectsOf_app (a b : Overlay) : rectsOf (a ++ b) = rectsOf a ++ rectsOf b.
Proof. apply flat_map_app. Qed.

Lemma primsFrom_rects ip step overlap row tiles :
  rectsOf (primsFrom ip step overlap row tiles)
  = map (fun xy => (fst xy - overlap, snd xy - overlap,
                    step + overlap * 2, step + overlap * 2)) tiles.
Proof.
  revert row. induction tiles as [|[x y] t IH]; intros row; [reflexivity|].
  cbn [primsFrom]. rewrite rectsOf_app, IH. reflexivity.
Qed.

Lemma scored_prefix ip step overlap (tiles : list (Z * Z)) :
  exists n, scored ip step overlap tiles = firstn n tiles.
Proof.
  induction tiles as [|xy tiles (n & IH)]; [now exists O|].
  cbn [scored]. destruct (tileOk ip step overlap xy).
  - exists (S n). cbn [firstn]. now rewrite IH.
  - now exists O.
Qed.

(** Whatever the outcome, [tiledAnalysis] appends the rows of the first
    [n] tiles of the grid, numbered from the table's counter, and touches
    nothing else but the error log; when it returns, the overlay has grown
    by the primitives of those tiles. *)
Lemma tiledAnalysis_outcome ip ol title w :
  exists n,
    let tiles := firstn n (gridOf ip) in
    let step := getHeight ip / nRows in
    let overlap := Z.quot step 5 in
    let row := Z.of_nat (List.length (rt w)) in
    let w' := worldOf (tiledAnalysis ip ol title w) in
    rt w' = rt w ++ rowsFrom ip title (cal w) step overlap row tiles /\
    cal w' = cal w /\ shown w' = shown w /\
    forall ol' w'', tiledAnalysis ip ol title w = Ok ol' w'' ->
                    ol' = ol ++ primsFrom ip step overlap row tiles.
Proof.
  unfold gridOf. cbv zeta.
  destruct (Z.eq_dec (getWidth ip) (getHeight ip)) as [HW|HW].
  - rewrite (tiledAnalysis_square ip ol title w HW). cbv zeta.
    rewrite HW, Z.eqb_refl.
    destruct (Py.range _ _ _) as [e|cs].
    + exists O. cbn. rewrite app_nil_r. repeat split. discriminate.
    + destruct (forallb _ _).
      * eexists. rewrite firstn_all.
        cbn [worldOf addRows rt cal shown]. repeat split.
        intros ol' w'' Heq. now injection Heq as <- _.
      * match goal with
        | |- context [scored ?i ?st ?ov ?l] =>
            destruct (scored_prefix i st ov l) as (n & Hn); rewrite Hn
        end.
        exists n. cbn [worldOf addRows rt cal shown]. repeat split. discriminate.
  - rewrite (tiledAnalysis_oblong ip ol title w HW).
    destruct (getWidth ip =? getHeight ip) eqn:E; [apply Z.eqb_eq in E; contradiction|].
    exists O. cbn. rewrite !app_nil_r. repeat split.
    intros ol' w'' Heq. now injection Heq as <- _.
Qed.

End Analysis.

(** ** Principal direction *)

Lemma rawAngle_eighths (maxi : nat) :
  rawAngle maxi 8 = ((INR maxi + 2) * (PI / 4))%R.
Proof.
  unfold rawAngle. replace (INR 8) with 8%R by (simpl; lra). field.
Qed.

(** The direction [tiledAnalysis] records is the fold of the raw angle of
    one of the eight kernel positions. *)
Lemma rowOf_direction {IJ : ImageJ} ip title c step overlap row xy :
  exists maxi, (maxi < 8)%nat /\
    PrincipalDirection (rowOf ip title c step overlap row xy)
    = normAngle (rawAngle maxi 8).
Proof.
  destruct xy as [x y]. cbn [rowOf PrincipalDirection]. unfold thetaOf.
  rewrite edgeDirections_length.
  exists (maxiOf (edgeDirections (tileOf ip step overlap x y))). split; [|reflexivity].
  rewrite <- (edgeDirections_length (tileOf ip step overlap x y)).
  apply maxiOf_bound, edgeDirections_nonempty.
Qed.

(** C2 (amended): for [maxIndex] in 0..6 the recorded principal direction,
    the fold [normAngle] of [maxIndex * (2 pi / 8) + pi / 2], lies in the
    closed interval from 0 to pi. *)
Theorem principalDirection_range (maxi : nat) :
  (maxi <= 6)%nat ->
  (0 <= normAngle (rawAngle maxi 8) <= PI)%R.
Proof.
  intros Hm. rewrite rawAngle_eighths. pose proof PI_RGT_0 as Hpi.
  assert (Hcases : (maxi = 0 \/ maxi = 1 \/ maxi = 2 \/ maxi = 3 \/ maxi = 4
                    \/ maxi = 5 \/ maxi = 6)%nat) by lia.
  unfold normAngle.
  destruct Hcases as [->|[->|[->|[->|[->|[->| ->]]]]]]; simpl INR;
    destruct (Rlt_dec _ _); try lra;
    destruct (Rgt_dec _ _); lra.
Qed.

Lemma principalDirection_range_witness :
  (2 <= 6)%nat /\ (0 <= normAngle (rawAngle 2 8) <= PI)%R.
Proof. split; [lia|]. apply (principalDirection_range 2). lia. Defined.

(** C2 (as stated) fails: the kernel at position 2 gives exactly pi, which
    is not below pi. *)
Lemma principalDirection_reaches_pi :
  ~ (0 <= normAngle (rawAngle 2 8) < PI)%R.
Proof.
  rewrite rawAngle_eighths. pose proof PI_RGT_0 as Hpi.
  unfold normAngle. simpl INR.
  destruct (Rlt_dec _ _); [lra|].
  destruct (Rgt_dec _ _); lra.
Qed.

(** The values of the fold at the eight positions, in units of pi / 4. *)
Lemma principalDirection_table :
  map (fun maxi => normAngle (rawAngle maxi 8)) (seq 0 8)
  = map (fun k => (k * (PI / 4))%R) [2; 3; 4; 1; 2; 3; 4; 5]%R.
Proof.
  pose proof PI_RGT_0 as Hpi. cbn [seq map].
  rewrite !rawAngle_eighths. unfold normAngle. simpl INR.
  repeat (apply (f_equal2 cons);
          [destruct (Rlt_dec _ _); [lra|]; destruct (Rgt_dec _ _); lra|]).
  reflexivity.
Qed.

(** ** Kernel order *)

(** C5: the list holds the eight rotations of the Kirsch pattern, but the
    rotations by 180 and 225 degrees and those by 270 and 315 degrees are
    swapped, so the list is not the eight successive rotations, in either
    sense of rotation. *)
Theorem dirKernels_order :
  dirKernels = map (fun i => Nat.iter i rot45 kirsch0) [0; 1; 2; 3; 5; 4; 7; 6]%nat
  /\ dirKernels <> rotations rot45 kirsch0
  /\ dirKernels <> rotations rot45ccw kirsch0
  /\ nth 4 dirKernels [] = Nat.iter 5 rot45 kirsch0
  /\ nth 4 dirKernels [] <> Nat.iter 4 rot45 kirsch0.
Proof.
  split; [reflexivity|]. repeat split; try reflexivity; vm_compute; discriminate.
Qed.

(** The eight rotations come back to the start, so a kernel list in
    rotation order has the kernel of position [i] at angle [i * 45]
    degrees. *)
Lemma rot45_period : Nat.iter 8 rot45 kirsch0 = kirsch0.
Proof. reflexivity. Qed.

(** The eight kernels add up to the zero kernel. *)
Lemma dirKernels_sum_zero :
  forall i, (i < 9)%nat ->
    fold_left Z.add (map (fun k => nth i k 0) dirKernels) 0 = 0.
Proof.
  intros i Hi. do 9 (destruct i as [|i]; [reflexivity|]). lia.
Qed.

(** ** Scores *)

Lemma sum_from_all_equal (l : list Q) (a v : Q) :
  (forall u, In u l -> (u == v)%Q) ->
  (fold_left Qplus l a == a + inject_Z (Z.of_nat (List.length l)) * v)%Q.
Proof.
  revert a. induction l as [|x l IH]; intros a Hall.
  - simpl. ring.
  - cbn [fold_left List.length]. rewrite IH by (intros u Hu; apply Hall; now right).
    rewrite (Hall x) by now left.
    rewrite Nat2Z.inj_succ. unfold Z.succ. rewrite inject_Z_plus. ring.
Qed.

Lemma sum_all_equal (l : list Q) (v : Q) :
  List.length l = 8%nat -> (forall u, In u l -> (u == v)%Q) ->
  (Py.sum l == 8 * v)%Q.
Proof.
  intros Hlen Hall. unfold Py.sum. rewrite (sum_from_all_equal l 0 v Hall), Hlen.
  change (inject_Z (Z.of_nat 8)) with 8%Q. ring.
Qed.

Lemma zero_ratio (a b d : Q) : (a == b)%Q -> ((a - b) / d * 8 == 0)%Q.
Proof. intros Hab. rewrite Hab. unfold Qdiv. ring. Qed.

Lemma seven_times_zero (v : Q) : (7 * v == 0)%Q -> (v == 0)%Q.
Proof.
  intros H7. apply (Qmult_inj_l v 0 7); [discriminate|]. rewrite H7. ring.
Qed.

Section Claims.

Context {IJ : ImageJ}.

(** C3 (amended): when the eight directional responses of a tile all
    equal a value [v] other than zero, the tile is recorded with score 0
    and nothing is raised; when they are all zero, the division of the
    score raises [ZeroDivisionError] and the tile is not recorded. *)
Theorem equal_responses_score ip title W H step overlap x y row ol w (v : Q) :
  inBounds W H step (x, y) = true ->
  row = Z.of_nat (List.length (rt w)) ->
  (forall u, In u (edgeDirections (tileOf ip step overlap x y)) -> (u == v)%Q) ->
  ((v == 0)%Q ->
     tileBody ip title W H step overlap y x (row, ol) w
     = Raise ZeroDivisionError w)
  /\ (~ (v == 0)%Q ->
     exists r ol',
       tileBody ip title W H step overlap y x (row, ol) w
       = Ok (row + 1, ol') (addRows [r] w)
       /\ (StressFibreScore r == 0)%Q).
Proof.
  intros Hb Hrow Hall. rewrite (tileBody_in _ _ _ _ _ _ _ _ _ _ _ Hb Hrow).
  unfold tileOk. cbn [fst snd].
  set (e := edgeDirections (tileOf ip step overlap x y)) in *.
  assert (He : e <> []) by apply edgeDirections_nonempty.
  assert (Hsum : (Py.sum e == 8 * v)%Q)
    by (apply sum_all_equal; [apply edgeDirections_length|exact Hall]).
  assert (Hmin : (edgeMinOf e == v)%Q) by (apply Hall, edgeMinOf_spec, He).
  assert (Hmax : (edgeMaxOf e == v)%Q) by (apply Hall, edgeMaxOf_spec, He).
  assert (Hden : (Py.sum e - edgeMinOf e == 7 * v)%Q) by (rewrite Hsum, Hmin; ring).
  split; intros Hv.
  - replace (Py.eq (Py.sum e - edgeMinOf e) 0) with true; [reflexivity|].
    symmetry. apply eq_iff. rewrite Hden, Hv. reflexivity.
  - replace (Py.eq (Py.sum e - edgeMinOf e) 0) with false.
    + cbn [negb]. eexists. eexists. split; [reflexivity|].
      cbn [rowOf StressFibreScore]. fold e. unfold scoreOf.
      apply zero_ratio. rewrite Hmax, Hmin. reflexivity.
    + symmetry. apply eq_false_iff. rewrite Hden. intros H7. apply Hv.
      now apply seven_times_zero.
Qed.

(** C4: for every tile that passes the boundary check, in particular one
    whose eight directional responses are not all equal, the recorded
    score is [((max - min) / (sum - min)) * 8] for the largest value, the
    smallest value and the sum of exactly those eight responses; the tile
    is recorded whenever that division is defined, and otherwise the
    division raises [ZeroDivisionError]. *)
Theorem score_recorded ip title W H step overlap x y row ol w :
  inBounds W H step (x, y) = true ->
  row = Z.of_nat (List.length (rt w)) ->
  let e := edgeDirections (tileOf ip step overlap x y) in
  exists mx mn,
    List.length e = 8%nat /\ isMax e mx /\ isMin e mn /\
    (~ (Py.sum e - mn == 0)%Q ->
       exists r ol',
         tileBody ip title W H step overlap y x (row, ol) w
         = Ok (row + 1, ol') (addRows [r] w)
         /\ StressFibreScore r = ((mx - mn) / (Py.sum e - mn) * 8)%Q)
    /\ ((Py.sum e - mn == 0)%Q ->
       tileBody ip title W H step overlap y x (row, ol) w
       = Raise ZeroDivisionError w).
Proof.
  intros Hb Hrow e. rewrite (tileBody_in _ _ _ _ _ _ _ _ _ _ _ Hb Hrow).
  unfold tileOk. cbn [fst snd]. fold e.
  assert (He : e <> []) by apply edgeDirections_nonempty.
  exists (edgeMaxOf e), (edgeMinOf e).
  split; [apply edgeDirections_length|].
  split; [apply edgeMaxOf_spec, He|]. split; [apply edgeMinOf_spec, He|].
  split; intros Hden.
  - apply eq_false_iff in Hden. rewrite Hden. cbn [negb].
    eexists. eexists. split; reflexivity.
  - apply eq_iff in Hden. rewrite Hden. reflexivity.
Qed.

End Claims.

(** ** Tile grid *)

Lemma spec_candidates_In (H v : Z) :
  24 <= H ->
  (In v (spec_candidates H) <->
   exists k, 0 <= k /\ v = spec_overlap H + k * spec_step H /\ 0 <= v < H - 1).
Proof.
  intros HH. unfold spec_candidates. rewrite filter_In, between_In.
  rewrite andb_true_iff, Z.leb_le, Z.eqb_eq.
  assert (Hs : 0 < spec_step H).
  { unfold spec_step. apply Z.div_str_pos. lia. }
  assert (Ho : 0 <= spec_overlap H).
  { unfold spec_overlap. apply Z.div_pos; lia. }
  split.
  - intros (Hv & Hle & Hm). apply Z.mod_divide in Hm; [|lia].
    destruct Hm as (k & Hk). exists k. split; [nia|]. split; [lia|exact Hv].
  - intros (k & Hk & -> & Hv). split; [exact Hv|]. split; [nia|].
    rewrite Z.add_simpl_l. apply Z.mod_mul. lia.
Qed.

Lemma range_spec_candidates (H : Z) :
  24 <= H ->
  Py.range (spec_overlap H) (H - 1) (spec_step H) = inr (spec_candidates H).
Proof.
  intros HH. apply range_candidates.
  - unfold spec_step. apply Z.div_str_pos. lia.
  - unfold spec_overlap, spec_step. apply Z.div_pos; [|lia]. apply Z.div_pos; lia.
Qed.

Lemma script_overlap (H : Z) :
  0 <= H -> Z.quot (H / 24) 5 = spec_overlap H.
Proof.
  intros HH. unfold spec_overlap, spec_step.
  apply Z.quot_div_nonneg; [|lia]. apply Z.div_pos; lia.
Qed.

Section Grid.

Context {IJ : ImageJ}.

Lemma anchors_spec (H : Z) :
  anchors H H (spec_step H) (spec_candidates H) (spec_candidates H)
  = spec_anchors H.
Proof.
  unfold anchors, spec_anchors. apply flat_map_ext. intros y.
  apply filter_ext. intros [a b]. unfold inBounds, spec_kept. cbn [fst snd].
  rewrite negb_orb, !Z.ltb_antisym, !negb_involutive. reflexivity.
Qed.

(** C6 (amended): for a square image of side [H >= 24] the candidate
    coordinates of the loops are the set [{overlap + k step}] cut to
    [0 <= v < H - 1], with [step = H / 24] and [overlap = step / 5]; the
    loops analyse exactly the candidates kept by the centre test, [y]
    outer and [x] inner, stopping only when a score division fails; the
    tile of a kept anchor has corner [(x - overlap, y - overlap)] and
    side [step + 2 overlap]; for [H = 480], [step = 20] and
    [overlap = 4]. *)
Theorem tile_grid ip ol title w (H : Z) :
  getWidth ip = H -> getHeight ip = H -> 24 <= H ->
  let step := spec_step H in
  let overlap := spec_overlap H in
  let row := Z.of_nat (List.length (rt w)) in
  Py.range overlap (H - 1) step = inr (spec_candidates H)
  /\ tiledAnalysis ip ol title w
     = (if forallb (tileOk ip step overlap) (spec_anchors H)
        then Ok (ol ++ primsFrom ip step overlap row (spec_anchors H))
                (addRows (rowsFrom ip title (cal w) step overlap row
                                   (spec_anchors H)) w)
        else Raise ZeroDivisionError
                   (addRows (rowsFrom ip title (cal w) step overlap row
                                      (scored ip step overlap (spec_anchors H))) w))
  /\ rectsOf (primsFrom ip step overlap row (spec_anchors H))
     = map (fun xy => let '(x0, y0, side) := spec_tile H xy in (x0, y0, side, side))
           (spec_anchors H)
  /\ (forall x y, tileOf ip step overlap x y
                  = let '(x0, y0, side) := spec_tile H (x, y) in
                    crop x0 y0 side side ip)
  /\ (H = 480 -> step = 20 /\ overlap = 4).
Proof.
  intros HW HH H24 step overlap row.
  split; [now apply range_spec_candidates|].
  split; [|split; [|split]].
  - rewrite tiledAnalysis_square by congruence. cbv zeta.
    rewrite HH. unfold nRows. rewrite script_overlap by lia.
    change (H / 24) with (spec_step H). fold step. fold overlap.
    unfold step, overlap. rewrite range_spec_candidates by exact H24.
    rewrite anchors_spec. reflexivity.
  - rewrite primsFrom_rects. apply map_ext. intros [x y].
    unfold spec_tile. cbn [fst snd]. fold step. fold overlap.
    now rewrite (Z.mul_comm 2 overlap).
  - intros x y. unfold tileOf, spec_tile. cbn [fst snd]. fold step. fold overlap.
    now rewrite (Z.mul_comm 2 overlap).
  - intros ->. split; reflexivity.
Qed.

(** ** Rejection of images that are not square *)

(** C7: an image whose width differs from its height leaves the results
    table and the overlay as they were and raises the error dialog;
    [run] then returns normally, so a batch goes on with its next
    image. *)
Theorem oblong_image_rejected ip ol title w :
  getWidth ip <> getHeight ip ->
  tiledAnalysis ip ol title w = Ok ol (withError "Image is not square" w)
  /\ rt (withError "Image is not square" w) = rt w
  /\ errors (withError "Image is not square" w)
     = errors w ++ ["Image is not square"%string]
  /\ forall imp maxZ actin rest w0,
       selected imp = inr (maxZ, actin) -> process actin = ip ->
       let w1 := withShown (titleOf imp maxZ) actin []
                   (withError "Image is not square"
                              (withCal (getCalibration imp) w0)) in
       run imp w0 = Ok tt w1
       /\ rt w1 = rt w0
       /\ runAll (imp :: rest) w0 = runAll rest w1.
Proof.
  intros HW. split; [now apply tiledAnalysis_oblong|].
  split; [reflexivity|]. split; [reflexivity|].
  intros imp maxZ actin rest w0 Hsel Hip w1.
  assert (Hrun : run imp w0 = Ok tt w1).
  { rewrite run_eq, Hsel, Hip, (tiledAnalysis_oblong _ _ _ _ HW). reflexivity. }
  split; [exact Hrun|]. split; [reflexivity|].
  unfold runAll. cbn [forM]. unfold bind. now rewrite Hrun.
Qed.

End Grid.

(** ** Rows and primitives over a whole run *)

Lemma between_length (a b : Z) : List.length (between a b) = Z.to_nat (b - a).
Proof. unfold between. now rewrite length_map, length_seq. Qed.

Lemma between_app (a b c : Z) :
  a <= b -> b <= c -> between a b ++ between b c = between a c.
Proof.
  intros Hab Hbc. unfold between.
  replace (Z.to_nat (c - a)) with (Z.to_nat (b - a) + Z.to_nat (c - b))%nat by lia.
  rewrite seq_app, map_app. f_equal. cbn [Nat.add].
  rewrite <- (Nat.add_0_r (Z.to_nat (b - a))) at 1.
  generalize (Z.to_nat (c - b)) as n. intros n.
  generalize 0%nat as k. induction n as [|n IH]; intros k; [reflexivity|].
  cbn [seq map]. f_equal; [lia|].
  replace (S (Z.to_nat (b - a) + k)) with (Z.to_nat (b - a) + S k)%nat by lia.
  apply IH.
Qed.


Section Batch.

Context {IJ : ImageJ}.

Lemma indexed_app (t rows : ResultsTable) :
  indexed t ->
  map Tile rows = between (Z.of_nat (List.length t))
                          (Z.of_nat (List.length t) + Z.of_nat (List.length rows)) ->
  indexed (t ++ rows).
Proof.
  unfold indexed. intros Ht Hrows. rewrite map_app, Ht, Hrows, length_app.
  rewrite Nat2Z.inj_add. apply between_app; lia.
Qed.

(** Whatever the outcome of [run], it appends rows numbered from the
    table's counter. *)
Lemma run_rows imp w :
  exists rows,
    rt (worldOf (run imp w)) = rt w ++ rows /\
    map Tile rows = between (Z.of_nat (List.length (rt w)))
                            (Z.of_nat (List.length (rt w))
                             + Z.of_nat (List.length rows)).
Proof.
  rewrite run_eq. destruct (selected imp) as [e|[maxZ actin]].
  - exists []. cbn. rewrite app_nil_r. split; [reflexivity|].
    unfold between. now rewrite Z.add_0_r, Z.sub_diag.
  - destruct (tiledAnalysis_outcome (process actin) [] (titleOf imp maxZ)
                (withCal (getCalibration imp) w)) as (tiles & Hrt & _).
    cbv zeta in Hrt. cbn [withCal rt] in Hrt.
    eexists. split.
    + destruct (tiledAnalysis _ _ _ _) as [ol w2|e w2]; cbn [worldOf] in *;
        [cbn [withShown rt]|]; exact Hrt.
    + rewrite rowsFrom_Tile, rowsFrom_length. reflexivity.
Qed.

Lemma run_indexed imp w : indexed (rt w) -> indexed (rt (worldOf (run imp w))).
Proof.
  intros Hw. destruct (run_rows imp w) as (rows & -> & Hrows).
  now apply indexed_app.
Qed.

Lemma runAll_indexed images :
  forall w, indexed (rt w) -> indexed (rt (worldOf (runAll images w))).
Proof.
  induction images as [|imp images IH]; intros w Hw; [exact Hw|].
  unfold runAll. cbn [forM]. unfold bind.
  pose proof (run_indexed imp w Hw) as Hrun.
  destruct (run imp w) as [[] w1|e w1]; cbn [worldOf] in *.
  - apply IH, Hrun.
  - exact Hrun.
Qed.

Lemma runAll_app (l1 l2 : list ImagePlus) (w : World) :
  runAll (l1 ++ l2) w = bind (runAll l1) (fun _ => runAll l2) w.
Proof.
  unfold runAll. rewrite forM_app. unfold bind.
  destruct (forM l1 _ tt w) as [[] w1|e w1]; reflexivity.
Qed.

(** [fileHandler] runs the images it finds, depth first, one after the
    other. *)
Lemma fileHandler_runAll (fil : File) :
  forall w, fileHandler fil w = runAll (imagesOf fil) w.
Proof.
  induction fil as [path images|files IH|] using File_tree_ind; intros w.
  - cbn [fileHandler imagesOf]. destruct (Py.endswith path ".lif"); reflexivity.
  - cbn [fileHandler imagesOf]. revert w.
    induction IH as [|f fs Hf Hfs IHfs]; intros w; [reflexivity|].
    cbn [flat_map]. rewrite runAll_app. unfold bind. rewrite Hf.
    destruct (runAll (imagesOf f) w) as [[] w1|e w1]; [apply IHfs|reflexivity].
  - reflexivity.
Qed.

(** C8: every image appends its rows numbered from the length the table
    has when the image is reached, so over a whole run, from the fresh
    table on, the tile index of every row is its position in the table:
    [0 .. k1 - 1] for the first image, [k1 .. k1 + k2 - 1] for the second,
    and so on, unique and increasing. *)
Theorem tileIndex_order :
  (forall imp w, exists rows,
      rt (worldOf (run imp w)) = rt w ++ rows /\
      map Tile rows = between (Z.of_nat (List.length (rt w)))
                              (Z.of_nat (List.length (rt w))
                               + Z.of_nat (List.length rows)))
  /\ (forall images w,
        map Tile (rt w) = between 0 (Z.of_nat (List.length (rt w))) ->
        let t := rt (worldOf (runAll images w)) in
        map Tile t = between 0 (Z.of_nat (List.length t)))
  /\ (forall current chosen c0,
        let t := rt (worldOf (main current chosen c0)) in
        map Tile t = between 0 (Z.of_nat (List.length t))).
Proof.
  split; [exact run_rows|]. split.
  - intros images w Hw. now apply runAll_indexed.
  - intros [imp|] chosen c0; cbv zeta; unfold main.
    + apply run_indexed. reflexivity.
    + rewrite fileHandler_runAll. apply runAll_indexed. reflexivity.
Qed.


(** C1 (amended): the fibre intensity of every recorded tile is the mean
    of the tile cropped from the band-passed image [process actin] that
    [run] hands to [tiledAnalysis], for the first tiles of its grid; when
    [run] returns, these are the tiles of the rectangles on the overlay it
    shows. *)
Theorem fibreIntensity_filtered imp w maxZ actin :
  selected imp = inr (maxZ, actin) ->
  exists (n : nat) (rows : list Row),
    let ip := process actin in
    let step := getHeight ip / nRows in
    let overlap := Z.quot step 5 in
    let tiles := map (fun xy => (fst xy - overlap, snd xy - overlap,
                                 step + overlap * 2, step + overlap * 2))
                     (firstn n (gridOf ip)) in
    rt (worldOf (run imp w)) = rt w ++ rows /\
    map FibreIntensity rows
    = map (fun t => let '(x, y, wd, ht) := t in mean (crop x y wd ht ip)) tiles /\
    forall w', run imp w = Ok tt w' ->
      exists ol, shown w' = shown w ++ [(titleOf imp maxZ, actin, ol)]
                 /\ rectsOf ol = tiles.
Proof.
  intros Hsel. rewrite run_eq, Hsel.
  destruct (tiledAnalysis_outcome (process actin) [] (titleOf imp maxZ)
              (withCal (getCalibration imp) w)) as (n & Hrt & _ & Hsh & Hol).
  cbv zeta in Hrt, Hol, Hsh. cbn [withCal rt shown] in Hrt, Hsh.
  exists n. eexists. cbv zeta.
  set (step := getHeight (process actin) / nRows) in *.
  set (overlap := Z.quot step 5) in *.
  split; [|split].
  - destruct (tiledAnalysis _ _ _ _) as [ol w2|e w2]; cbn [worldOf] in *;
      [cbn [withShown rt]|]; exact Hrt.
  - rewrite rowsFrom_FibreIntensity, map_map. apply map_ext. intros [x y].
    reflexivity.
  - intros w' Hrun.
    destruct (tiledAnalysis _ _ _ _) as [ol w2|e w2]; [|discriminate].
    injection Hrun as <-. exists ol. cbn [withShown shown worldOf] in *.
    rewrite Hsh. split; [reflexivity|].
    rewrite (Hol ol w2 eq_refl). cbn [app]. apply primsFrom_rects.
Qed.

(** ** The first tile and the last *)

Lemma firstAnchor_recorded ip ol title w xy :
  firstAnchor ip = Some xy ->
  tileOk ip (getHeight ip / nRows) (Z.quot (getHeight ip / nRows) 5) xy = true ->
  exists rows,
    rt (worldOf (tiledAnalysis ip ol title w))
    = rt w ++ rowOf ip title (cal w) (getHeight ip / nRows)
                    (Z.quot (getHeight ip / nRows) 5)
                    (Z.of_nat (List.length (rt w))) xy :: rows.
Proof.
  unfold firstAnchor. cbv zeta. intros Hfirst Hok.
  destruct (getWidth ip =? getHeight ip) eqn:HW; [|discriminate].
  apply Z.eqb_eq in HW. rewrite (tiledAnalysis_square ip ol title w HW). cbv zeta.
  destruct (Py.range _ _ _) as [e|cs]; [discriminate|].
  destruct (anchors _ _ _ cs cs) as [|xy' tiles]; [discriminate|].
  injection Hfirst as ->. cbn [forallb scored]. rewrite Hok. cbn [andb].
  destruct (forallb _ _); cbn [worldOf addRows rt rowsFrom]; eexists; reflexivity.
Qed.

Lemma firstAnchor_raises ip ol title w xy :
  firstAnchor ip = Some xy ->
  tileOk ip (getHeight ip / nRows) (Z.quot (getHeight ip / nRows) 5) xy = false ->
  tiledAnalysis ip ol title w = Raise ZeroDivisionError w.
Proof.
  unfold firstAnchor. cbv zeta. intros Hfirst Hok.
  destruct (getWidth ip =? getHeight ip) eqn:HW; [|discriminate].
  apply Z.eqb_eq in HW. rewrite (tiledAnalysis_square ip ol title w HW). cbv zeta.
  destruct (Py.range _ _ _) as [e|cs]; [discriminate|].
  destruct (anchors _ _ _ cs cs) as [|xy' tiles]; [discriminate|].
  injection Hfirst as ->. cbn [forallb scored]. rewrite Hok. cbn [andb rowsFrom].
  now rewrite addRows_nil.
Qed.

Lemma allScored_returns ip ol title w :
  allScored ip = true -> exists ol' w', tiledAnalysis ip ol title w = Ok ol' w'.
Proof.
  unfold allScored. cbv zeta. intros Hall. apply andb_true_iff in Hall.
  destruct Hall as [HW Hall]. apply Z.eqb_eq in HW.
  rewrite (tiledAnalysis_square ip ol title w HW). cbv zeta.
  destruct (Py.range _ _ _) as [e|cs]; [discriminate|].
  rewrite Hall. eexists. eexists. reflexivity.
Qed.

Lemma tiledAnalysis_tiny ip ol title w :
  getWidth ip = getHeight ip -> 0 <= getHeight ip < 24 ->
  tiledAnalysis ip ol title w = Raise ValueError w.
Proof.
  intros HW HH. rewrite (tiledAnalysis_square ip ol title w HW). cbv zeta.
  unfold nRows. rewrite (Z.div_small (getHeight ip) 24) by exact HH.
  reflexivity.
Qed.

Lemma run_tiny imp w maxZ actin :
  selected imp = inr (maxZ, actin) ->
  getWidth (process actin) = getHeight (process actin) ->
  0 <= getHeight (process actin) < 24 ->
  run imp w = Raise ValueError (withCal (getCalibration imp) w).
Proof.
  intros Hsel HW HH. rewrite run_eq, Hsel.
  now rewrite (tiledAnalysis_tiny _ _ _ _ HW HH).
Qed.

(** [run] when the first tile is recorded, and when its score division
    fails. *)
Lemma run_first_row imp w maxZ actin xy :
  selected imp = inr (maxZ, actin) ->
  firstAnchor (process actin) = Some xy ->
  tileOk (process actin) (getHeight (process actin) / nRows)
         (Z.quot (getHeight (process actin) / nRows) 5) xy = true ->
  rt w = [] ->
  exists row,
    nth_error (rt (worldOf (run imp w))) 0 = Some row /\
    FibreIntensity row
    = mean (tileOf (process actin) (getHeight (process actin) / nRows)
                   (Z.quot (getHeight (process actin) / nRows) 5)
                   (fst xy) (snd xy)).
Proof.
  intros Hsel Hfirst Hok Hw. rewrite run_eq, Hsel.
  destruct (firstAnchor_recorded (process actin) [] (titleOf imp maxZ)
              (withCal (getCalibration imp) w) xy Hfirst Hok) as (rows & Hrows).
  cbn [withCal rt cal] in Hrows. rewrite Hw in Hrows. cbn [app] in Hrows.
  eexists. split.
  - destruct (tiledAnalysis _ _ _ _) as [ol w2|e w2]; cbn [worldOf] in *;
      [cbn [withShown rt]|]; rewrite Hrows; reflexivity.
  - destruct xy as [x y]. reflexivity.
Qed.

Lemma run_first_raises imp w maxZ actin xy :
  selected imp = inr (maxZ, actin) ->
  firstAnchor (process actin) = Some xy ->
  tileOk (process actin) (getHeight (process actin) / nRows)
         (Z.quot (getHeight (process actin) / nRows) 5) xy = false ->
  run imp w = Raise ZeroDivisionError (withCal (getCalibration imp) w).
Proof.
  intros Hsel Hfirst Hok. rewrite run_eq, Hsel.
  now rewrite (firstAnchor_raises _ _ _ _ _ Hfirst Hok).
Qed.

End Batch.

(** ** Stack addressing *)

Section Stack.

Context {IJ : ImageJ}.

(** Slice 0 is clamped to slice 1: the first two rounds of the slice loop
    read the same image. *)
Lemma getStackIndex_zero imp channel frame :
  getStackIndex imp channel 0 frame = getStackIndex imp channel 1 frame.
Proof. reflexivity. Qed.

(** With two or more slices, no round of the slice loop reads the last
    slice. *)
Lemma getStackIndex_last imp channel frame (z : Z) :
  0 < getNChannels imp -> 2 <= getNSlices imp ->
  0 <= z < getNSlices imp ->
  getStackIndex imp channel z frame
  <> getStackIndex imp channel (getNSlices imp) frame.
Proof.
  intros Hc Hn Hz. unfold getStackIndex.
  set (c := if getNChannels imp <? (if channel <? 1 then 1 else channel)
            then getNChannels imp else (if channel <? 1 then 1 else channel)).
  set (f := if getNFrames imp <? (if frame <? 1 then 1 else frame)
            then getNFrames imp else (if frame <? 1 then 1 else frame)).
  destruct (z <? 1) eqn:Ez; destruct (getNSlices imp <? 1) eqn:En;
    try (apply Z.ltb_lt in En; lia); apply Z.ltb_ge in En.
  - destruct (getNSlices imp <? 1) eqn:E1; [apply Z.ltb_lt in E1; lia|].
    rewrite Z.ltb_irrefl. nia.
  - apply Z.ltb_ge in Ez.
    destruct (getNSlices imp <? z) eqn:E1; [apply Z.ltb_lt in E1; lia|].
    rewrite Z.ltb_irrefl. nia.
Qed.

End Stack.

(** ** The script on concrete images *)

Section Examples.

Import RationalImage.

(** The slice loop of [run] on [Demo.cells] settles on the first slice of
    channel 2. *)
Lemma cells_selected : selected Demo.cells = inr (0, Demo.synthetic 48 0).
Proof. vm_compute. reflexivity. Qed.

Lemma cells_slices :
  referenceSlices Demo.cells
  = [inr (Demo.synthetic 48 0); inr (Demo.synthetic 48 1)].
Proof. vm_compute. reflexivity. Qed.

Lemma cells_means :
  (mean (Demo.synthetic 48 0) < mean (Demo.synthetic 48 1))%Q.
Proof. apply lt_iff. vm_compute. reflexivity. Qed.

(** C9: on a stack whose second and last slice of channel 2 is the
    brighter one, [run] settles on the first slice: the slice loop counts
    from 0 where ImageJ counts slices from 1, so it reads slice 1 twice
    and never reads the last slice. *)
Theorem last_slice_not_examined :
  selected Demo.cells = inr (0, Demo.synthetic 48 0)
  /\ firstBrightest (referenceSlices Demo.cells) (Demo.synthetic 48 1)
  /\ ~ firstBrightest (referenceSlices Demo.cells) (Demo.synthetic 48 0).
Proof.
  pose proof cells_means as Hlt.
  split; [exact cells_selected|]. rewrite cells_slices. split.
  - exists 1%nat. split; [reflexivity|]. split.
    + intros [|[|j]] s Hs; cbn [nth_error] in Hs.
      * injection Hs as <-. now apply Qlt_le_weak.
      * injection Hs as <-. apply Qle_refl.
      * destruct j; discriminate.
    + intros [|j] s Hj Hs; [|lia]. cbn [nth_error] in Hs.
      injection Hs as <-. exact Hlt.
  - intros (i & _ & Hmax & _).
    specialize (Hmax 1%nat (Demo.synthetic 48 1) eq_refl).
    apply (Qlt_not_le _ _ Hlt Hmax).
Qed.

Lemma fibreIntensity_filtered_witness :
  selected Demo.cells = inr (0, Demo.synthetic 48 0)
  /\ exists (n : nat) (rows : list Row),
       let ip := process (Demo.synthetic 48 0) in
       let step := getHeight ip / nRows in
       let overlap := Z.quot step 5 in
       let tiles := map (fun xy => (fst xy - overlap, snd xy - overlap,
                                    step + overlap * 2, step + overlap * 2))
                        (firstn n (gridOf ip)) in
       rt (worldOf (run Demo.cells Demo.w0)) = rt Demo.w0 ++ rows /\
       map FibreIntensity rows
       = map (fun t => let '(x, y, wd, ht) := t in mean (crop x y wd ht ip)) tiles /\
       forall w', run Demo.cells Demo.w0 = Ok tt w' ->
         exists ol, shown w' = shown Demo.w0
                               ++ [(titleOf Demo.cells 0, Demo.synthetic 48 0, ol)]
                    /\ rectsOf ol = tiles.
Proof.
  split; [exact cells_selected|].
  apply (fibreIntensity_filtered (IJ:=rational) Demo.cells Demo.w0 0
           (Demo.synthetic 48 0)).
  exact cells_selected.
Defined.

(** The first tile of the band-passed slice: the score division is
    defined, and the mean of the tile is not the mean of the same tile of
    the raw slice. *)
Lemma cells_first_tile :
  let P := process (Demo.synthetic 48 0) in
  let step := getHeight P / nRows in
  let overlap := Z.quot step 5 in
  firstAnchor P = Some (0, 0)
  /\ tileOk P step overlap (0, 0) = true
  /\ tileOf P step overlap 0 0 = crop 0 0 2 2 P
  /\ Py.eq (mean (crop 0 0 2 2 P)) (mean (crop 0 0 2 2 (Demo.synthetic 48 0)))
     = false.
Proof. vm_compute. repeat split; reflexivity. Qed.

(** C1 (as stated) fails: the first row [run] records for [Demo.cells]
    holds the mean of the band-passed tile, which differs from the mean of
    the raw pixels of that tile. *)
Lemma fibreIntensity_not_raw :
  exists row,
    nth_error (rt (worldOf (run Demo.cells Demo.w0))) 0 = Some row
    /\ (FibreIntensity row
        == mean (crop 0 0 2 2 (process (Demo.synthetic 48 0))))%Q
    /\ ~ (FibreIntensity row == mean (crop 0 0 2 2 (Demo.synthetic 48 0)))%Q.
Proof.
  pose proof cells_first_tile as Hc. cbv zeta in Hc.
  destruct Hc as (Hfirst & Hok & Htile & Hne).
  destruct (run_first_row (IJ:=rational) Demo.cells Demo.w0 0 (Demo.synthetic 48 0) (0, 0)
              cells_selected Hfirst Hok eq_refl) as (row & Hrow & Hmean).
  exists row. split; [exact Hrow|]. cbn [fst snd] in Hmean.
  rewrite Htile in Hmean. rewrite Hmean. split; [reflexivity|].
  now apply eq_false_iff.
Qed.

(** A uniform slice: the band-passed image is zero everywhere, so the
    eight responses of the first tile are all zero. *)
Lemma flat_selected : selected Demo.flat = inr (0, Demo.uniform 48 48 100).
Proof. vm_compute. reflexivity. Qed.

Lemma flat_first_tile :
  let P := process (Demo.uniform 48 48 100) in
  let step := getHeight P / nRows in
  let overlap := Z.quot step 5 in
  firstAnchor P = Some (0, 0)
  /\ tileOk P step overlap (0, 0) = false
  /\ edgeDirections (tileOf P step overlap 0 0) = repeat 0%Q 8.
Proof. vm_compute. repeat split; reflexivity. Qed.

(** C3 (as stated) fails: the eight responses of the first tile of a
    uniform image are all equal, and the score division raises
    [ZeroDivisionError]; [run] does not return and records no score. *)
Lemma uniform_tile_raises :
  allEqual (edgeDirections
              (tileOf (process (Demo.uniform 48 48 100))
                      (getHeight (process (Demo.uniform 48 48 100)) / nRows)
                      (Z.quot (getHeight (process (Demo.uniform 48 48 100)) / nRows) 5)
                      0 0))
  /\ run Demo.flat Demo.w0
     = Raise ZeroDivisionError (withCal (getCalibration Demo.flat) Demo.w0)
  /\ rt (worldOf (run Demo.flat Demo.w0)) = [].
Proof.
  pose proof flat_first_tile as Hc. cbv zeta in Hc.
  destruct Hc as (Hfirst & Hok & Hresp).
  pose proof (run_first_raises (IJ:=rational) Demo.flat Demo.w0 0 (Demo.uniform 48 48 100) (0, 0)
                flat_selected Hfirst Hok) as Hrun.
  split; [|split; [exact Hrun|now rewrite Hrun]].
  rewrite Hresp. intros u v Hu Hv.
  apply repeat_spec in Hu, Hv. subst. reflexivity.
Qed.

Lemma uniform_tile_responses :
  let ip := Demo.uniform 48 48 100 in
  inBounds 48 48 2 (0, 0) = true
  /\ edgeDirections (tileOf ip 2 0 0 0) = repeat 0%Q 8.
Proof. vm_compute. split; reflexivity. Qed.

Lemma equal_responses_score_witness :
  inBounds 48 48 2 (0, 0) = true
  /\ 0 = Z.of_nat (List.length (rt Demo.w0))
  /\ (forall u, In u (edgeDirections (tileOf (Demo.uniform 48 48 100) 2 0 0 0)) ->
                (u == 0)%Q)
  /\ tileBody (Demo.uniform 48 48 100) "flat" 48 48 2 0 0 0 (0, []) Demo.w0
     = Raise ZeroDivisionError Demo.w0.
Proof.
  pose proof uniform_tile_responses as Hc. cbv zeta in Hc.
  destruct Hc as (Hb & Hresp).
  assert (Hall : forall u,
             In u (edgeDirections (tileOf (Demo.uniform 48 48 100) 2 0 0 0)) ->
             (u == 0)%Q).
  { rewrite Hresp. intros u Hu. apply repeat_spec in Hu. now subst. }
  split; [exact Hb|]. split; [reflexivity|]. split; [exact Hall|].
  apply (equal_responses_score (IJ:=rational) (Demo.uniform 48 48 100) "flat" 48 48 2 0 0 0 0 []
           Demo.w0 0 Hb eq_refl Hall).
  reflexivity.
Defined.

Lemma score_recorded_witness :
  inBounds 48 48 2 (0, 0) = true
  /\ 0 = Z.of_nat (List.length (rt Demo.w0))
  /\ exists mx mn,
       List.length (edgeDirections (tileOf (Demo.synthetic 48 0) 2 0 0 0)) = 8%nat
       /\ isMax (edgeDirections (tileOf (Demo.synthetic 48 0) 2 0 0 0)) mx
       /\ isMin (edgeDirections (tileOf (Demo.synthetic 48 0) 2 0 0 0)) mn.
Proof.
  assert (Hb : inBounds 48 48 2 (0, 0) = true) by reflexivity.
  split; [exact Hb|]. split; [reflexivity|].
  destruct (score_recorded (IJ:=rational) (Demo.synthetic 48 0) "cells" 48 48 2 0 0 0 0 []
              Demo.w0 Hb eq_refl) as (mx & mn & Hlen & Hmax & Hmin & _).
  exists mx, mn. split; [exact Hlen|]. split; [exact Hmax|exact Hmin].
Defined.

(** A 10 by 10 image. *)
Lemma small_size :
  getWidth (Demo.synthetic 10 0) = getHeight (Demo.synthetic 10 0)
  /\ getHeight (Demo.synthetic 10 0) = 10.
Proof. vm_compute. split; reflexivity. Qed.

Lemma small_selected : selected Demo.small = inr (0, Demo.synthetic 10 0).
Proof. vm_compute. reflexivity. Qed.

Lemma small_filtered_size :
  let P := process (Demo.synthetic 10 0) in
  getWidth P = getHeight P /\ getHeight P = 10.
Proof. vm_compute. split; reflexivity. Qed.

(** C6 (as stated) fails below 24 pixels: for a 10 by 10 image the step
    is 0, the specification keeps the candidate [(0, 0)], and the script
    raises [ValueError] at the first [range] without analysing a tile. *)
Lemma small_image_has_no_grid :
  spec_step 10 = 0 /\ spec_anchors 10 = [(0, 0)]
  /\ Py.range (spec_overlap 10) (10 - 1) (spec_step 10) = inl ValueError
  /\ tiledAnalysis (Demo.synthetic 10 0) [] "small" Demo.w0
     = Raise ValueError Demo.w0
  /\ run Demo.small Demo.w0
     = Raise ValueError (withCal (getCalibration Demo.small) Demo.w0).
Proof.
  destruct small_size as (HW & HH).
  pose proof small_filtered_size as Hf. cbv zeta in Hf. destruct Hf as (HWf & HHf).
  split; [reflexivity|]. split; [reflexivity|]. split; [reflexivity|]. split.
  - apply tiledAnalysis_tiny; [exact HW|]. rewrite HH. lia.
  - apply (run_tiny (IJ:=rational) Demo.small Demo.w0 0 (Demo.synthetic 10 0)
             small_selected HWf).
    rewrite HHf. lia.
Qed.

(** With an odd step the centre of a tile is rounded down: for a side of
    519 the step is 21, and the anchor 508 is kept with centre 518. *)
Lemma odd_step_centre :
  spec_step 519 = 21 /\ spec_overlap 519 = 4
  /\ In 508 (spec_candidates 519) /\ spec_kept 519 (508, 508) = true
  /\ 508 + spec_step 519 / 2 = 518.
Proof.
  split; [reflexivity|]. split; [reflexivity|]. split; [|split; reflexivity].
  apply spec_candidates_In; [lia|]. exists 24. repeat split; try reflexivity; lia.
Qed.

Lemma large_size :
  getWidth (Demo.uniform 480 480 0) = 480
  /\ getHeight (Demo.uniform 480 480 0) = 480.
Proof. split; lazy; reflexivity. Qed.

Lemma tile_grid_witness :
  getWidth (Demo.uniform 480 480 0) = 480
  /\ getHeight (Demo.uniform 480 480 0) = 480
  /\ 24 <= 480
  /\ Py.range (spec_overlap 480) (480 - 1) (spec_step 480)
     = inr (spec_candidates 480)
  /\ (480 = 480 -> spec_step 480 = 20 /\ spec_overlap 480 = 4).
Proof.
  destruct large_size as (HW & HH).
  assert (H24 : 24 <= 480) by lia.
  split; [exact HW|]. split; [exact HH|]. split; [exact H24|].
  destruct (tile_grid (IJ:=rational) (Demo.uniform 480 480 0) [] "large" Demo.w0 480 HW HH H24)
    as (Hrange & _ & _ & _ & Hsizes).
  split; [exact Hrange|exact Hsizes].
Defined.

Lemma oblong_size :
  getWidth (Demo.uniform 100 150 7) <> getHeight (Demo.uniform 100 150 7).
Proof. lazy. discriminate. Qed.

(** A 100 by 150 image handed to [tiledAnalysis]: no row, no primitive,
    one error. *)
Lemma oblong_100_by_150 :
  tiledAnalysis (Demo.uniform 100 150 7) [] "oblong" Demo.w0
  = Ok [] (mkWorld [] Demo.unit ["Image is not square"%string] []).
Proof. apply (tiledAnalysis_oblong (IJ:=rational)), oblong_size. Qed.

Lemma strip_selected : selected Demo.strip = inr (0, Demo.uniform 6 4 7).
Proof. vm_compute. reflexivity. Qed.

Lemma strip_size :
  getWidth (process (Demo.uniform 6 4 7)) <> getHeight (process (Demo.uniform 6 4 7)).
Proof. vm_compute. discriminate. Qed.

Lemma oblong_image_rejected_witness :
  getWidth (process (Demo.uniform 6 4 7)) <> getHeight (process (Demo.uniform 6 4 7))
  /\ tiledAnalysis (process (Demo.uniform 6 4 7)) [] "strip-Z0" Demo.w0
     = Ok [] (withError "Image is not square" Demo.w0)
  /\ run Demo.strip Demo.w0
     = Ok tt (withShown (titleOf Demo.strip 0) (Demo.uniform 6 4 7) []
                (withError "Image is not square"
                   (withCal (getCalibration Demo.strip) Demo.w0)))
  /\ runAll [Demo.strip; Demo.cells] Demo.w0
     = runAll [Demo.cells]
         (withShown (titleOf Demo.strip 0) (Demo.uniform 6 4 7) []
            (withError "Image is not square"
               (withCal (getCalibration Demo.strip) Demo.w0))).
Proof.
  split; [exact strip_size|].
  destruct (oblong_image_rejected (IJ:=rational)
              (process (IJ:=rational) (Demo.uniform 6 4 7)) []
              "strip-Z0" Demo.w0 strip_size) as (Hreturn & _ & _ & Hbatch).
  split; [exact Hreturn|].
  destruct (Hbatch Demo.strip 0 (Demo.uniform 6 4 7) [Demo.cells] Demo.w0
              strip_selected eq_refl) as (Hrun & _ & Hnext).
  split; [exact Hrun|exact Hnext].
Defined.

(** The raw slice taken as the image to analyse: every tile is
    scored. *)
Lemma synthetic_all_scored : allScored (Demo.synthetic 48 0) = true.
Proof. vm_compute. reflexivity. Qed.


End Examples.

(** ** The responses of the reference implementation add up to zero *)

Section Responses.

Import RationalImage.

Lemma fold_add_from (l : list Z) (a : Z) : fold_left Z.add l a = a + zsum l.
Proof.
  unfold zsum. revert a. induction l as [|x l IH]; intros a; simpl; [lia|].
  rewrite (IH (a + x)), (IH x). lia.
Qed.

Lemma zsum_cons (x : Z) (l : list Z) : zsum (x :: l) = x + zsum l.
Proof. unfold zsum. simpl. apply fold_add_from. Qed.

Lemma zsum_app (l1 l2 : list Z) : zsum (l1 ++ l2) = zsum l1 + zsum l2.
Proof.
  induction l1 as [|x l1 IH]; [reflexivity|].
  cbn [app]. rewrite !zsum_cons, IH. lia.
Qed.

Lemma zsum_map_add {A} (f g : A -> Z) (l : list A) :
  zsum (map (fun a => f a + g a) l) = zsum (map f l) + zsum (map g l).
Proof.
  induction l as [|a l IH]; [reflexivity|].
  cbn [map]. rewrite !zsum_cons, IH. lia.
Qed.

Lemma zsum_map_zero {A} (l : list A) : zsum (map (fun _ => 0) l) = 0.
Proof. induction l as [|a l IH]; [reflexivity|]. cbn [map]. now rewrite zsum_cons, IH. Qed.

(** Sums over kernels and over pixels can be exchanged. *)
Lemma zsum_exchange {A B} (G : A -> B -> Z) (ks : list A) (ps : list B) :
  zsum (map (fun k => zsum (map (G k) ps)) ks)
  = zsum (map (fun p => zsum (map (fun k => G k p) ks)) ps).
Proof.
  induction ks as [|k ks IH].
  - cbn [map]. now rewrite zsum_map_zero.
  - cbn [map]. rewrite zsum_cons, IH, <- zsum_map_add.
    f_equal. apply map_ext. intros p. now rewrite zsum_cons.
Qed.

(** A 3 by 3 convolution written out. *)
Lemma convolveAt_3x3 (k0 k1 k2 k3 k4 k5 k6 k7 k8 : Z) (img : image) (x y : Z) :
  convolveAt [k0; k1; k2; k3; k4; k5; k6; k7; k8] 3 3 img x y
  = 0 + k0 * pixel img (x + 0 - 1) (y + 0 - 1)
      + k1 * pixel img (x + 1 - 1) (y + 0 - 1)
      + k2 * pixel img (x + 2 - 1) (y + 0 - 1)
      + k3 * pixel img (x + 0 - 1) (y + 1 - 1)
      + k4 * pixel img (x + 1 - 1) (y + 1 - 1)
      + k5 * pixel img (x + 2 - 1) (y + 1 - 1)
      + k6 * pixel img (x + 0 - 1) (y + 2 - 1)
      + k7 * pixel img (x + 1 - 1) (y + 2 - 1)
      + k8 * pixel img (x + 2 - 1) (y + 2 - 1).
Proof. reflexivity. Qed.

(** At every pixel the eight convolutions cancel. *)
Lemma kernels_cancel (img : image) (x y : Z) :
  zsum (map (fun k => 1 * convolveAt k 3 3 img x y) dirKernels) = 0.
Proof.
  unfold dirKernels. cbn [map]. rewrite !convolveAt_3x3.
  unfold zsum. cbn [fold_left].
  repeat match goal with
         | |- context [pixel img ?a ?b] =>
             let p := fresh "p" in
             set (p := pixel img a b); clearbody p
         end.
  lia.
Qed.

Lemma concat_grid {A} (F : Z -> Z -> A) (xs ys : list Z) :
  List.concat (map (fun y => map (fun x => F x y) xs) ys)
  = map (fun p => F (fst p) (snd p))
        (List.concat (map (fun y => map (fun x => (x, y)) xs) ys)).
Proof.
  induction ys as [|y ys IH]; [reflexivity|].
  cbn [map List.concat]. rewrite map_app, map_map, IH. reflexivity.
Qed.

(** The mean of a convolution with a kernel whose weights add up to zero. *)
Lemma average_conv (k : list Z) (img : image) :
  fold_left Z.add k 0 = 0 ->
  average (conv k 3 3 img)
  = match positions img with
    | [] => 0%Q
    | _ => Qred (zsum (map (fun p => 1 * convolveAt k 3 3 img (fst p) (snd p))
                           (positions img))
                 # (Pos.of_nat (List.length (positions img)) * (den img * 1)))
    end.
Proof.
  intros Hk. unfold average, conv. rewrite Hk. cbn [Z.eqb Z.ltb Z.compare rows den].
  rewrite (concat_grid (fun x y => 1 * convolveAt k 3 3 img x y)).
  fold (positions img). destruct (positions img) as [|p ps]; [reflexivity|].
  cbn [map]. rewrite <- (map_cons (fun p => 1 * convolveAt k 3 3 img (fst p) (snd p))).
  now rewrite length_map.
Qed.

Lemma Qplus_from (l : list Q) (a : Q) : (fold_left Qplus l a == a + Py.sum l)%Q.
Proof.
  unfold Py.sum. revert a. induction l as [|x l IH]; intros a; simpl; [ring|].
  rewrite (IH (a + x)%Q), (IH (0 + x)%Q). ring.
Qed.

Lemma sum_cons (x : Q) (l : list Q) : (Py.sum (x :: l) == x + Py.sum l)%Q.
Proof. unfold Py.sum at 1. simpl. rewrite Qplus_from. ring. Qed.

Lemma Qplus_same_den (a b : Z) (d : positive) :
  ((a # d) + (b # d) == ((a + b) # d))%Q.
Proof. unfold Qeq, Qplus. simpl. rewrite Pos2Z.inj_mul. ring. Qed.

Lemma sum_same_den {A} (S : A -> Z) (d : positive) (ks : list A) :
  (Py.sum (map (fun k => Qred (S k # d)) ks) == (zsum (map S ks) # d))%Q.
Proof.
  induction ks as [|k ks IH]; [reflexivity|].
  cbn [map]. rewrite sum_cons, zsum_cons, IH, Qred_correct.
  apply Qplus_same_den.
Qed.

Lemma sum_zeros {A} (ks : list A) : (Py.sum (map (fun _ => 0%Q) ks) == 0)%Q.
Proof.
  induction ks as [|k ks IH]; [reflexivity|].
  cbn [map]. rewrite sum_cons, IH. ring.
Qed.

(** The eight directional responses of any image add up to zero: the
    kernels add up to the zero kernel, and convolution and mean are
    linear. *)
Lemma responses_sum_zero (img : image) : (Py.sum (edgeDirections img) == 0)%Q.
Proof.
  assert (Hk : Forall (fun k => fold_left Z.add k 0 = 0) dirKernels)
    by (repeat constructor).
  unfold edgeDirections. cbn [mean convolve rational].
  rewrite (map_ext_in _
             (fun k => match positions img with
                       | [] => 0%Q
                       | _ => Qred (zsum (map (fun p => 1 * convolveAt k 3 3 img
                                                             (fst p) (snd p))
                                              (positions img))
                                    # (Pos.of_nat (List.length (positions img))
                                       * (den img * 1)))
                       end)).
  - destruct (positions img) as [|p ps] eqn:Hp; [apply sum_zeros|].
    rewrite <- Hp.
    rewrite (sum_same_den
               (fun k => zsum (map (fun p => 1 * convolveAt k 3 3 img (fst p) (snd p))
                                   (positions img)))).
    rewrite (zsum_exchange (fun k p => 1 * convolveAt k 3 3 img (fst p) (snd p))).
    rewrite (map_ext _ (fun _ => 0)) by (intros q; apply kernels_cancel).
    rewrite zsum_map_zero. reflexivity.
  - intros k Hin. rewrite Forall_forall in Hk. now apply average_conv, Hk.
Qed.

Lemma sum_nonneg (l : list Q) :
  (forall v, In v l -> (0 <= v)%Q) -> (0 <= Py.sum l)%Q.
Proof.
  induction l as [|x l IH]; intros Hl; [apply Qle_refl|].
  rewrite sum_cons.
  assert (Hx : (0 <= x)%Q) by (apply Hl; now left).
  assert (Hrest : (0 <= Py.sum l)%Q)
    by (apply IH; intros v Hv; apply Hl; now right).
  Lqa.lra.
Qed.

Lemma nonneg_sum_zero (l : list Q) :
  (forall v, In v l -> (0 <= v)%Q) -> (Py.sum l == 0)%Q ->
  forall v, In v l -> (v == 0)%Q.
Proof.
  induction l as [|x l IH]; intros Hl Hsum v Hv; [destruct Hv|].
  rewrite sum_cons in Hsum.
  assert (Hx : (0 <= x)%Q) by (apply Hl; now left).
  assert (Hrest : (0 <= Py.sum l)%Q)
    by (apply sum_nonneg; intros u Hu; apply Hl; now right).
  assert (Hx0 : (x == 0)%Q) by (apply Qle_antisym; [|exact Hx]; Lqa.lra).
  destruct Hv as [<-|Hv]; [exact Hx0|].
  apply IH; [intros u Hu; apply Hl; now right| |exact Hv].
  rewrite Hx0 in Hsum. Lqa.lra.
Qed.

(** In the reference implementation the score division fails only for
    tiles whose eight responses are all equal, and then they are all
    zero. *)
Theorem unequal_responses_scored (ip : image) (step overlap : Z) (xy : Z * Z) :
  tileOk ip step overlap xy = false ->
  forall v, In v (edgeDirections (tileOf ip step overlap (fst xy) (snd xy))) ->
            (v == 0)%Q.
Proof.
  unfold tileOk. set (e := edgeDirections _). intros Hden.
  apply negb_false_iff, eq_iff in Hden.
  assert (He : e <> []) by apply edgeDirections_nonempty.
  destruct (edgeMinOf_spec e He) as (_ & Hmin).
  assert (Hzero : (Py.sum e == 0)%Q) by apply responses_sum_zero.
  assert (Hm : (edgeMinOf e == 0)%Q) by (rewrite Hzero in Hden; Lqa.lra).
  apply nonneg_sum_zero; [|exact Hzero].
  intros u Hu. rewrite <- Hm. now apply Hmin.
Qed.

(** In the reference implementation the score division is defined for
    every tile whose eight responses are not all equal. *)
Corollary unequal_responses_division (ip : image) (step overlap : Z) (xy : Z * Z) :
  ~ allEqual (edgeDirections (tileOf ip step overlap (fst xy) (snd xy))) ->
  tileOk ip step overlap xy = true.
Proof.
  intros Hne. destruct (tileOk (IJ:=rational) ip step overlap xy) eqn:Hok;
    [reflexivity|].
  exfalso. apply Hne. intros u v Hu Hv.
  rewrite (unequal_responses_scored ip step overlap xy Hok u Hu).
  now rewrite (unequal_responses_scored ip step overlap xy Hok v Hv).
Qed.

(** In the reference implementation every tile that passes the boundary
    check and whose eight responses are not all equal is recorded, with
    the score [((max - min) / (sum - min)) * 8]. *)
Corollary unequal_responses_recorded (ip : image) title W H step overlap x y row ol
    (w : World) :
  inBounds W H step (x, y) = true ->
  row = Z.of_nat (List.length (rt w)) ->
  ~ allEqual (edgeDirections (tileOf ip step overlap x y)) ->
  tileBody ip title W H step overlap y x (row, ol) w
  = Ok (row + 1, ol ++ primsOf ip step overlap row (x, y))
       (addRows [rowOf ip title (cal w) step overlap row (x, y)] w)
  /\ StressFibreScore (rowOf ip title (cal w) step overlap row (x, y))
     = scoreOf (edgeDirections (tileOf ip step overlap x y)).
Proof.
  intros Hb Hrow Hne. split; [|reflexivity].
  rewrite (tileBody_in (IJ:=rational) ip title W H step overlap x y row ol w Hb Hrow).
  now rewrite (unequal_responses_division ip step overlap (x, y) Hne).
Qed.

End Responses.

(** * Further properties of the script *)

(** ** The fold of angles *)

(** X1: An angle within two turns of zero is folded into the closed half turn
    from 0 to pi, and folding again changes nothing. *)
Theorem normAngle_fold (theta : R) :
  (- (2 * PI) <= theta <= 2 * PI)%R ->
  (0 <= normAngle theta <= PI)%R
  /\ normAngle (normAngle theta) = normAngle theta.
Proof.
  intros Ht. pose proof PI_RGT_0 as Hpi.
  assert (Hr : (0 <= normAngle theta <= PI)%R).
  { unfold normAngle. destruct (Rlt_dec theta 0); destruct (Rgt_dec _ PI); lra. }
  split; [exact Hr|].
  unfold normAngle at 1.
  destruct (Rlt_dec (normAngle theta) 0); [lra|].
  destruct (Rgt_dec (normAngle theta) PI); [lra|reflexivity].
Qed.

Lemma normAngle_fold_witness :
  (- (2 * PI) <= - (PI / 2) <= 2 * PI)%R
  /\ (0 <= normAngle (- (PI / 2)) <= PI)%R
  /\ normAngle (normAngle (- (PI / 2))) = normAngle (- (PI / 2)).
Proof.
  assert (Ht : (- (2 * PI) <= - (PI / 2) <= 2 * PI)%R)
    by (pose proof PI_RGT_0; lra).
  split; [exact Ht|]. exact (normAngle_fold _ Ht).
Defined.

(** X2: The fold moves an angle by a whole number of half turns, between one
    back and two forward, so the folded angle is the same line through
    the origin; an angle of more than two turns stays above pi, since
    there is one fold only. *)
Theorem normAngle_half_turns (theta : R) :
  (exists k : Z, -1 <= k <= 2 /\ normAngle theta = (theta + IZR k * PI)%R)
  /\ ((2 * PI < theta)%R -> (PI < normAngle theta)%R).
Proof.
  pose proof PI_RGT_0 as Hpi. unfold normAngle. split.
  - destruct (Rlt_dec theta 0); destruct (Rgt_dec _ PI).
    + exists 1. split; [lia|]. lra.
    + exists 2. split; [lia|]. lra.
    + exists (-1). split; [lia|]. lra.
    + exists 0. split; [lia|]. lra.
  - intros Ht. destruct (Rlt_dec theta 0); [lra|].
    destruct (Rgt_dec theta PI); lra.
Qed.

Lemma normAngle_half_turns_witness :
  (2 * PI < 9 * (PI / 4))%R /\ (PI < normAngle (9 * (PI / 4)))%R.
Proof.
  assert (Ht : (2 * PI < 9 * (PI / 4))%R) by (pose proof PI_RGT_0; lra).
  split; [exact Ht|]. exact (proj2 (normAngle_half_turns _) Ht).
Defined.

Section Directions.

Context {IJ : ImageJ}.

Lemma rowsFrom_direction ip title c step overlap row tiles :
  Forall (fun r => exists k : Z, 1 <= k <= 5
                   /\ PrincipalDirection r = (IZR k * (PI / 4))%R)
         (rowsFrom ip title c step overlap row tiles).
Proof.
  revert row. induction tiles as [|xy t IH]; intros row; constructor; [|apply IH].
  destruct (rowOf_direction ip title c step overlap row xy) as (maxi & Hm & ->).
  pose proof principalDirection_table as Ht. cbn [seq map] in Ht.
  assert (Hc : (maxi = 0 \/ maxi = 1 \/ maxi = 2 \/ maxi = 3 \/ maxi = 4
                \/ maxi = 5 \/ maxi = 6 \/ maxi = 7)%nat) by lia.
  injection Ht as H0 H1 H2 H3 H4 H5 H6 H7.
  destruct Hc as [->|[->|[->|[->|[->|[->|[->| ->]]]]]]].
  - exists 2. split; [lia|exact H0].
  - exists 3. split; [lia|exact H1].
  - exists 4. split; [lia|exact H2].
  - exists 1. split; [lia|exact H3].
  - exists 2. split; [lia|exact H4].
  - exists 3. split; [lia|exact H5].
  - exists 4. split; [lia|exact H6].
  - exists 5. split; [lia|exact H7].
Qed.

(** X3: Every row [tiledAnalysis] appends holds one of five directions: a
    quarter, a half, three quarters, one or five quarters of pi. *)
Theorem recorded_directions ip ol title w :
  exists rows,
    rt (worldOf (tiledAnalysis ip ol title w)) = rt w ++ rows
    /\ Forall (fun r => exists k : Z, 1 <= k <= 5
                        /\ PrincipalDirection r = (IZR k * (PI / 4))%R) rows.
Proof.
  destruct (tiledAnalysis_outcome ip ol title w) as (n & Hrt & _).
  cbv zeta in Hrt. eexists. split; [exact Hrt|]. apply rowsFrom_direction.
Qed.

End Directions.

(** ** The range of the score *)

Lemma sum_ge_each (l : list Q) :
  (forall v, In v l -> (0 <= v)%Q) -> forall v, In v l -> (v <= Py.sum l)%Q.
Proof.
  induction l as [|x l IH]; intros Hl v Hv; [destruct Hv|].
  rewrite sum_cons.
  assert (Hx : (0 <= x)%Q) by (apply Hl; now left).
  assert (Hrest : (0 <= Py.sum l)%Q)
    by (apply sum_nonneg; intros u Hu; apply Hl; now right).
  destruct Hv as [<-|Hv]; [Lqa.lra|].
  assert (Hle : (v <= Py.sum l)%Q)
    by (apply IH; [intros u Hu; apply Hl; now right|exact Hv]).
  Lqa.lra.
Qed.

Lemma sum_between (l : list Q) (a b : Q) :
  (forall v, In v l -> (a <= v <= b)%Q) ->
  (inject_Z (Z.of_nat (List.length l)) * a <= Py.sum l
   <= inject_Z (Z.of_nat (List.length l)) * b)%Q.
Proof.
  induction l as [|x l IH]; intros Hl.
  - cbn [List.length]. change (inject_Z (Z.of_nat 0)) with 0%Q.
    change (Py.sum []) with 0%Q. split; Lqa.lra.
  - rewrite sum_cons. cbn [List.length]. rewrite Nat2Z.inj_succ.
    unfold Z.succ. rewrite inject_Z_plus.
    assert (Hx : (a <= x <= b)%Q) by (apply Hl; now left).
    assert (Hrest := IH (fun v Hv => Hl v (or_intror Hv))).
    set (n := inject_Z (Z.of_nat (List.length l))) in *.
    change (inject_Z 1) with 1%Q.
    split; Lqa.lra.
Qed.

(** A ratio of a part to a positive whole, times eight. *)
Lemma ratio_bounds (n d : Q) :
  (0 <= n)%Q -> (n <= d)%Q -> (0 < d)%Q -> (0 <= n / d * 8 <= 8)%Q.
Proof.
  intros Hn Hnd Hd.
  assert (H0 : (0 <= n / d)%Q) by (apply Qle_shift_div_l; [exact Hd|Lqa.lra]).
  assert (H1 : (n / d <= 1)%Q) by (apply Qle_shift_div_r; [exact Hd|Lqa.lra]).
  split; Lqa.lra.
Qed.

Lemma ratio_above (n d : Q) :
  (0 < d)%Q -> (d <= n)%Q -> (8 <= n / d * 8)%Q.
Proof.
  intros Hd Hn.
  assert (H1 : (1 <= n / d)%Q) by (apply Qle_shift_div_l; [exact Hd|Lqa.lra]).
  Lqa.lra.
Qed.

Lemma ratio_eight (n d a b : Q) :
  (0 < d)%Q -> ((n == d)%Q <-> (a == b)%Q) ->
  ((n / d * 8 == 8)%Q <-> (a == b)%Q).
Proof.
  intros Hd Hiff. rewrite <- Hiff. split.
  - intros H8.
    assert (H1 : (n / d == 1)%Q) by Lqa.lra.
    assert (Hn : (n == n / d * d)%Q) by (field; Lqa.lra).
    rewrite Hn, H1. ring.
  - intros ->. field. Lqa.lra.
Qed.

Section Scores.

Context {IJ : ImageJ}.

(** A tile that passes the boundary check is recorded exactly when
    [tileBody] returns. *)
Lemma tileBody_returns ip title W H step overlap x y row ol w st' w' :
  inBounds W H step (x, y) = true ->
  row = Z.of_nat (List.length (rt w)) ->
  tileBody ip title W H step overlap y x (row, ol) w = Ok st' w' ->
  tileOk ip step overlap (x, y) = true
  /\ st' = (row + 1, ol ++ primsOf ip step overlap row (x, y))
  /\ w' = addRows [rowOf ip title (cal w) step overlap row (x, y)] w.
Proof.
  intros Hb Hrow. rewrite (tileBody_in _ _ _ _ _ _ _ _ _ _ _ Hb Hrow).
  destruct (tileOk ip step overlap (x, y)); [|discriminate].
  intros Heq. injection Heq as <- <-. repeat split.
Qed.

(** X4: When no directional response of a tile is negative, as for unsigned
    pixels, and one of them is not zero, the tile is recorded with a
    score from 0 to 8, and the score is 8 exactly when the largest
    response is the sum of all eight, that is when no other direction
    responds. *)
Theorem nonnegative_responses_score ip title W H step overlap x y row ol w :
  inBounds W H step (x, y) = true ->
  row = Z.of_nat (List.length (rt w)) ->
  (forall u, In u (edgeDirections (tileOf ip step overlap x y)) -> (0 <= u)%Q) ->
  (exists u, In u (edgeDirections (tileOf ip step overlap x y)) /\ ~ (u == 0)%Q) ->
  exists r ol' mx,
    tileBody ip title W H step overlap y x (row, ol) w
    = Ok (row + 1, ol') (addRows [r] w)
    /\ (0 <= StressFibreScore r <= 8)%Q
    /\ isMax (edgeDirections (tileOf ip step overlap x y)) mx
    /\ ((StressFibreScore r == 8)%Q
        <-> (Py.sum (edgeDirections (tileOf ip step overlap x y)) == mx)%Q).
Proof.
  intros Hb Hrow Hpos (u0 & Hu0 & Hne).
  rewrite (tileBody_in _ _ _ _ _ _ _ _ _ _ _ Hb Hrow).
  unfold tileOk. cbn [fst snd].
  set (e := edgeDirections (tileOf ip step overlap x y)) in *.
  assert (He : e <> []) by apply edgeDirections_nonempty.
  destruct (edgeMaxOf_spec e He) as (Hmaxin & Hmax).
  destruct (edgeMinOf_spec e He) as (Hminin & Hmin).
  assert (Hlen : List.length e = 8%nat) by apply edgeDirections_length.
  assert (Hmn0 : (0 <= edgeMinOf e)%Q) by now apply Hpos.
  assert (Hmx : (edgeMaxOf e <= Py.sum e)%Q) by now apply sum_ge_each.
  assert (Hu : (u0 <= Py.sum e)%Q) by now apply sum_ge_each.
  assert (Hu' : (0 < u0)%Q).
  { specialize (Hpos u0 Hu0). apply Qle_lteq in Hpos.
    destruct Hpos as [Hlt|Heq]; [exact Hlt|]. exfalso. apply Hne. now symmetry. }
  assert (Hsum : (8 * edgeMinOf e <= Py.sum e)%Q).
  { destruct (sum_between e (edgeMinOf e) (edgeMaxOf e)) as (Hlo & _).
    - intros v Hv. split; [now apply Hmin|now apply Hmax].
    - rewrite Hlen in Hlo. exact Hlo. }
  assert (Hmm : (edgeMinOf e <= edgeMaxOf e)%Q) by now apply Hmax.
  assert (Hden : (0 < Py.sum e - edgeMinOf e)%Q) by Lqa.lra.
  replace (Py.eq (Py.sum e - edgeMinOf e) 0) with false
    by (symmetry; apply eq_false_iff; Lqa.lra).
  cbn [negb]. eexists. eexists. exists (edgeMaxOf e). split; [reflexivity|].
  cbn [rowOf StressFibreScore]. fold e. unfold scoreOf.
  split; [apply ratio_bounds; Lqa.lra|]. split; [now split|].
  apply ratio_eight; [exact Hden|].
  set (mx := edgeMaxOf e) in *. set (mn := edgeMinOf e) in *.
  set (s := Py.sum e) in *. clearbody mx mn s.
  split; intros Heq; Lqa.lra.
Qed.

(** X5: When the eight responses of a tile add up to zero, as they do in
    exact signed arithmetic, and one of them is not zero, the tile is
    recorded with a score of 8 or more, and the arrow drawn for it has
    the end colour of the scale. *)
Theorem zero_sum_responses_score ip title W H step overlap x y row ol w :
  inBounds W H step (x, y) = true ->
  row = Z.of_nat (List.length (rt w)) ->
  (Py.sum (edgeDirections (tileOf ip step overlap x y)) == 0)%Q ->
  (exists u, In u (edgeDirections (tileOf ip step overlap x y)) /\ ~ (u == 0)%Q) ->
  exists r rect x1 y1 x2 y2 label,
    tileBody ip title W H step overlap y x (row, ol) w
    = Ok (row + 1,
          ol ++ [rect;
                 ArrowRoi x1 y1 x2 y2 OPEN true 4 4 (0, 1, 1 # 2, 1)%Q;
                 label])
         (addRows [r] w)
    /\ (8 <= StressFibreScore r)%Q.
Proof.
  intros Hb Hrow Hzero (u0 & Hu0 & Hne).
  rewrite (tileBody_in _ _ _ _ _ _ _ _ _ _ _ Hb Hrow).
  unfold tileOk, primsOf, arrowColour. cbn [fst snd].
  set (e := edgeDirections (tileOf ip step overlap x y)) in *.
  assert (He : e <> []) by apply edgeDirections_nonempty.
  destruct (edgeMaxOf_spec e He) as (Hmaxin & Hmax).
  destruct (edgeMinOf_spec e He) as (Hminin & Hmin).
  assert (Hlen : List.length e = 8%nat) by apply edgeDirections_length.
  destruct (sum_between e (edgeMinOf e) (edgeMaxOf e)) as (Hlo & Hhi).
  { intros v Hv. split; [now apply Hmin|now apply Hmax]. }
  rewrite Hlen in Hlo, Hhi.
  change (inject_Z (Z.of_nat 8)) with 8%Q in Hlo, Hhi.
  assert (Hmn : (edgeMinOf e < 0)%Q).
  { apply Qnot_le_lt. intros Hge. apply Hne.
    apply (nonneg_sum_zero e); [|exact Hzero|exact Hu0].
    intros v Hv. apply Qle_trans with (edgeMinOf e); [exact Hge|now apply Hmin]. }
  assert (Hscore : (8 <= scoreOf e)%Q).
  { unfold scoreOf. apply ratio_above; Lqa.lra. }
  replace (Py.eq (Py.sum e - edgeMinOf e) 0) with false
    by (symmetry; apply eq_false_iff; Lqa.lra).
  cbn [negb].
  assert (Hf : Py.max2 0 (Py.min2 (scoreOf e) 1) = 1%Q).
  { unfold Py.min2. replace (Py.lt 1 (scoreOf e)) with true
      by (symmetry; apply lt_iff; Lqa.lra).
    reflexivity. }
  rewrite Hf.
  do 7 eexists. split; [reflexivity|]. exact Hscore.
Qed.

(** X6: The colour of the arrow of a recorded tile is [Color(1 - f, f, f / 2)]
    for the score clipped to the range from 0 to 1, so every component is
    a valid colour value; the arrow has open heads at both ends. *)
Theorem arrow_colour ip title W H step overlap x y row ol w st' w' :
  inBounds W H step (x, y) = true ->
  row = Z.of_nat (List.length (rt w)) ->
  tileBody ip title W H step overlap y x (row, ol) w = Ok st' w' ->
  exists r rect x1 y1 x2 y2 label f,
    rt w' = rt w ++ [r]
    /\ snd st' = ol ++ [rect;
                        ArrowRoi x1 y1 x2 y2 OPEN true 4 4 (1 - f, f, f / 2, 1)%Q;
                        label]
    /\ (0 <= f <= 1)%Q
    /\ (0 <= 1 - f <= 1)%Q /\ (0 <= f / 2 <= 1)%Q
    /\ ((StressFibreScore r <= 0)%Q -> (f == 0)%Q)
    /\ ((1 <= StressFibreScore r)%Q -> (f == 1)%Q)
    /\ ((0 <= StressFibreScore r <= 1)%Q -> (f == StressFibreScore r)%Q).
Proof.
  intros Hb Hrow Hok.
  destruct (tileBody_returns _ _ _ _ _ _ _ _ _ _ _ _ _ Hb Hrow Hok) as (_ & -> & ->).
  unfold primsOf, arrowColour. cbn [snd addRows rt rowOf StressFibreScore].
  set (s := scoreOf _). clearbody s.
  do 7 eexists. exists (Py.max2 0 (Py.min2 s 1)).
  split; [reflexivity|]. split; [reflexivity|].
  assert (Hf : ((0 <= Py.max2 0 (Py.min2 s 1) <= 1)
                /\ (s <= 0 -> Py.max2 0 (Py.min2 s 1) == 0)
                /\ (1 <= s -> Py.max2 0 (Py.min2 s 1) == 1)
                /\ (0 <= s <= 1 -> Py.max2 0 (Py.min2 s 1) == s))%Q).
  { unfold Py.max2, Py.min2.
    destruct (Py.lt 1 s) eqn:E1.
    - apply lt_iff in E1. change (Py.lt 0 1) with true. cbv iota.
      split; [split; Lqa.lra|].
      split; [intros; Lqa.lra|]. split; intros; Lqa.lra.
    - apply lt_false_iff in E1. destruct (Py.lt 0 s) eqn:E0.
      + apply lt_iff in E0.
        split; [split; Lqa.lra|].
        split; [intros; Lqa.lra|]. split; intros; Lqa.lra.
      + apply lt_false_iff in E0.
        split; [split; Lqa.lra|].
        split; [intros; Lqa.lra|]. split; intros; Lqa.lra. }
  set (f := Py.max2 0 (Py.min2 s 1)) in *. clearbody f.
  destruct Hf as (Hf & H0 & H1 & Hs).
  split; [exact Hf|].
  split; [split; Lqa.lra|].
  split; [|split; [exact H0|split; [exact H1|exact Hs]]].
  assert (Hh : (f / 2 == f * (1 # 2))%Q) by reflexivity.
  rewrite Hh. split; Lqa.lra.
Qed.

(** X7: The arrow of a recorded tile is centred on the centre of the tile, it
    runs along the recorded direction, with the image's y axis pointing
    down, and it is 40 pixels long. *)
Theorem arrow_geometry ip title W H step overlap x y row ol w st' w' :
  inBounds W H step (x, y) = true ->
  row = Z.of_nat (List.length (rt w)) ->
  tileBody ip title W H step overlap y x (row, ol) w = Ok st' w' ->
  exists r rect x1 y1 x2 y2 style both width head colour label,
    rt w' = rt w ++ [r]
    /\ snd st' = ol ++ [rect; ArrowRoi x1 y1 x2 y2 style both width head colour;
                        label]
    /\ ((x1 + x2) / 2 = IZR (x + step / 2))%R
    /\ ((y1 + y2) / 2 = IZR (y + step / 2))%R
    /\ (x2 - x1 = 40 * cos (PrincipalDirection r))%R
    /\ (y1 - y2 = 40 * sin (PrincipalDirection r))%R
    /\ ((x2 - x1) * (x2 - x1) + (y2 - y1) * (y2 - y1) = 40 * 40)%R.
Proof.
  intros Hb Hrow Hok.
  destruct (tileBody_returns _ _ _ _ _ _ _ _ _ _ _ _ _ Hb Hrow Hok) as (_ & -> & ->).
  exists (rowOf ip title (cal w) step overlap row (x, y)).
  unfold primsOf. cbn [snd addRows rt rowOf PrincipalDirection].
  set (theta := thetaOf _).
  pose proof (sin2_cos2 theta) as Hsc. unfold Rsqr in Hsc.
  set (c := cos theta) in *. set (s := sin theta) in *. clearbody c s.
  set (ox := IZR (x + step / 2)). set (oy := IZR (y + step / 2)). clearbody ox oy.
  do 11 eexists. split; [reflexivity|]. split; [reflexivity|].
  split; [lra|]. split; [lra|]. split; [lra|]. split; [lra|].
  replace ((ox + c * 20 - (ox - c * 20)) * (ox + c * 20 - (ox - c * 20))
           + (oy - s * 20 - (oy + s * 20)) * (oy - s * 20 - (oy + s * 20)))%R
    with (1600 * (s * s + c * c))%R by ring.
  rewrite Hsc. ring.
Qed.

(** X8: The recorded direction of a tile belongs to the first kernel of
    [dirKernels] whose response no other kernel exceeds: with equal
    largest responses the earlier kernel decides. *)
Theorem direction_of_first_maximum ip title W H step overlap x y row ol w st' w' :
  inBounds W H step (x, y) = true ->
  row = Z.of_nat (List.length (rt w)) ->
  tileBody ip title W H step overlap y x (row, ol) w = Ok st' w' ->
  let response := fun k => mean (convolve k 3 3 (tileOf ip step overlap x y)) in
  exists r i k,
    rt w' = rt w ++ [r]
    /\ nth_error dirKernels i = Some k
    /\ (forall k', In k' dirKernels -> (response k' <= response k)%Q)
    /\ (forall j k', (j < i)%nat -> nth_error dirKernels j = Some k' ->
                     (response k' < response k)%Q)
    /\ PrincipalDirection r = normAngle (rawAngle i 8).
Proof.
  intros Hb Hrow Hok response.
  destruct (tileBody_returns _ _ _ _ _ _ _ _ _ _ _ _ _ Hb Hrow Hok) as (_ & -> & ->).
  cbn [addRows rt rowOf PrincipalDirection]. unfold thetaOf.
  set (e := edgeDirections (tileOf ip step overlap x y)).
  assert (He : e <> []) by apply edgeDirections_nonempty.
  destruct (edgeMaxOf_spec e He) as (Hmaxin & Hmax).
  destruct (index_In e (edgeMaxOf e) Hmaxin) as (i & Hi & Hlt & (u & Hu & Huv) & Hfirst).
  assert (Hmaxi : maxiOf e = i) by (unfold maxiOf; now rewrite Hi).
  assert (Hnth : forall j, nth_error e j = option_map response (nth_error dirKernels j))
    by (intros j; apply nth_error_map).
  rewrite Hnth in Hu.
  destruct (nth_error dirKernels i) as [k|] eqn:Hk; [|discriminate].
  cbn [option_map] in Hu. injection Hu as <-.
  eexists. exists i, k. split; [reflexivity|]. split; [exact Hk|].
  split; [|split].
  - intros k' Hk'. rewrite Huv. apply Hmax. unfold e, edgeDirections.
    apply in_map_iff. exists k'. split; [reflexivity|exact Hk'].
  - intros j k' Hj Hk'. rewrite Huv.
    assert (Hej : nth_error e j = Some (response k')) by (rewrite Hnth, Hk'; reflexivity).
    pose proof (Hmax _ (nth_error_In _ _ Hej)) as Hle.
    apply Qle_lteq in Hle. destruct Hle as [Hlt'|Heq]; [exact Hlt'|].
    exfalso. exact (Hfirst j _ Hj Hej Heq).
  - rewrite Hmaxi. reflexivity.
Qed.

End Scores.

(** ** Responses on another scale *)

Section Scale.

Variable c : Q.
Hypothesis c_positive : (0 < c)%Q.

Lemma lt_scaled (a1 a2 b1 b2 : Q) :
  scaled c a1 a2 -> scaled c b1 b2 -> Py.lt a2 b2 = Py.lt a1 b1.
Proof.
  unfold scaled. intros Ha Hb.
  destruct (Py.lt a1 b1) eqn:E.
  - apply lt_iff in E. apply lt_iff. rewrite Ha, Hb. now apply Qmult_lt_l.
  - apply lt_false_iff in E. apply lt_false_iff. rewrite Ha, Hb. now apply Qmult_le_l.
Qed.

Lemma eq_scaled (a1 a2 b1 b2 : Q) :
  scaled c a1 a2 -> scaled c b1 b2 -> Py.eq a2 b2 = Py.eq a1 b1.
Proof.
  unfold scaled. intros Ha Hb.
  assert (Hc : ~ (c == 0)%Q) by (intros H0; rewrite H0 in c_positive; discriminate).
  destruct (Py.eq a1 b1) eqn:E.
  - apply eq_iff in E. apply eq_iff. now rewrite Ha, Hb, E.
  - apply eq_false_iff in E. apply eq_false_iff. rewrite Ha, Hb.
    intros H. apply E. now apply (Qmult_inj_l a1 b1 c).
Qed.

Lemma max_scaled (t1 t2 : list Q) :
  Forall2 (scaled c) t1 t2 -> forall x1 x2, scaled c x1 x2 ->
  scaled c (fold_left (fun m v => if Py.lt m v then v else m) t1 x1)
         (fold_left (fun m v => if Py.lt m v then v else m) t2 x2).
Proof.
  induction 1 as [|a1 a2 t1 t2 Ha _ IH]; intros x1 x2 Hx; [exact Hx|].
  cbn [fold_left]. rewrite (lt_scaled _ _ _ _ Hx Ha).
  destruct (Py.lt x1 a1); now apply IH.
Qed.

Lemma min_scaled (t1 t2 : list Q) :
  Forall2 (scaled c) t1 t2 -> forall x1 x2, scaled c x1 x2 ->
  scaled c (fold_left (fun m v => if Py.lt v m then v else m) t1 x1)
         (fold_left (fun m v => if Py.lt v m then v else m) t2 x2).
Proof.
  induction 1 as [|a1 a2 t1 t2 Ha _ IH]; intros x1 x2 Hx; [exact Hx|].
  cbn [fold_left]. rewrite (lt_scaled _ _ _ _ Ha Hx).
  destruct (Py.lt a1 x1); now apply IH.
Qed.

Lemma edgeMaxOf_scaled (e1 e2 : list Q) :
  Forall2 (scaled c) e1 e2 -> scaled c (edgeMaxOf e1) (edgeMaxOf e2).
Proof.
  intros [|a1 a2 t1 t2 Ha Ht]; unfold edgeMaxOf; cbn [Py.max].
  - unfold scaled. ring.
  - now apply max_scaled.
Qed.

Lemma edgeMinOf_scaled (e1 e2 : list Q) :
  Forall2 (scaled c) e1 e2 -> scaled c (edgeMinOf e1) (edgeMinOf e2).
Proof.
  intros [|a1 a2 t1 t2 Ha Ht]; unfold edgeMinOf; cbn [Py.min].
  - unfold scaled. ring.
  - now apply min_scaled.
Qed.

Lemma index_scaled (e1 e2 : list Q) (v1 v2 : Q) :
  Forall2 (scaled c) e1 e2 -> scaled c v1 v2 -> Py.index e2 v2 = Py.index e1 v1.
Proof.
  intros He Hv. induction He as [|a1 a2 t1 t2 Ha _ IH]; [reflexivity|].
  cbn [Py.index]. rewrite (eq_scaled _ _ _ _ Ha Hv), IH. reflexivity.
Qed.

Lemma sum_scaled (e1 e2 : list Q) :
  Forall2 (scaled c) e1 e2 -> scaled c (Py.sum e1) (Py.sum e2).
Proof.
  unfold scaled. induction 1 as [|a1 a2 t1 t2 Ha _ IH].
  - change (Py.sum []) with 0%Q. ring.
  - rewrite !sum_cons, IH, Ha. ring.
Qed.

Lemma maxiOf_scaled (e1 e2 : list Q) :
  Forall2 (scaled c) e1 e2 -> maxiOf e2 = maxiOf e1.
Proof.
  intros He. unfold maxiOf.
  now rewrite (index_scaled e1 e2 _ _ He (edgeMaxOf_scaled e1 e2 He)).
Qed.

Lemma minus_scaled (a1 a2 b1 b2 : Q) :
  scaled c a1 a2 -> scaled c b1 b2 -> scaled c (a1 - b1) (a2 - b2).
Proof. unfold scaled. intros -> ->. ring. Qed.

Lemma quotient_scaled (n1 n2 d1 d2 : Q) :
  scaled c n1 n2 -> scaled c d1 d2 -> ~ (d1 == 0)%Q ->
  (n2 / d2 * 8 == n1 / d1 * 8)%Q.
Proof.
  unfold scaled. intros -> -> Hd.
  assert (Hc : ~ (c == 0)%Q) by (intros H0; rewrite H0 in c_positive; discriminate).
  field. split; assumption.
Qed.

Context {IJ : ImageJ}.

(** X9: The score and the direction of a tile do not depend on the scale of
    its responses: when the eight responses of one tile are those of
    another times a positive factor, as for the same picture at another
    brightness scale under linear image operations, both tiles raise
    [ZeroDivisionError], or both are recorded, with equal scores and the
    same direction. *)
Theorem score_scale_invariant ip1 ip2 title W H step overlap x y row ol w :
  inBounds W H step (x, y) = true ->
  row = Z.of_nat (List.length (rt w)) ->
  Forall2 (fun a b => (b == c * a)%Q)
          (edgeDirections (tileOf ip1 step overlap x y))
          (edgeDirections (tileOf ip2 step overlap x y)) ->
  (tileBody ip1 title W H step overlap y x (row, ol) w = Raise ZeroDivisionError w
   /\ tileBody ip2 title W H step overlap y x (row, ol) w = Raise ZeroDivisionError w)
  \/ exists r1 r2 ol1 ol2,
       tileBody ip1 title W H step overlap y x (row, ol) w
       = Ok (row + 1, ol1) (addRows [r1] w)
       /\ tileBody ip2 title W H step overlap y x (row, ol) w
          = Ok (row + 1, ol2) (addRows [r2] w)
       /\ (StressFibreScore r2 == StressFibreScore r1)%Q
       /\ PrincipalDirection r2 = PrincipalDirection r1.
Proof.
  intros Hb Hrow He.
  rewrite !(tileBody_in _ _ _ _ _ _ _ _ _ _ _ Hb Hrow).
  unfold tileOk. cbn [fst snd].
  set (e1 := edgeDirections (tileOf ip1 step overlap x y)) in *.
  set (e2 := edgeDirections (tileOf ip2 step overlap x y)) in *.
  fold (scaled c) in He.
  pose proof (edgeMaxOf_scaled e1 e2 He) as Hmax.
  pose proof (edgeMinOf_scaled e1 e2 He) as Hmin.
  pose proof (sum_scaled e1 e2 He) as Hsum.
  pose proof (minus_scaled _ _ _ _ Hsum Hmin) as Hden.
  pose proof (minus_scaled _ _ _ _ Hmax Hmin) as Hnum.
  assert (H0 : scaled c 0 0) by (unfold scaled; ring).
  rewrite (eq_scaled _ _ _ _ Hden H0).
  destruct (Py.eq (Py.sum e1 - edgeMinOf e1) 0) eqn:E; cbn [negb].
  - left. split; reflexivity.
  - right. apply eq_false_iff in E. do 4 eexists.
    split; [reflexivity|]. split; [reflexivity|].
    cbn [rowOf StressFibreScore PrincipalDirection]. fold e1. fold e2. split.
    + unfold scoreOf. now apply quotient_scaled.
    + unfold thetaOf. rewrite (maxiOf_scaled e1 e2 He).
      unfold e1, e2. now rewrite !edgeDirections_length.
Qed.

End Scale.

(** ** The shape of the grid *)

Lemma between_from_zero (n : nat) :
  between 0 (Z.of_nat n) = map Z.of_nat (seq 0 n).
Proof.
  unfold between. rewrite Z.sub_0_r, Nat2Z.id. apply map_ext. intros i. lia.
Qed.

Lemma range_from_between (n : nat) (start step : Z) :
  Py.range_from n start step
  = map (fun i => start + i * step) (between 0 (Z.of_nat n)).
Proof. now rewrite range_from_map, between_from_zero, map_map. Qed.

Lemma filter_all {A} (f : A -> bool) (l : list A) :
  (forall a, In a l -> f a = true) -> filter f l = l.
Proof.
  induction l as [|a l IH]; intros Hall; [reflexivity|].
  cbn [filter]. rewrite (Hall a) by now left.
  f_equal. apply IH. intros b Hb. apply Hall. now right.
Qed.

Lemma anchors_all (W H step : Z) (xs ys : list Z) :
  (forall x y, In x xs -> In y ys -> inBounds W H step (x, y) = true) ->
  anchors W H step xs ys = flat_map (fun y => map (fun x => (x, y)) xs) ys.
Proof.
  intros Hall. unfold anchors.
  induction ys as [|y ys IH]; [reflexivity|].
  cbn [flat_map]. rewrite IH by (intros x y' Hx Hy'; apply Hall; [exact Hx|now right]).
  f_equal. apply filter_all. intros [x' y'] Hin.
  apply in_map_iff in Hin. destruct Hin as (x & Heq & Hx). injection Heq as <- <-.
  apply Hall; [exact Hx|now left].
Qed.

Lemma flat_map_length_constant {A B} (f : A -> list B) (l : list A) (n : nat) :
  (forall a, List.length (f a) = n) ->
  List.length (flat_map f l) = (List.length l * n)%nat.
Proof.
  intros Hf. induction l as [|a l IH]; [reflexivity|].
  cbn [flat_map List.length]. rewrite length_app, Hf, IH. lia.
Qed.

Section GridShape.

Context {IJ : ImageJ}.

(** The grid of a square image whose step is positive. *)
Lemma gridOf_square ip :
  getWidth ip = getHeight ip -> 24 <= getHeight ip ->
  let H := getHeight ip in
  let step := H / nRows in
  let overlap := step / 5 in
  let cs := map (fun i => overlap + i * step)
                (between 0 (Z.of_nat (Z.to_nat ((H - 1 - overlap + step - 1) / step)))) in
  0 < step /\ 0 <= overlap /\ Z.quot step 5 = overlap
  /\ gridOf ip = anchors H H step cs cs.
Proof.
  intros HW HH H step overlap cs.
  assert (Hs : 0 < step) by (apply Z.div_str_pos; unfold nRows; lia).
  assert (Ho : 0 <= overlap) by (apply Z.div_pos; lia).
  assert (Hq : Z.quot step 5 = overlap) by (apply Z.quot_div_nonneg; lia).
  split; [exact Hs|]. split; [exact Ho|]. split; [exact Hq|].
  unfold gridOf. cbv zeta. fold H. fold step. rewrite Hq, HW. fold H.
  rewrite Z.eqb_refl, range_positive by exact Hs.
  now rewrite range_from_between.
Qed.

(** When [tiledAnalysis] returns, it has recorded the whole grid. *)
Lemma tiledAnalysis_returns_grid ip ol title w ol' w' :
  tiledAnalysis ip ol title w = Ok ol' w' ->
  let step := getHeight ip / nRows in
  let overlap := Z.quot step 5 in
  let row := Z.of_nat (List.length (rt w)) in
  rt w' = rt w ++ rowsFrom ip title (cal w) step overlap row (gridOf ip)
  /\ ol' = ol ++ primsFrom ip step overlap row (gridOf ip).
Proof.
  intros Hok. cbv zeta. unfold gridOf. cbv zeta.
  destruct (Z.eq_dec (getWidth ip) (getHeight ip)) as [HW|HW].
  - rewrite (tiledAnalysis_square ip ol title w HW) in Hok. cbv zeta in Hok.
    rewrite HW, Z.eqb_refl.
    destruct (Py.range _ _ _) as [e|cs]; [discriminate|].
    destruct (forallb _ _); [|discriminate].
    injection Hok as <- <-. split; reflexivity.
  - rewrite (tiledAnalysis_oblong ip ol title w HW) in Hok.
    injection Hok as <- <-.
    destruct (getWidth ip =? getHeight ip) eqn:E; [apply Z.eqb_eq in E; contradiction|].
    cbn. now rewrite !app_nil_r.
Qed.

(** X10: Every tile of the grid starts inside the image, and its centre, the
    point recorded as X and Y, lies inside the tile and inside the
    image. *)
Theorem tile_centres_inside ip (x y : Z) :
  0 <= getHeight ip -> In (x, y) (gridOf ip) ->
  let H := getHeight ip in
  let step := H / nRows in
  let overlap := Z.quot step 5 in
  let side := step + overlap * 2 in
  getWidth ip = H /\ 24 <= H
  /\ 0 <= x - overlap /\ 0 <= y - overlap
  /\ x - overlap <= x + step / 2 < x - overlap + side
  /\ y - overlap <= y + step / 2 < y - overlap + side
  /\ x + step / 2 <= H - 1 /\ y + step / 2 <= H - 1.
Proof.
  intros H0 Hin H step overlap side.
  assert (HW : getWidth ip = H).
  { unfold gridOf in Hin. cbv zeta in Hin.
    destruct (getWidth ip =? getHeight ip) eqn:E; [now apply Z.eqb_eq in E|].
    destruct Hin. }
  assert (H24 : 24 <= H).
  { destruct (Z_lt_ge_dec H 24) as [Hlt|Hge]; [|lia]. exfalso.
    unfold gridOf in Hin. cbv zeta in Hin. fold H in Hin.
    unfold nRows in Hin. rewrite (Z.div_small H 24) in Hin by lia.
    rewrite range_zero in Hin. destruct (getWidth ip =? H); destruct Hin. }
  destruct (gridOf_square ip HW H24) as (Hs & Ho & Hq & Hgrid).
  cbv zeta in Hgrid. fold H in Hgrid, Hs, Ho, Hq. fold step in Hgrid, Hs, Ho, Hq.
  unfold side, overlap. rewrite Hq. set (o := step / 5) in *.
  rewrite Hgrid in Hin. unfold anchors in Hin.
  apply in_flat_map in Hin. destruct Hin as (y' & Hy' & Hin).
  apply filter_In in Hin. destruct Hin as (Hin & Hb).
  apply in_map_iff in Hin. destruct Hin as (x' & Heq & Hx'). injection Heq as -> ->.
  apply in_map_iff in Hx', Hy'.
  destruct Hx' as (i & <- & Hi). destruct Hy' as (j & <- & Hj).
  apply between_In in Hi, Hj.
  unfold inBounds in Hb. cbn [fst snd] in Hb.
  apply negb_true_iff, orb_false_iff in Hb. destruct Hb as (Hbx & Hby).
  apply Z.ltb_ge in Hbx, Hby.
  assert (Hh : 0 <= step / 2 < step) by (split; [apply Z.div_pos|apply Z.div_lt_upper_bound]; lia).
  split; [exact HW|]. split; [exact H24|].
  repeat split; nia.
Qed.

Lemma gridOf_multiple_of_24 ip (s : Z) :
  2 <= s -> getWidth ip = 24 * s -> getHeight ip = 24 * s ->
  getHeight ip / nRows = s /\ Z.quot (getHeight ip / nRows) 5 = s / 5
  /\ gridOf ip
     = flat_map (fun i => map (fun j => (s / 5 + j * s, s / 5 + i * s)) (between 0 24))
                (between 0 24).
Proof.
  intros Hs HW HH.
  assert (Hstep : getHeight ip / nRows = s)
    by (rewrite HH; unfold nRows; rewrite Z.mul_comm, Z.div_mul; lia).
  destruct (gridOf_square ip) as (_ & _ & Hq & ->); [congruence|lia|].
  rewrite Hstep in *. split; [reflexivity|]. split; [exact Hq|].
  rewrite HH.
  assert (Ho : 0 <= s / 5 <= s - 2).
  { split; [apply Z.div_pos; lia|].
    destruct (Z.eq_dec s 2) as [->|Hne]; [reflexivity|].
    assert (s / 5 < s - 1) by (apply Z.div_lt_upper_bound; lia). lia. }
  set (o := s / 5) in *.
  replace ((24 * s - 1 - o + s - 1) / s) with 24
    by (apply (Z.div_unique _ _ 24 (s - 2 - o)); lia).
  change (Z.of_nat (Z.to_nat 24)) with 24.
  assert (Hh : 0 <= s / 2 /\ 2 * (s / 2) <= s).
  { split; [apply Z.div_pos; lia|]. apply Z.mul_div_le. lia. }
  assert (Ho5 : 5 * o <= s) by (apply Z.mul_div_le; lia).
  rewrite anchors_all.
  - rewrite flat_map_concat_map, map_map, <- flat_map_concat_map.
    apply flat_map_ext. intros i. now rewrite map_map.
  - intros x y Hx Hy. apply in_map_iff in Hx, Hy.
    destruct Hx as (j & <- & Hj). destruct Hy as (i & <- & Hi).
    apply between_In in Hi, Hj.
    unfold inBounds. cbn [fst snd].
    apply negb_true_iff, orb_false_iff. split; apply Z.ltb_ge; nia.
Qed.

(** X11: For a side of [24 s] pixels with [s] at least 2 the grid has 24 rows
    of 24 tiles, [s] pixels apart, the first [s / 5] pixels from the
    edge; a call that returns has added 576 rows to the table and three
    times as many primitives to the overlay. *)
Theorem grid_of_multiple_of_24 ip (s : Z) :
  2 <= s -> getWidth ip = 24 * s -> getHeight ip = 24 * s ->
  gridOf ip
  = flat_map (fun i => map (fun j => (s / 5 + j * s, s / 5 + i * s)) (between 0 24))
             (between 0 24)
  /\ List.length (gridOf ip) = 576%nat
  /\ forall ol title w ol' w',
       tiledAnalysis ip ol title w = Ok ol' w' ->
       List.length (rt w') = (List.length (rt w) + 576)%nat
       /\ List.length ol' = (List.length ol + 3 * 576)%nat.
Proof.
  intros Hs HW HH.
  destruct (gridOf_multiple_of_24 ip s Hs HW HH) as (_ & _ & Hgrid).
  assert (Hlen : List.length (gridOf ip) = 576%nat).
  { rewrite Hgrid. rewrite (flat_map_length_constant _ _ 24%nat); [reflexivity|].
    intros i. now rewrite length_map. }
  split; [exact Hgrid|]. split; [exact Hlen|].
  intros ol title w ol' w' Hok.
  destruct (tiledAnalysis_returns_grid ip ol title w ol' w' Hok) as (-> & ->).
  rewrite !length_app, rowsFrom_length, primsFrom_length, Hlen. split; reflexivity.
Qed.

(** X12: For a side of [24 s] pixels with [s] at least 2 the tiles cover the
    image: every pixel lies in the rectangle of a tile of the grid. *)
Theorem tiles_cover_image ip (s px py : Z) :
  2 <= s -> getWidth ip = 24 * s -> getHeight ip = 24 * s ->
  0 <= px < 24 * s -> 0 <= py < 24 * s ->
  exists x y,
    In (x, y) (gridOf ip)
    /\ let step := getHeight ip / nRows in
       let overlap := Z.quot step 5 in
       x - overlap <= px < x - overlap + (step + overlap * 2)
       /\ y - overlap <= py < y - overlap + (step + overlap * 2).
Proof.
  intros Hs HW HH Hpx Hpy. cbv zeta.
  destruct (gridOf_multiple_of_24 ip s Hs HW HH) as (Hstep & Hq & ->).
  rewrite Hq, Hstep.
  assert (Ho : 0 <= s / 5) by (apply Z.div_pos; lia).
  assert (Hx : 0 <= px / s < 24)
    by (split; [apply Z.div_pos|apply Z.div_lt_upper_bound]; lia).
  assert (Hy : 0 <= py / s < 24)
    by (split; [apply Z.div_pos|apply Z.div_lt_upper_bound]; lia).
  pose proof (Z.mul_div_le px s) as Hx1. pose proof (Z.mul_div_le py s) as Hy1.
  pose proof (Z.mul_succ_div_gt px s) as Hx2.
  pose proof (Z.mul_succ_div_gt py s) as Hy2.
  exists (s / 5 + px / s * s), (s / 5 + py / s * s). split.
  - apply in_flat_map. exists (py / s). split; [now apply between_In|].
    apply in_map_iff. exists (px / s). split; [reflexivity|now apply between_In].
  - set (o := s / 5) in *. nia.
Qed.

(** X13: For a side from 24 to 47 pixels the step is one pixel and there is no
    overlap: every pixel but those of the last row and the last column is
    the anchor of a tile of one pixel. *)
Theorem grid_of_small_image ip (H : Z) :
  24 <= H < 48 -> getWidth ip = H -> getHeight ip = H ->
  gridOf ip
  = flat_map (fun y => map (fun x => (x, y)) (between 0 (H - 1))) (between 0 (H - 1))
  /\ Z.of_nat (List.length (gridOf ip)) = (H - 1) * (H - 1)
  /\ forall x y, tileOf ip (H / nRows) (Z.quot (H / nRows) 5) x y = crop x y 1 1 ip.
Proof.
  intros HH HW Hh.
  assert (Hstep : H / nRows = 1).
  { unfold nRows. symmetry. apply (Z.div_unique _ _ 1 (H - 24)); lia. }
  assert (Hgrid : gridOf ip
                  = flat_map (fun y => map (fun x => (x, y)) (between 0 (H - 1)))
                             (between 0 (H - 1))).
  { destruct (gridOf_square ip) as (_ & _ & _ & ->); [congruence|lia|].
    rewrite Hh, Hstep. change (1 / 5) with 0.
    replace ((H - 1 - 0 + 1 - 1) / 1) with (H - 1) by (rewrite Z.div_1_r; lia).
    rewrite Z2Nat.id by lia.
    rewrite (map_ext (fun i => 0 + i * 1) (fun i => i)) by (intros i; lia).
    rewrite map_id. apply anchors_all.
    intros x y Hx Hy. apply between_In in Hx, Hy.
    unfold inBounds. cbn [fst snd]. change (1 / 2) with 0.
    apply negb_true_iff, orb_false_iff. split; apply Z.ltb_ge; lia. }
  split; [exact Hgrid|]. split.
  - rewrite Hgrid.
    rewrite (flat_map_length_constant _ _ (Z.to_nat (H - 1))).
    + rewrite between_length. lia.
    + intros y. rewrite length_map, between_length. lia.
  - intros x y. rewrite Hstep. unfold tileOf. change (Z.quot 1 5) with 0.
    f_equal; lia.
Qed.

End GridShape.

(** ** Exceptions and what they leave behind *)

Section Outcomes.

Context {IJ : ImageJ}.

Lemma tiledAnalysis_raise_cases ip ol title w e w' :
  tiledAnalysis ip ol title w = Raise e w' ->
  getWidth ip = getHeight ip
  /\ cal w' = cal w /\ errors w' = errors w /\ shown w' = shown w
  /\ ((e = ValueError /\ 0 <= getHeight ip < 24 /\ rt w' = rt w)
      \/ (e = ZeroDivisionError /\ getHeight ip / nRows <> 0
          /\ exists rows, rt w' = rt w ++ rows)).
Proof.
  intros Hr.
  destruct (Z.eq_dec (getWidth ip) (getHeight ip)) as [HW|HW];
    [|rewrite (tiledAnalysis_oblong ip ol title w HW) in Hr; discriminate].
  split; [exact HW|].
  rewrite (tiledAnalysis_square ip ol title w HW) in Hr. cbv zeta in Hr.
  unfold Py.range in Hr.
  destruct (getHeight ip / nRows =? 0) eqn:E0.
  - injection Hr as <- <-. repeat split. left.
    apply Z.eqb_eq in E0. unfold nRows in E0.
    apply Z.div_small_iff in E0; [|lia]. repeat split; lia.
  - apply Z.eqb_neq in E0.
    destruct (0 <? getHeight ip / nRows);
      (destruct (forallb _ _); [discriminate|]);
      injection Hr as <- <-; repeat split; right;
      (split; [reflexivity|]); (split; [exact E0|]); eexists; reflexivity.
Qed.

(** X14: [tiledAnalysis] raises nothing but [ValueError] and
    [ZeroDivisionError], and only for a square image.  [ValueError] comes
    with a side of fewer than 24 pixels, whose step is 0, and leaves the
    table untouched; every square image of such a side raises it.
    [ZeroDivisionError] leaves the rows of the tiles before the failing
    one in the table.  The calibration, the error dialogs and the images
    shown are as before. *)
Theorem tiledAnalysis_raises ip ol title w :
  (forall e w',
     tiledAnalysis ip ol title w = Raise e w' ->
     getWidth ip = getHeight ip
     /\ cal w' = cal w /\ errors w' = errors w /\ shown w' = shown w
     /\ ((e = ValueError /\ 0 <= getHeight ip < 24 /\ rt w' = rt w)
         \/ (e = ZeroDivisionError /\ getHeight ip / nRows <> 0
             /\ exists rows, rt w' = rt w ++ rows)))
  /\ (getWidth ip = getHeight ip -> 0 <= getHeight ip < 24 ->
      tiledAnalysis ip ol title w = Raise ValueError w).
Proof.
  split; [intros e w'; apply tiledAnalysis_raise_cases|apply tiledAnalysis_tiny].
Qed.

Lemma tiledAnalysis_errors ip ol title w :
  errors (worldOf (tiledAnalysis ip ol title w))
  = errors w ++ (if getWidth ip =? getHeight ip then []
                 else ["Image is not square"%string]).
Proof.
  destruct (Z.eq_dec (getWidth ip) (getHeight ip)) as [HW|HW].
  - rewrite HW, Z.eqb_refl, app_nil_r.
    destruct (tiledAnalysis ip ol title w) as [ol' w'|e w'] eqn:Hr; cbn [worldOf].
    + rewrite (tiledAnalysis_square ip ol title w) in Hr by congruence.
      cbv zeta in Hr. destruct (Py.range _ _ _); [discriminate|].
      destruct (forallb _ _); [|discriminate]. now injection Hr as _ <-.
    + now destruct (tiledAnalysis_raise_cases ip ol title w e w' Hr) as (_ & _ & -> & _).
  - rewrite (tiledAnalysis_oblong ip ol title w HW).
    destruct (getWidth ip =? getHeight ip) eqn:E; [apply Z.eqb_eq in E; contradiction|].
    reflexivity.
Qed.

(** The slice loop raises nothing but the exception of
    [ImageStack.getProcessor]. *)
Lemma sliceScan_raises imp (zs : list Z) (st : Q * Z) (e : Exc) :
  sliceScan imp zs st = inl e -> e = IllegalArgumentException.
Proof.
  unfold sliceScan. revert st. induction zs as [|z zs IH]; intros [m0 z0] Hr;
    [discriminate|].
  cbn [fold_left sliceStep] in Hr.
  destruct (getProcessor (getImageStack imp) (getStackIndex imp 2 z 1)) as [e'|ip] eqn:Hp.
  - rewrite sliceStep_raised in Hr. injection Hr as <-.
    unfold getProcessor in Hp. destruct (_ || _).
    + now injection Hp as <-.
    + destruct (nth_error _ _); [discriminate|]. now injection Hp as <-.
  - destruct (Py.lt m0 (mean ip)); exact (IH _ Hr).
Qed.

Lemma selected_raises imp (e : Exc) :
  selected imp = inl e -> e = IllegalArgumentException.
Proof.
  unfold selected. change (Py.range 0 (getNSlices imp) 1)
    with (inr (B:=list Z) (A:=Exc)
              (Py.range_from (Z.to_nat ((getNSlices imp - 0 + 1 - 1) / 1)) 0 1)).
  cbv iota.
  destruct (sliceScan imp _ _) as [e'|[m z]] eqn:Hs.
  - intros Heq. injection Heq as <-. exact (sliceScan_raises _ _ _ _ Hs).
  - unfold getProcessor. destruct (_ || _).
    + intros Heq. now injection Heq as <-.
    + destruct (nth_error _ _); [discriminate|]. intros Heq. now injection Heq as <-.
Qed.

(** X15: When [run] raises, the image is not shown and no error dialog has
    been raised; the calibration is already the one of the image, and the
    rows of the tiles analysed before the exception stay in the table.
    The exception is one of three, and only [ZeroDivisionError] leaves
    rows behind. *)
Theorem run_raises imp w e w' :
  run imp w = Raise e w' ->
  shown w' = shown w /\ errors w' = errors w /\ cal w' = getCalibration imp
  /\ (exists rows, rt w' = rt w ++ rows)
  /\ (e = IllegalArgumentException \/ e = ValueError \/ e = ZeroDivisionError)
  /\ (e <> ZeroDivisionError -> rt w' = rt w).
Proof.
  rewrite run_eq. destruct (selected imp) as [e'|[maxZ actin]] eqn:Hsel.
  - intros Heq. injection Heq as <- <-. cbn [withCal shown errors cal rt].
    repeat split; [exists []; now rewrite app_nil_r|].
    left. exact (selected_raises _ _ Hsel).
  - destruct (tiledAnalysis _ _ _ _) as [ol w2|e2 w2] eqn:Hr; [discriminate|].
    intros Heq. injection Heq as <- <-.
    destruct (tiledAnalysis_raise_cases _ _ _ _ _ _ Hr) as (_ & Hc & He & Hs & Hcase).
    cbn [withCal shown errors cal rt] in *.
    split; [exact Hs|]. split; [exact He|]. split; [exact Hc|].
    destruct Hcase as [(-> & _ & Hrt)|(-> & _ & rows & Hrt)].
    + split; [exists []; now rewrite app_nil_r|].
      split; [right; now left|]. intros _. exact Hrt.
    + split; [exists rows; exact Hrt|].
      split; [right; now right|]. intros Hne. now contradiction Hne.
Qed.


(** ** Rows, labels and centres *)

Lemma labelsOf_app (a b : Overlay) : labelsOf (a ++ b) = labelsOf a ++ labelsOf b.
Proof. apply flat_map_app. Qed.

Lemma primsFrom_labels ip step overlap row tiles :
  labelsOf (primsFrom ip step overlap row tiles)
  = map Py.str (between row (row + Z.of_nat (List.length tiles))).
Proof.
  unfold between. replace (row + Z.of_nat (List.length tiles) - row)
    with (Z.of_nat (List.length tiles)) by lia.
  rewrite Nat2Z.id. revert row.
  induction tiles as [|[x y] t IH]; intros row; [reflexivity|].
  cbn [primsFrom]. rewrite labelsOf_app, IH.
  cbn [primsOf labelsOf flat_map app List.length seq map].
  f_equal; [f_equal; lia|].
  rewrite <- seq_shift, !map_map. apply map_ext. intros i. f_equal. lia.
Qed.

(** [str] gives different integers different texts. *)
Lemma str_injective (n m : Z) : Py.str n = Py.str m -> n = m.
Proof.
  assert (Hnil : forall z, Z.to_int z <> Decimal.Pos Decimal.Nil
                           /\ Z.to_int z <> Decimal.Neg Decimal.Nil).
  { intros [|p|p]; split; cbn; try discriminate; intros H; injection H;
      apply DecimalPos.Unsigned.to_uint_nonnil. }
  intros Heq. unfold Py.str in Heq.
  apply (f_equal NilZero.int_of_string) in Heq.
  rewrite !NilZero.isi in Heq by apply Hnil.
  injection Heq as Heq. now apply DecimalZ.to_int_inj.
Qed.

Lemma between_NoDup (a b : Z) : NoDup (between a b).
Proof.
  unfold between. apply NoDup_map_NoDup_ForallPairs; [|apply seq_NoDup].
  intros i j _ _ Hij. lia.
Qed.

(** X16: When [tiledAnalysis] returns, the labels it has put on the overlay
    are the tile numbers of the rows it has added to the table, written
    in decimal, in the same order; no two of them are the same. *)
Theorem labels_number_rows ip ol title w ol' w' :
  tiledAnalysis ip ol title w = Ok ol' w' ->
  exists rows prims,
    rt w' = rt w ++ rows /\ ol' = ol ++ prims
    /\ labelsOf prims = map (fun r => Py.str (Tile r)) rows
    /\ NoDup (labelsOf prims).
Proof.
  intros Hok.
  destruct (tiledAnalysis_outcome ip ol title w) as (n & Hrt & _ & _ & Hol).
  cbv zeta in Hrt, Hol. rewrite Hok in Hrt. cbn [worldOf] in Hrt.
  eexists. eexists. split; [exact Hrt|]. split; [exact (Hol _ _ Hok)|].
  rewrite primsFrom_labels. split.
  - now rewrite <- (map_map Tile Py.str), rowsFrom_Tile.
  - apply NoDup_map_NoDup_ForallPairs; [|apply between_NoDup].
    intros i j _ _. apply str_injective.
Qed.

Lemma rowsFrom_centres ip title c step overlap row tiles :
  map (fun r => (Image r, X r, Y r)) (rowsFrom ip title c step overlap row tiles)
  = map (fun xy => (title,
                    (inject_Z (fst xy + step / 2) * pixelWidth c)%Q,
                    (inject_Z (snd xy + step / 2) * pixelHeight c)%Q)) tiles.
Proof.
  revert row. induction tiles as [|[x y] t IH]; intros row; [reflexivity|].
  cbn [rowsFrom map]. now rewrite IH.
Qed.

(** X17: The rows [run] appends for an image carry the title of the image
    followed by "-Z" and the number of the slice the loop settled on, and
    as X and Y the centres of the tiles in the units of the calibration
    of that image, whatever calibration an earlier image has left. *)
Theorem run_rows_title_and_centre imp w maxZ actin :
  selected imp = inr (maxZ, actin) ->
  exists (n : nat) (rows : list Row),
    let ip := process actin in
    let step := getHeight ip / nRows in
    rt (worldOf (run imp w)) = rt w ++ rows
    /\ map (fun r => (Image r, X r, Y r)) rows
       = map (fun xy =>
                ((getTitle imp ++ "-Z" ++ Py.str maxZ)%string,
                 (inject_Z (fst xy + step / 2) * pixelWidth (getCalibration imp))%Q,
                 (inject_Z (snd xy + step / 2) * pixelHeight (getCalibration imp))%Q))
             (firstn n (gridOf ip)).
Proof.
  intros Hsel. rewrite run_eq, Hsel.
  destruct (tiledAnalysis_outcome (process actin) [] (titleOf imp maxZ)
              (withCal (getCalibration imp) w)) as (n & Hrt & _).
  cbv zeta in Hrt. cbn [withCal rt cal] in Hrt.
  exists n. eexists. cbv zeta. split.
  - destruct (tiledAnalysis _ _ _ _) as [ol w2|e w2]; cbn [worldOf] in *;
      [cbn [withShown rt]|]; exact Hrt.
  - apply rowsFrom_centres.
Qed.

End Outcomes.

(** ** Batches *)

Section Batches.

Context {IJ : ImageJ}.

(** X18: [fileHandler] runs the images of the files whose path ends in ".lif",
    and no others, one after the other in the order of a depth-first walk
    of the directory tree, and stops at the first exception. *)
Theorem fileHandler_depth_first (fil : File) (w : World) :
  fileHandler fil w = forM (imagesOf fil) (fun imp _ => run imp) tt w.
Proof. apply fileHandler_runAll. Qed.

(** X19: An exception in one entry of a directory ends the batch: the entries
    after it are not handled, and the exception and the world it left
    are those of the batch. *)
Theorem batch_stops_at_exception (before after : list File) (f : File) w0 w e w' :
  fileHandler (Directory before) w0 = Ok tt w ->
  fileHandler f w = Raise e w' ->
  fileHandler (Directory (before ++ f :: after)) w0 = Raise e w'.
Proof.
  rewrite !fileHandler_runAll. cbn [imagesOf].
  intros Hbefore Hf.
  rewrite flat_map_app. cbn [flat_map]. rewrite runAll_app.
  unfold bind at 1. rewrite Hbefore, runAll_app.
  unfold bind at 1. now rewrite Hf.
Qed.

(** What one [run] does to the world, whatever its outcome. *)
Lemma run_appends imp w :
  exists rows errs imgs,
    rt (worldOf (run imp w)) = rt w ++ rows
    /\ errors (worldOf (run imp w)) = errors w ++ errs
    /\ shown (worldOf (run imp w)) = shown w ++ imgs
    /\ Forall (eq "Image is not square"%string) errs
    /\ (forall w', run imp w = Ok tt w' -> List.length imgs = 1%nat)
    /\ (forall e w', run imp w = Raise e w' -> imgs = []).
Proof.
  destruct (run_rows imp w) as (rows & Hrt & _). exists rows.
  rewrite run_eq in *. destruct (selected imp) as [e|[maxZ actin]].
  - exists [], []. cbn [worldOf withCal rt errors shown] in *.
    rewrite !app_nil_r. repeat split; try exact Hrt; try constructor; discriminate.
  - pose proof (tiledAnalysis_errors (process actin) [] (titleOf imp maxZ)
                  (withCal (getCalibration imp) w)) as Herr.
    destruct (tiledAnalysis_outcome (process actin) [] (titleOf imp maxZ)
                (withCal (getCalibration imp) w)) as (n & _ & _ & Hsh & _).
    cbv zeta in Hsh. cbn [withCal errors shown] in Herr, Hsh.
    eexists.
    destruct (tiledAnalysis _ _ _ _) as [ol w2|e w2]; cbn [worldOf] in *.
    + exists [(titleOf imp maxZ, actin, ol)]. cbn [withShown rt errors shown].
      rewrite Hsh. repeat split; try exact Hrt; try exact Herr; try discriminate.
      destruct (_ =? _); repeat constructor.
    + exists []. rewrite app_nil_r.
      repeat split; try exact Hrt; try exact Herr; try exact Hsh; try discriminate.
      destruct (_ =? _); repeat constructor.
Qed.

Lemma runAll_appends images :
  forall w, exists rows errs imgs,
    rt (worldOf (runAll images w)) = rt w ++ rows
    /\ errors (worldOf (runAll images w)) = errors w ++ errs
    /\ shown (worldOf (runAll images w)) = shown w ++ imgs
    /\ Forall (eq "Image is not square"%string) errs
    /\ (List.length imgs <= List.length images)%nat
    /\ (forall w', runAll images w = Ok tt w' ->
                   List.length imgs = List.length images).
Proof.
  induction images as [|imp images IH]; intros w.
  - exists [], [], []. cbn. rewrite !app_nil_r. repeat split; constructor.
  - destruct (run_appends imp w) as (r1 & e1 & i1 & Hr1 & He1 & Hs1 & Hf1 & Hok1 & Hex1).
    unfold runAll. cbn [forM]. unfold bind.
    destruct (run imp w) as [[] w1|e w1] eqn:Hrun; cbn [worldOf] in *.
    + destruct (IH w1) as (r2 & e2 & i2 & Hr2 & He2 & Hs2 & Hf2 & Hle2 & Hok2).
      unfold runAll in Hr2, He2, Hs2, Hok2.
      exists (r1 ++ r2), (e1 ++ e2), (i1 ++ i2).
      rewrite Hr2, He2, Hs2, Hr1, He1, Hs1, <- !app_assoc.
      split; [reflexivity|]. split; [reflexivity|]. split; [reflexivity|].
      split; [apply Forall_app; now split|].
      rewrite length_app, (Hok1 w1 eq_refl). cbn [List.length]. split; [lia|].
      intros w' Hw'. rewrite (Hok2 w' Hw'). reflexivity.
    + exists r1, e1, i1. rewrite (Hex1 e w1 eq_refl) in *.
      repeat split; try assumption; [cbn; lia|discriminate].
Qed.

(** X20: A batch only appends: to the table, to the error dialogs, which all
    read "Image is not square", and to the images shown, one for every
    image whose [run] returned; when the batch returns, every image of
    every ".lif" file has been shown. *)
Theorem batch_appends (fil : File) (w : World) :
  exists rows errs imgs,
    rt (worldOf (fileHandler fil w)) = rt w ++ rows
    /\ errors (worldOf (fileHandler fil w)) = errors w ++ errs
    /\ shown (worldOf (fileHandler fil w)) = shown w ++ imgs
    /\ Forall (eq "Image is not square"%string) errs
    /\ (List.length imgs <= List.length (imagesOf fil))%nat
    /\ (forall w', fileHandler fil w = Ok tt w' ->
                   List.length imgs = List.length (imagesOf fil)).
Proof. rewrite fileHandler_runAll. apply runAll_appends. Qed.


End Batches.

(** ** The slice loop *)

Lemma sorted_app_before (l1 l2 : list Z) (z : Z) :
  StronglySorted Z.lt (l1 ++ z :: l2) ->
  forall z', In z' (l1 ++ z :: l2) -> z' < z -> In z' l1.
Proof.
  induction l1 as [|a l1 IH]; intros Hs z' Hin Hlt.
  - cbn [app] in *. inversion Hs as [|? ? _ Hall]; subst.
    destruct Hin as [->|Hin]; [lia|].
    rewrite Forall_forall in Hall. specialize (Hall _ Hin). lia.
  - cbn [app] in *. inversion Hs as [|? ? Hs' _]; subst.
    destruct Hin as [->|Hin]; [now left|]. right. now apply IH.
Qed.

Section SliceLoop.

Context {IJ : ImageJ}.

(** The state of the slice loop after the slices [zs]: unchanged when no
    mean exceeds [maxM], and otherwise the first slice of the largest
    mean. *)
Lemma sliceScan_spec imp (zs : list Z) :
  forall m0 z0 m z,
    sliceScan imp zs (m0, z0) = inr (m, z) ->
    (forall z' ip, In z' zs ->
                   getProcessor (getImageStack imp) (getStackIndex imp 2 z' 1) = inr ip ->
                   (mean ip <= m)%Q)
    /\ (forall z', In z' zs ->
                   exists ip, getProcessor (getImageStack imp)
                                           (getStackIndex imp 2 z' 1) = inr ip)
    /\ (((m, z) = (m0, z0))
        \/ (exists l1 l2 ip,
              zs = l1 ++ z :: l2
              /\ getProcessor (getImageStack imp) (getStackIndex imp 2 z 1) = inr ip
              /\ m = mean ip /\ (m0 < m)%Q
              /\ forall z' ip', In z' l1 ->
                   getProcessor (getImageStack imp) (getStackIndex imp 2 z' 1) = inr ip' ->
                   (mean ip' < m)%Q)).
Proof.
  unfold sliceScan. induction zs as [|z1 zs IH]; intros m0 z0 m z Hr.
  - cbn in Hr. injection Hr as <- <-. split; [intros z' ip []|].
    split; [intros z' []|]. now left.
  - cbn [fold_left sliceStep] in Hr.
    destruct (getProcessor (getImageStack imp) (getStackIndex imp 2 z1 1))
      as [e|ip1] eqn:Hp; [rewrite sliceStep_raised in Hr; discriminate|].
    destruct (Py.lt m0 (mean ip1)) eqn:Hlt.
    + apply lt_iff in Hlt.
      destruct (IH _ _ _ _ Hr) as (Hle & Hex & Hcase).
      assert (Hm : (mean ip1 <= m)%Q).
      { destruct Hcase as [Heq|(l1 & l2 & ip & _ & _ & _ & Hlt' & _)].
        - injection Heq as -> _. apply Qle_refl.
        - now apply Qlt_le_weak. }
      split; [|split].
      * intros z' ip [<-|Hin] Hz'; [|exact (Hle _ _ Hin Hz')].
        rewrite Hp in Hz'. now injection Hz' as <-.
      * intros z' [<-|Hin]; [now exists ip1|now apply Hex].
      * right. destruct Hcase as [Heq|(l1 & l2 & ip & -> & Hz & -> & Hlt' & Hbefore)].
        -- injection Heq as -> ->. exists [], zs, ip1.
           repeat split; [exact Hp|exact Hlt|]. intros z' ip' [].
        -- exists (z1 :: l1), l2, ip. repeat split; [exact Hz| |].
           ++ now apply Qlt_trans with (mean ip1).
           ++ intros z' ip' [<-|Hin] Hz'; [|exact (Hbefore _ _ Hin Hz')].
              rewrite Hp in Hz'. now injection Hz' as <-.
    + apply lt_false_iff in Hlt.
      destruct (IH _ _ _ _ Hr) as (Hle & Hex & Hcase).
      assert (Hm : (m0 <= m)%Q).
      { destruct Hcase as [Heq|(l1 & l2 & ip & _ & _ & _ & Hlt' & _)].
        - injection Heq as -> _. apply Qle_refl.
        - now apply Qlt_le_weak. }
      split; [|split].
      * intros z' ip [<-|Hin] Hz'; [|exact (Hle _ _ Hin Hz')].
        rewrite Hp in Hz'. injection Hz' as <-. now apply Qle_trans with m0.
      * intros z' [<-|Hin]; [now exists ip1|now apply Hex].
      * destruct Hcase as [Heq|(l1 & l2 & ip & -> & Hz & -> & Hlt' & Hbefore)];
          [now left|right].
        exists (z1 :: l1), l2, ip. repeat split; [exact Hz|exact Hlt'|].
        intros z' ip' [<-|Hin] Hz'; [|exact (Hbefore _ _ Hin Hz')].
        rewrite Hp in Hz'. injection Hz' as <-. now apply Qle_lt_trans with m0.
Qed.

Lemma slices_range (n : Z) :
  Py.range 0 n 1 = inr (between 0 n).
Proof.
  rewrite range_positive by lia. f_equal.
  replace ((n - 0 + 1 - 1) / 1) with n by (rewrite Z.div_1_r; lia).
  rewrite range_from_between.
  destruct (Z_le_gt_dec 0 n) as [Hn|Hn].
  - rewrite Z2Nat.id by lia.
    rewrite (map_ext (fun i => 0 + i * 1) (fun i => i)) by (intros i; lia).
    apply map_id.
  - unfold between. replace (Z.to_nat n) with O by lia.
    replace (Z.to_nat (n - 0)) with O by lia. reflexivity.
Qed.

Lemma selected_spec imp maxZ actin :
  selected imp = inr (maxZ, actin) ->
  let read := fun z => getProcessor (getImageStack imp) (getStackIndex imp 2 z 1) in
  read maxZ = inr actin
  /\ (forall z, 0 <= z < getNSlices imp -> exists ip, read z = inr ip)
  /\ ((maxZ = -1
       /\ forall z ip, 0 <= z < getNSlices imp -> read z = inr ip ->
                       (mean ip <= -1)%Q)
      \/ (0 <= maxZ < getNSlices imp /\ (-1 < mean actin)%Q
          /\ (forall z ip, 0 <= z < getNSlices imp -> read z = inr ip ->
                           (mean ip <= mean actin)%Q)
          /\ (forall z ip, 0 <= z < maxZ -> read z = inr ip ->
                           (mean ip < mean actin)%Q))).
Proof.
  intros Hsel read. unfold read. clear read.
  unfold selected in Hsel. rewrite slices_range in Hsel.
  destruct (sliceScan imp (between 0 (getNSlices imp)) ((-1)%Q, -1))
    as [e|[m z]] eqn:Hscan; [discriminate|].
  destruct (getProcessor (getImageStack imp) (getStackIndex imp 2 z 1))
    as [e|ip] eqn:Hz; [discriminate|].
  injection Hsel as <- <-.
  destruct (sliceScan_spec imp _ _ _ _ _ Hscan) as (Hle & Hex & Hcase).
  split; [exact Hz|]. split; [intros z' Hz'; apply Hex; now apply between_In|].
  destruct Hcase as [Heq|(l1 & l2 & ip' & Hsplit & Hz2 & -> & Hlt & Hbefore)].
  - injection Heq as -> ->. left. split; [reflexivity|].
    intros z' ip' Hz' Hr. apply (Hle z' ip'); [now apply between_In|exact Hr].
  - right. rewrite Hz in Hz2. injection Hz2 as <-.
    assert (Hin : In z (between 0 (getNSlices imp)))
      by (rewrite Hsplit; apply in_or_app; right; now left).
    apply between_In in Hin. split; [exact Hin|]. split; [exact Hlt|]. split.
    + intros z' ip' Hz' Hr. apply (Hle z' ip'); [now apply between_In|exact Hr].
    + intros z' ip' Hz' Hr. apply (Hbefore z' ip'); [|exact Hr].
      apply (sorted_app_before l1 l2 z); [rewrite <- Hsplit; apply between_sorted| |lia].
      rewrite <- Hsplit. apply between_In. lia.
Qed.

(** X22: Among the images the slice loop reads, one for each [z] from 0 below
    the number of slices, [run] settles on the first whose mean is the
    largest, provided that mean is above the starting value of -1; with no
    mean above -1 it keeps [maxZ = -1].  The image it analyses is the one
    the loop read at [maxZ]. *)
Theorem slice_loop_first_maximum imp maxZ actin :
  selected imp = inr (maxZ, actin) ->
  let read := fun z => getProcessor (getImageStack imp) (getStackIndex imp 2 z 1) in
  read maxZ = inr actin
  /\ (forall z, 0 <= z < getNSlices imp -> exists ip, read z = inr ip)
  /\ ((maxZ = -1
       /\ forall z ip, 0 <= z < getNSlices imp -> read z = inr ip ->
                       (mean ip <= -1)%Q)
      \/ (0 <= maxZ < getNSlices imp /\ (-1 < mean actin)%Q
          /\ (forall z ip, 0 <= z < getNSlices imp -> read z = inr ip ->
                           (mean ip <= mean actin)%Q)
          /\ (forall z ip, 0 <= z < maxZ -> read z = inr ip ->
                           (mean ip < mean actin)%Q))).
Proof. apply selected_spec. Qed.

(** X23: The loop reads the same image at [z = 0] and at [z = 1], since ImageJ
    counts slices from 1 and clamps, and it replaces its maximum only by
    a larger mean: [run] never settles on [maxZ = 1], so no title ends in
    "-Z1". *)
Theorem slice_one_never_selected imp maxZ actin :
  selected imp = inr (maxZ, actin) -> maxZ <> 1.
Proof.
  intros Hsel ->.
  destruct (selected_spec imp 1 actin Hsel) as (Hread & _ & [(H1 & _)|(_ & _ & _ & Hlt)]);
    [discriminate|].
  apply (Qlt_irrefl (mean actin)), (Hlt 0 actin); [lia|].
  rewrite getStackIndex_zero. exact Hread.
Qed.

End SliceLoop.

(** ** The slice loop stays inside the stack *)

Section StackBounds.

Context {IJ : ImageJ}.

(** A stack index is a position of the stack. *)
Lemma getStackIndex_bounds imp (channel slice frame : Z) :
  1 <= getNChannels imp -> 1 <= getNSlices imp -> 1 <= getNFrames imp ->
  1 <= getStackIndex imp channel slice frame
    <= getNChannels imp * getNSlices imp * getNFrames imp.
Proof.
  intros Hc Hs Hf. unfold getStackIndex.
  set (c := if getNChannels imp <? (if channel <? 1 then 1 else channel)
            then getNChannels imp else (if channel <? 1 then 1 else channel)).
  set (s := if getNSlices imp <? (if slice <? 1 then 1 else slice)
            then getNSlices imp else (if slice <? 1 then 1 else slice)).
  set (f := if getNFrames imp <? (if frame <? 1 then 1 else frame)
            then getNFrames imp else (if frame <? 1 then 1 else frame)).
  assert (Hc' : 1 <= c <= getNChannels imp).
  { unfold c. destruct (channel <? 1) eqn:E1;
      [|apply Z.ltb_ge in E1]; destruct (getNChannels imp <? _) eqn:E2;
      try apply Z.ltb_lt in E2; try apply Z.ltb_ge in E2; lia. }
  assert (Hs' : 1 <= s <= getNSlices imp).
  { unfold s. destruct (slice <? 1) eqn:E1;
      [|apply Z.ltb_ge in E1]; destruct (getNSlices imp <? _) eqn:E2;
      try apply Z.ltb_lt in E2; try apply Z.ltb_ge in E2; lia. }
  assert (Hf' : 1 <= f <= getNFrames imp).
  { unfold f. destruct (frame <? 1) eqn:E1;
      [|apply Z.ltb_ge in E1]; destruct (getNFrames imp <? _) eqn:E2;
      try apply Z.ltb_lt in E2; try apply Z.ltb_ge in E2; lia. }
  clearbody c s f.
  set (nc := getNChannels imp) in *. set (ns := getNSlices imp) in *.
  set (nf := getNFrames imp) in *. clearbody nc ns nf.
  assert (H1 : 0 <= (f - 1) * (nc * ns)) by nia.
  assert (H2 : (f - 1) * (nc * ns) <= (nf - 1) * (nc * ns)) by nia.
  assert (H3 : 0 <= (s - 1) * nc <= (ns - 1) * nc) by nia.
  nia.
Qed.

Lemma getProcessor_in_range (stack : list ImageProcessor) (n : Z) :
  1 <= n <= Z.of_nat (List.length stack) ->
  exists ip, getProcessor stack n = inr ip.
Proof.
  intros Hn. unfold getProcessor.
  replace ((n <? 1) || (Z.of_nat (List.length stack) <? n)) with false.
  - destruct (nth_error stack (Z.to_nat (n - 1))) as [ip|] eqn:E; [now exists ip|].
    apply nth_error_None in E. lia.
  - symmetry. apply orb_false_iff. split; apply Z.ltb_ge; lia.
Qed.

Lemma sliceScan_returns imp (zs : list Z) :
  (forall z, exists ip,
      getProcessor (getImageStack imp) (getStackIndex imp 2 z 1) = inr ip) ->
  forall m0 z0, exists m z,
    sliceScan imp zs (m0, z0) = inr (m, z) /\ (z = z0 \/ In z zs).
Proof.
  intros Hall. unfold sliceScan.
  induction zs as [|z1 zs IH]; intros m0 z0.
  - exists m0, z0. split; [reflexivity|now left].
  - cbn [fold_left sliceStep]. destruct (Hall z1) as (ip & ->).
    destruct (Py.lt m0 (mean ip)).
    + destruct (IH (mean ip) z1) as (m & z & -> & Hz). exists m, z.
      split; [reflexivity|]. right. destruct Hz as [->|Hz]; [now left|now right].
    + destruct (IH m0 z0) as (m & z & -> & Hz). exists m, z.
      split; [reflexivity|]. destruct Hz as [->|Hz]; [now left|right; now right].
Qed.

(** X24: On a stack that holds an image for every channel, slice and frame,
    the slice loop of [run] and the fetch after it stay inside the stack:
    [run] settles on a slice, numbered from -1 below the number of
    slices, and does not raise [IllegalArgumentException]. *)
Theorem slice_loop_in_range imp w :
  1 <= getNChannels imp -> 1 <= getNSlices imp -> 1 <= getNFrames imp ->
  Z.of_nat (List.length (getImageStack imp))
  = getNChannels imp * getNSlices imp * getNFrames imp ->
  (exists maxZ actin,
      selected imp = inr (maxZ, actin) /\ -1 <= maxZ < getNSlices imp)
  /\ forall w', run imp w <> Raise IllegalArgumentException w'.
Proof.
  intros Hc Hs Hf Hlen.
  assert (Hall : forall z, exists ip,
             getProcessor (getImageStack imp) (getStackIndex imp 2 z 1) = inr ip).
  { intros z. apply getProcessor_in_range. rewrite Hlen.
    now apply getStackIndex_bounds. }
  assert (Hsel : exists maxZ actin,
             selected imp = inr (maxZ, actin) /\ -1 <= maxZ < getNSlices imp).
  { unfold selected. rewrite slices_range.
    destruct (sliceScan_returns imp (between 0 (getNSlices imp)) Hall (-1)%Q (-1))
      as (m & z & -> & Hz).
    destruct (Hall z) as (ip & ->). exists z, ip. split; [reflexivity|].
    destruct Hz as [->|Hz]; [lia|]. apply between_In in Hz. lia. }
  split; [exact Hsel|].
  destruct Hsel as (maxZ & actin & Hsel & _).
  intros w' Hrun. rewrite run_eq, Hsel in Hrun.
  destruct (tiledAnalysis _ _ _ _) as [ol w2|e w2] eqn:Hr; [discriminate|].
  injection Hrun as -> _.
  destruct (tiledAnalysis_raise_cases _ _ _ _ _ _ Hr)
    as (_ & _ & _ & _ & [(He & _)|(He & _)]); discriminate.
Qed.

End StackBounds.

(** ** What [run] reads of a stack *)

Section Channels.

Context {IJ : ImageJ}.

Lemma sliceScan_same imp1 imp2 (zs : list Z) (st : Q * Z) :
  (forall z, getProcessor (getImageStack imp1) (getStackIndex imp1 2 z 1)
             = getProcessor (getImageStack imp2) (getStackIndex imp2 2 z 1)) ->
  sliceScan imp1 zs st = sliceScan imp2 zs st.
Proof.
  intros Hread. unfold sliceScan. generalize (@inr Exc _ st).
  induction zs as [|z zs IH]; intros s; [reflexivity|].
  cbn [fold_left]. rewrite IH. f_equal.
  unfold sliceStep. destruct s as [e|[m z0]]; [reflexivity|]. now rewrite Hread.
Qed.

(** X25: [run] reads nothing of an image stack but the images at the stack
    indices of channel 2, frame 1: two stacks with the same title,
    calibration and number of slices that hold the same images there
    give the same result, whatever their other channels and frames
    hold. *)
Theorem run_reads_channel_two imp1 imp2 w :
  getTitle imp1 = getTitle imp2 ->
  getCalibration imp1 = getCalibration imp2 ->
  getNSlices imp1 = getNSlices imp2 ->
  (forall z, getProcessor (getImageStack imp1) (getStackIndex imp1 2 z 1)
             = getProcessor (getImageStack imp2) (getStackIndex imp2 2 z 1)) ->
  run imp1 w = run imp2 w.
Proof.
  intros Ht Hc Hn Hread.
  assert (Hsel : selected imp1 = selected imp2).
  { unfold selected. rewrite Hn.
    destruct (Py.range 0 (getNSlices imp2) 1) as [e|zs]; [reflexivity|].
    rewrite (sliceScan_same imp1 imp2 zs _ Hread).
    destruct (sliceScan imp2 zs _) as [e|[m z]]; [reflexivity|].
    now rewrite Hread. }
  rewrite !run_eq, Hsel, Hc. unfold titleOf. rewrite Ht. reflexivity.
Qed.

End Channels.

(** ** Images that cannot be scored *)

Section NoTile.

Context {IJ : ImageJ}.

(** When the score division fails for every tile, [tiledAnalysis] of a
    square image of 24 pixels or more raises at the first tile. *)
Lemma tiledAnalysis_all_fail ip ol title w :
  getWidth ip = getHeight ip -> 24 <= getHeight ip ->
  (forall xy, tileOk ip (getHeight ip / nRows) (Z.quot (getHeight ip / nRows) 5) xy
              = false) ->
  tiledAnalysis ip ol title w = Raise ZeroDivisionError w.
Proof.
  intros HW H24 Hfail.
  rewrite (tiledAnalysis_square ip ol title w HW). cbv zeta.
  destruct (gridOf_square ip HW H24) as (Hs & Ho & Hq & _).
  set (H := getHeight ip) in *. set (step := H / nRows) in *.
  assert (Hstep : 24 * step <= H)
    by (unfold step, nRows; apply Z.mul_div_le; lia).
  assert (Ho5 : 5 * (step / 5) <= step) by (apply Z.mul_div_le; lia).
  assert (Hh : 2 * (step / 2) <= step) by (apply Z.mul_div_le; lia).
  rewrite Hq in *. set (o := step / 5) in *.
  rewrite range_positive by exact Hs.
  assert (Hn : 1 <= (H - 1 - o + step - 1) / step)
    by (apply Z.div_le_lower_bound; lia).
  destruct (Z.to_nat ((H - 1 - o + step - 1) / step)) as [|n] eqn:En; [lia|].
  cbn [Py.range_from anchors flat_map map filter].
  replace (inBounds H H step (o, o)) with true.
  - cbn [app forallb scored]. rewrite Hfail. cbn [andb rowsFrom].
    now rewrite addRows_nil.
  - symmetry. unfold inBounds. cbn [fst snd].
    apply negb_true_iff, orb_false_iff. split; apply Z.ltb_ge; lia.
Qed.

End NoTile.

Section ReferenceImages.

Import RationalImage.

Lemma smoothFrom_repeat (n : nat) (v : Z) :
  smoothFrom v (repeat v n) = repeat (4 * v) n.
Proof.
  induction n as [|n IH]; [reflexivity|].
  cbn [repeat smoothFrom]. destruct n as [|n].
  - cbn [repeat]. f_equal. lia.
  - cbn [repeat] in *. rewrite IH. f_equal. lia.
Qed.

Lemma smoothRow_repeat (n : nat) (v : Z) :
  smoothRow (repeat v n) = repeat (4 * v) n.
Proof. destruct n; [reflexivity|]. apply (smoothFrom_repeat (S n)). Qed.

Lemma combine_repeat {A B} (a : A) (b : B) (n : nat) :
  combine (repeat a n) (repeat b n) = repeat (a, b) n.
Proof. induction n as [|n IH]; [reflexivity|]. cbn. now rewrite IH. Qed.

Lemma transpose_repeat (h w : nat) (v : Z) :
  transpose (repeat (repeat v w) (S h)) = repeat (repeat v (S h)) w.
Proof.
  induction h as [|h IH].
  - cbn [repeat transpose]. apply map_repeat.
  - change (transpose (repeat (repeat v w) (S (S h))))
      with (map (fun p : Z * list Z => fst p :: snd p)
                (combine (repeat v w) (transpose (repeat (repeat v w) (S h))))).
    rewrite IH, combine_repeat, map_repeat. reflexivity.
Qed.

(** A pass of smoothing leaves an image of one value an image of one
    value, the same value in the new denominator. *)
Lemma smooth_repeat (d : positive) (v : Z) (w h : nat) :
  smooth (mkImage d (repeat (repeat v (S w)) (S h)))
  = mkImage (16 * d) (repeat (repeat (16 * v) (S w)) (S h)).
Proof.
  unfold smooth. cbn [den rows]. f_equal.
  rewrite map_repeat, smoothRow_repeat, transpose_repeat.
  rewrite map_repeat, smoothRow_repeat, transpose_repeat.
  now replace (4 * (4 * v)) with (16 * v) by lia.
Qed.

Lemma blur_repeat (sigma : Q) (d : positive) (v : Z) (w h : nat) :
  exists d' v',
    blur sigma (mkImage d (repeat (repeat v (S w)) (S h)))
    = mkImage d' (repeat (repeat v' (S w)) (S h))
    /\ v' * Z.pos d = v * Z.pos d'.
Proof.
  unfold blur. induction (passes sigma) as [|n (d' & v' & IH & Hv)].
  - exists d, v. split; reflexivity.
  - exists (16 * d')%positive, (16 * v'). split.
    + rewrite Nat.iter_succ, IH. apply smooth_repeat.
    + rewrite Pos2Z.inj_mul. nia.
Qed.

Lemma subtract_repeat (d1 d2 : positive) (v1 v2 : Z) (w h : nat) :
  subtract (mkImage d1 (repeat (repeat v1 w) h)) (mkImage d2 (repeat (repeat v2 w) h))
  = mkImage (d1 * d2) (repeat (repeat (v1 * Z.pos d2 - v2 * Z.pos d1) w) h).
Proof.
  unfold subtract. cbn [den rows]. f_equal.
  rewrite combine_repeat, map_repeat. cbn [fst snd].
  now rewrite combine_repeat, map_repeat.
Qed.

(** The band-pass filter of [process] takes an image of one value to the
    image of zeros. *)
Lemma process_repeat (d : positive) (v : Z) (w h : nat) :
  exists d',
    process (IJ:=rational) (mkImage d (repeat (repeat v (S w)) (S h)))
    = mkImage d' (repeat (repeat 0 (S w)) (S h)).
Proof.
  unfold process. cbn [blurGaussian copyBitsSubtract rational].
  destruct (blur_repeat 2 d v w h) as (d1 & v1 & -> & H1).
  destruct (blur_repeat (2 * (14 # 10)) d v w h) as (d2 & v2 & -> & H2).
  exists (d1 * d2)%positive. rewrite subtract_repeat.
  replace (v1 * Z.pos d2 - v2 * Z.pos d1) with 0; [reflexivity|].
  assert (Hd : (v1 * Z.pos d2 - v2 * Z.pos d1) * Z.pos d = 0) by nia.
  apply Z.mul_eq_0 in Hd. destruct Hd as [Hd|Hd]; lia.
Qed.

(** Every pixel of the image is zero. *)
Lemma pixel_zero (img : image) (x y : Z) :
  Forall (Forall (eq 0)) (rows img) -> pixel img x y = 0.
Proof.
  intros Hz. unfold pixel.
  set (r := nth (clamp (height img) y) (rows img) []).
  assert (Hr : Forall (eq 0) r).
  { unfold r. destruct (nth_in_or_default (clamp (height img) y) (rows img) [])
      as [Hin| ->]; [|constructor].
    rewrite Forall_forall in Hz. now apply Hz. }
  destruct (nth_in_or_default (clamp (width img) x) r 0) as [Hin|Hd]; [|exact Hd].
  rewrite Forall_forall in Hr. symmetry. now apply Hr.
Qed.

Lemma convolveAt_zero (k : list Z) (kw kh : Z) (img : image) (x y : Z) :
  Forall (Forall (eq 0)) (rows img) -> convolveAt k kw kh img x y = 0.
Proof.
  intros Hz. unfold convolveAt.
  rewrite (map_ext _ (fun _ => 0)).
  - apply (zsum_map_zero (list_prod (indices kh) (indices kw))).
  - intros [v u]. rewrite pixel_zero by exact Hz. lia.
Qed.

Lemma sum_of_zeros (l : list Z) : Forall (eq 0) l -> fold_left Z.add l 0 = 0.
Proof.
  induction 1 as [|x l <- _ IH]; [reflexivity|]. exact IH.
Qed.

Lemma average_zero (img : image) :
  Forall (Forall (eq 0)) (rows img) -> average img = 0%Q.
Proof.
  intros Hz. unfold average.
  assert (Hpx : Forall (eq 0) (List.concat (rows img))).
  { apply Forall_forall. intros p Hp. apply in_concat in Hp.
    destruct Hp as (r & Hr & Hp). rewrite Forall_forall in Hz.
    specialize (Hz r Hr). rewrite Forall_forall in Hz. now apply Hz. }
  rewrite (sum_of_zeros _ Hpx).
  destruct (List.concat (rows img)); reflexivity.
Qed.

Lemma conv_zero (k : list Z) (kw kh : Z) (img : image) :
  Forall (Forall (eq 0)) (rows img) ->
  Forall (Forall (eq 0)) (rows (conv k kw kh img)).
Proof.
  intros Hz. unfold conv. cbn [rows].
  apply Forall_map, Forall_forall. intros y _.
  apply Forall_map, Forall_forall. intros x _.
  rewrite convolveAt_zero by exact Hz. lia.
Qed.

Lemma In_firstn {A} (n : nat) (l : list A) (a : A) : In a (firstn n l) -> In a l.
Proof.
  intros Hin. rewrite <- (firstn_skipn n l). apply in_or_app. now left.
Qed.

Lemma In_skipn {A} (n : nat) (l : list A) (a : A) : In a (skipn n l) -> In a l.
Proof.
  intros Hin. rewrite <- (firstn_skipn n l). apply in_or_app. now right.
Qed.

Lemma cropTo_zero (x y w h : Z) (img : image) :
  Forall (Forall (eq 0)) (rows img) ->
  Forall (Forall (eq 0)) (rows (cropTo x y w h img)).
Proof.
  intros Hz. unfold cropTo. cbn [rows]. rewrite Forall_forall in Hz.
  apply Forall_map, Forall_forall. intros r Hr.
  apply In_firstn, In_skipn in Hr. specialize (Hz r Hr).
  rewrite Forall_forall in Hz. apply Forall_forall. intros p Hp.
  apply In_firstn, In_skipn in Hp. now apply Hz.
Qed.

Lemma edgeDirections_zero (img : image) :
  Forall (Forall (eq 0)) (rows img) ->
  edgeDirections (IJ:=rational) img = repeat 0%Q 8.
Proof.
  intros Hz. unfold edgeDirections. cbn [mean convolve rational].
  rewrite (map_ext _ (fun _ => 0%Q))
    by (intros k; apply average_zero, conv_zero, Hz).
  reflexivity.
Qed.

Lemma tileOk_zero (ip : image) (step overlap : Z) (xy : Z * Z) :
  Forall (Forall (eq 0)) (rows ip) ->
  tileOk (IJ:=rational) ip step overlap xy = false.
Proof.
  intros Hz. unfold tileOk, tileOf. cbn [crop rational].
  rewrite edgeDirections_zero by (apply cropTo_zero, Hz). reflexivity.
Qed.

Lemma repeat_zero_rows (w h : nat) : Forall (Forall (eq 0)) (repeat (repeat 0 w) h).
Proof.
  apply Forall_forall. intros r Hr. apply repeat_spec in Hr. subst r.
  apply Forall_forall. intros p Hp. apply repeat_spec in Hp. now subst p.
Qed.

Lemma repeat_height (d : positive) (v : Z) (w h : nat) :
  height (mkImage d (repeat (repeat v w) h)) = Z.of_nat h.
Proof. unfold height. cbn [rows]. now rewrite repeat_length. Qed.

Lemma repeat_width (d : positive) (v : Z) (w h : nat) :
  width (mkImage d (repeat (repeat v w) (S h))) = Z.of_nat w.
Proof. unfold width. cbn [rows repeat]. now rewrite repeat_length. Qed.

(** X26: In the reference implementation an image of one value, square and of
    24 pixels or more a side, is never scored: the band-pass filter of
    [process] leaves the image of zeros, the eight responses of its
    first tile are zero, and [run] raises [ZeroDivisionError] with no row
    written and nothing shown. *)
Theorem blank_image_raises (imp : ImagePlus) (w : World) (maxZ : Z)
    (d : positive) (v : Z) (n : nat) :
  (24 <= n)%nat ->
  selected (IJ:=rational) imp = inr (maxZ, mkImage d (repeat (repeat v n) n)) ->
  (exists d', process (IJ:=rational) (mkImage d (repeat (repeat v n) n))
              = mkImage d' (repeat (repeat 0 n) n))
  /\ run (IJ:=rational) imp w
     = Raise ZeroDivisionError (withCal (getCalibration imp) w).
Proof.
  intros Hn Hsel. destruct n as [|n]; [lia|].
  destruct (process_repeat d v n n) as (d' & Hp).
  split; [now exists d'|].
  rewrite run_eq, Hsel, Hp.
  rewrite (tiledAnalysis_all_fail (IJ:=rational)); [reflexivity| | |].
  - cbn [getWidth getHeight rational]. now rewrite repeat_width, repeat_height.
  - cbn [getHeight rational]. rewrite repeat_height. lia.
  - intros xy. apply tileOk_zero. cbn [rows]. apply repeat_zero_rows.
Qed.

(** An image of at most one pixel has eight zero responses: every kernel
    sums to zero, and the pixel is its own neighbour on all sides. *)
Lemma edgeDirections_one_pixel (d : positive) (p : Z) :
  edgeDirections (IJ:=rational) (mkImage d [[p]]) = repeat 0%Q 8.
Proof.
  unfold edgeDirections, dirKernels. cbn [map mean convolve rational].
  unfold conv. cbn [fold_left Z.add Z.ltb Z.eqb Z.compare Pos.add Z.opp Pos.succ
                    Z.pos_sub Pos.pred_double Z.double Z.succ_double Z.pred_double
                    den rows].
  change (width (mkImage d [[p]])) with 1. change (height (mkImage d [[p]])) with 1.
  change (indices 1) with [0]. cbn [map].
  rewrite !convolveAt_3x3.
  assert (Hpx : forall a b, pixel (mkImage d [[p]]) a b = p).
  { intros a b. unfold pixel. change (width (mkImage d [[p]])) with 1.
    change (height (mkImage d [[p]])) with 1. unfold clamp.
    replace (Z.to_nat (Z.max 0 (Z.min (1 - 1) b))) with O by lia.
    replace (Z.to_nat (Z.max 0 (Z.min (1 - 1) a))) with O by lia.
    reflexivity. }
  rewrite !Hpx.
  repeat match goal with
         | |- context [mkImage ?dd [[?e]]] =>
             lazymatch e with
             | 0 => fail
             | _ => replace e with 0 by lia
             end
         end.
  reflexivity.
Qed.

Lemma edgeDirections_small (x y : Z) (ip : image) :
  edgeDirections (IJ:=rational) (cropTo x y 1 1 ip) = repeat 0%Q 8.
Proof.
  unfold cropTo. change (Z.to_nat 1) with 1%nat.
  destruct (skipn (Z.to_nat y) (rows ip)) as [|r rs].
  - apply edgeDirections_zero. constructor.
  - cbn [firstn map]. destruct (skipn (Z.to_nat x) r) as [|p ps].
    + apply edgeDirections_zero. repeat constructor.
    + cbn [firstn]. apply edgeDirections_one_pixel.
Qed.

(** X27: In the reference implementation a square image of 24 to 47 pixels a
    side cannot be analysed: the step is one pixel, every tile is a
    single pixel, whose eight responses are zero, and [tiledAnalysis]
    raises [ZeroDivisionError] at the first tile. *)
Theorem small_image_raises (ip : image) (ol : Overlay) (title : string) (w : World)
    (H : Z) :
  24 <= H < 48 -> getWidth (ImageJ:=rational) ip = H ->
  getHeight (ImageJ:=rational) ip = H ->
  tiledAnalysis (IJ:=rational) ip ol title w = Raise ZeroDivisionError w.
Proof.
  intros HH HW Hh.
  apply (tiledAnalysis_all_fail (IJ:=rational)); [congruence|lia|].
  intros [x y]. rewrite Hh.
  replace (H / nRows) with 1
    by (unfold nRows; apply (Z.div_unique _ _ 1 (H - 24)); lia).
  unfold tileOk, tileOf. cbn [fst snd crop rational].
  change (Z.quot 1 5) with 0. change (1 + 0 * 2) with 1.
  rewrite edgeDirections_small. reflexivity.
Qed.

End ReferenceImages.

(** ** The properties above on concrete images *)

Section MoreExamples.

Import RationalImage UnsignedImage.

(** The first tile of the raw slice [Demo.synthetic 48 0], two pixels by
    two, with signed and with unsigned pixels. *)
Lemma synthetic_first_tile :
  inBounds 48 48 2 (0, 0) = true
  /\ tileOk (IJ:=rational) (Demo.synthetic 48 0) 2 0 (0, 0) = true
  /\ edgeDirections (IJ:=rational) (tileOf (IJ:=rational) (Demo.synthetic 48 0) 2 0 0 0)
     = [-84; -32; 60; 112; 0; 84; -80; -60]%Q
  /\ edgeDirections (IJ:=unsigned) (tileOf (IJ:=unsigned) (Demo.synthetic 48 0) 2 0 0 0)
     = [0; 1 # 2; 60; 112; 21 # 2; 84; 0; 0]%Q.
Proof. vm_compute. repeat split; reflexivity. Qed.

Lemma synthetic_first_tile_recorded :
  exists st' w',
    tileBody (IJ:=rational) (Demo.synthetic 48 0) "cells" 48 48 2 0 0 0 (0, []) Demo.w0
    = Ok st' w'.
Proof.
  destruct synthetic_first_tile as (Hb & Hok & _).
  pose proof (tileBody_in (IJ:=rational) (Demo.synthetic 48 0) "cells" 48 48 2 0 0 0 0 []
                Demo.w0 Hb eq_refl) as Hbody.
  rewrite Hok in Hbody. eexists. eexists. exact Hbody.
Qed.

Lemma nonnegative_responses_score_witness :
  exists r ol',
    tileBody (IJ:=unsigned) (Demo.synthetic 48 0) "cells" 48 48 2 0 0 0 (0, [])
             (mkWorld (IJ:=unsigned) [] Demo.unit [] [])
    = Ok (0 + 1, ol')
         (addRows (IJ:=unsigned) [r] (mkWorld (IJ:=unsigned) [] Demo.unit [] []))
    /\ (0 <= StressFibreScore r <= 8)%Q.
Proof.
  destruct synthetic_first_tile as (Hb & _ & _ & He).
  assert (Hall : exists r ol' mx,
             tileBody (IJ:=unsigned) (Demo.synthetic 48 0) "cells" 48 48 2 0 0 0 (0, [])
                      (mkWorld (IJ:=unsigned) [] Demo.unit [] [])
             = Ok (0 + 1, ol')
                  (addRows (IJ:=unsigned) [r] (mkWorld (IJ:=unsigned) [] Demo.unit [] []))
             /\ (0 <= StressFibreScore r <= 8)%Q
             /\ isMax (edgeDirections (IJ:=unsigned)
                         (tileOf (IJ:=unsigned) (Demo.synthetic 48 0) 2 0 0 0)) mx
             /\ ((StressFibreScore r == 8)%Q
                 <-> (Py.sum (edgeDirections (IJ:=unsigned)
                                (tileOf (IJ:=unsigned) (Demo.synthetic 48 0) 2 0 0 0))
                      == mx)%Q));
    [|destruct Hall as (r & ol' & mx & Hok & Hscore & _);
      exists r, ol'; split; [exact Hok|exact Hscore]].
  apply (nonnegative_responses_score (IJ:=unsigned) (Demo.synthetic 48 0) "cells"
           48 48 2 0 0 0 0 [] (mkWorld (IJ:=unsigned) [] Demo.unit [] []) Hb eq_refl).
  - rewrite He. intros u Hu. cbn [In] in Hu.
    repeat (destruct Hu as [<-|Hu]; [discriminate|]). destruct Hu.
  - exists 60%Q. rewrite He. split; [cbn; tauto|discriminate].
Defined.

Lemma zero_sum_responses_score_witness :
  exists r rect x1 y1 x2 y2 label,
    tileBody (IJ:=rational) (Demo.synthetic 48 0) "cells" 48 48 2 0 0 0 (0, []) Demo.w0
    = Ok (0 + 1,
          [] ++ [rect; ArrowRoi x1 y1 x2 y2 OPEN true 4 4 (0, 1, 1 # 2, 1)%Q; label])
         (addRows (IJ:=rational) [r] Demo.w0)
    /\ (8 <= StressFibreScore r)%Q.
Proof.
  destruct synthetic_first_tile as (Hb & _ & He & _).
  apply (zero_sum_responses_score (IJ:=rational) (Demo.synthetic 48 0) "cells"
           48 48 2 0 0 0 0 [] Demo.w0 Hb eq_refl).
  - rewrite He. reflexivity.
  - exists 60%Q. rewrite He. split; [cbn; tauto|discriminate].
Defined.

Lemma arrow_colour_witness :
  exists st' w',
    tileBody (IJ:=rational) (Demo.synthetic 48 0) "cells" 48 48 2 0 0 0 (0, []) Demo.w0
    = Ok st' w'
    /\ exists r rect x1 y1 x2 y2 label f,
         rt w' = rt Demo.w0 ++ [r]
         /\ snd st' = [] ++ [rect;
                             ArrowRoi x1 y1 x2 y2 OPEN true 4 4
                                      (1 - f, f, f / 2, 1)%Q;
                             label]
         /\ (0 <= f <= 1)%Q.
Proof.
  destruct synthetic_first_tile as (Hb & _).
  destruct synthetic_first_tile_recorded as (st' & w' & Hok).
  exists st', w'. split; [exact Hok|].
  destruct (arrow_colour (IJ:=rational) (Demo.synthetic 48 0) "cells" 48 48 2 0 0 0 0 []
              Demo.w0 st' w' Hb eq_refl Hok)
    as (r & rect & x1 & y1 & x2 & y2 & label & f & Hrt & Hol & Hf & _).
  exists r, rect, x1, y1, x2, y2, label, f. split; [exact Hrt|]. split; [exact Hol|exact Hf].
Defined.

Lemma arrow_geometry_witness :
  exists st' w',
    tileBody (IJ:=rational) (Demo.synthetic 48 0) "cells" 48 48 2 0 0 0 (0, []) Demo.w0
    = Ok st' w'
    /\ exists rect x1 y1 x2 y2 style both width head colour label,
         snd st' = [] ++ [rect; ArrowRoi x1 y1 x2 y2 style both width head colour;
                          label]
         /\ ((x1 + x2) / 2 = IZR (0 + 2 / 2))%R
         /\ ((y1 + y2) / 2 = IZR (0 + 2 / 2))%R
         /\ ((x2 - x1) * (x2 - x1) + (y2 - y1) * (y2 - y1) = 40 * 40)%R.
Proof.
  destruct synthetic_first_tile as (Hb & _).
  destruct synthetic_first_tile_recorded as (st' & w' & Hok).
  exists st', w'. split; [exact Hok|].
  destruct (arrow_geometry (IJ:=rational) (Demo.synthetic 48 0) "cells" 48 48 2 0 0 0 0 []
              Demo.w0 st' w' Hb eq_refl Hok)
    as (r & rect & x1 & y1 & x2 & y2 & style & both & width & head & colour & label
        & _ & Hol & Hx & Hy & _ & _ & Hlen).
  exists rect, x1, y1, x2, y2, style, both, width, head, colour, label.
  split; [exact Hol|]. split; [exact Hx|]. split; [exact Hy|exact Hlen].
Defined.

Lemma direction_of_first_maximum_witness :
  exists st' w',
    tileBody (IJ:=rational) (Demo.synthetic 48 0) "cells" 48 48 2 0 0 0 (0, []) Demo.w0
    = Ok st' w'
    /\ exists r i k,
         rt w' = rt Demo.w0 ++ [r]
         /\ nth_error dirKernels i = Some k
         /\ PrincipalDirection r = normAngle (rawAngle i 8).
Proof.
  destruct synthetic_first_tile as (Hb & _).
  destruct synthetic_first_tile_recorded as (st' & w' & Hok).
  exists st', w'. split; [exact Hok|].
  destruct (direction_of_first_maximum (IJ:=rational) (Demo.synthetic 48 0) "cells"
              48 48 2 0 0 0 0 [] Demo.w0 st' w' Hb eq_refl Hok)
    as (r & i & k & Hrt & Hk & _ & _ & Hdir).
  exists r, i, k. split; [exact Hrt|]. split; [exact Hk|exact Hdir].
Defined.

Lemma synthetic_size :
  getWidth (ImageJ:=rational) (Demo.synthetic 48 0) = 24 * 2
  /\ getHeight (ImageJ:=rational) (Demo.synthetic 48 0) = 24 * 2
  /\ In (0, 0) (gridOf (IJ:=rational) (Demo.synthetic 48 0)).
Proof. vm_compute. split; [reflexivity|]. split; [reflexivity|]. now left. Qed.

Lemma tile_centres_inside_witness :
  0 <= getHeight (ImageJ:=rational) (Demo.synthetic 48 0)
  /\ In (0, 0) (gridOf (IJ:=rational) (Demo.synthetic 48 0))
  /\ getWidth (ImageJ:=rational) (Demo.synthetic 48 0)
     = getHeight (ImageJ:=rational) (Demo.synthetic 48 0)
  /\ 24 <= getHeight (ImageJ:=rational) (Demo.synthetic 48 0).
Proof.
  destruct synthetic_size as (_ & HH & Hin).
  assert (H0 : 0 <= getHeight (ImageJ:=rational) (Demo.synthetic 48 0))
    by (rewrite HH; lia).
  split; [exact H0|]. split; [exact Hin|].
  destruct (tile_centres_inside (IJ:=rational) (Demo.synthetic 48 0) 0 0 H0 Hin)
    as (HW & H24 & _).
  split; [exact HW|exact H24].
Defined.

Lemma grid_of_multiple_of_24_witness :
  2 <= 2
  /\ gridOf (IJ:=rational) (Demo.synthetic 48 0)
     = flat_map (fun i => map (fun j => (2 / 5 + j * 2, 2 / 5 + i * 2)) (between 0 24))
                (between 0 24)
  /\ List.length (gridOf (IJ:=rational) (Demo.synthetic 48 0)) = 576%nat.
Proof.
  destruct synthetic_size as (HW & HH & _).
  assert (H2 : 2 <= 2) by lia.
  split; [exact H2|].
  destruct (grid_of_multiple_of_24 (IJ:=rational) (Demo.synthetic 48 0) 2 H2 HW HH)
    as (Hgrid & Hlen & _).
  split; [exact Hgrid|exact Hlen].
Defined.

Lemma tiles_cover_image_witness :
  2 <= 2 /\ 0 <= 47 < 24 * 2
  /\ exists x y,
       In (x, y) (gridOf (IJ:=rational) (Demo.synthetic 48 0))
       /\ let step := getHeight (ImageJ:=rational) (Demo.synthetic 48 0) / nRows in
          let overlap := Z.quot step 5 in
          x - overlap <= 47 < x - overlap + (step + overlap * 2)
          /\ y - overlap <= 47 < y - overlap + (step + overlap * 2).
Proof.
  destruct synthetic_size as (HW & HH & _).
  assert (H2 : 2 <= 2) by lia.
  assert (Hp : 0 <= 47 < 24 * 2) by lia.
  split; [exact H2|]. split; [exact Hp|].
  exact (tiles_cover_image (IJ:=rational) (Demo.synthetic 48 0) 2 47 47 H2 HW HH Hp Hp).
Defined.

Lemma thirty_size :
  getWidth (ImageJ:=rational) (Demo.uniform 30 30 0) = 30
  /\ getHeight (ImageJ:=rational) (Demo.uniform 30 30 0) = 30.
Proof. split; lazy; reflexivity. Qed.

Lemma grid_of_small_image_witness :
  24 <= 30 < 48
  /\ Z.of_nat (List.length (gridOf (IJ:=rational) (Demo.uniform 30 30 0)))
     = (30 - 1) * (30 - 1).
Proof.
  destruct thirty_size as (HW & HH).
  assert (H30 : 24 <= 30 < 48) by lia.
  split; [exact H30|].
  destruct (grid_of_small_image (IJ:=rational) (Demo.uniform 30 30 0) 30 H30 HW HH)
    as (_ & Hlen & _).
  exact Hlen.
Defined.

Lemma flat_raises :
  run (IJ:=rational) Demo.flat Demo.w0
  = Raise ZeroDivisionError (withCal (getCalibration Demo.flat) Demo.w0).
Proof.
  pose proof flat_first_tile as Hc. cbv zeta in Hc.
  destruct Hc as (Hfirst & Hok & _).
  exact (run_first_raises (IJ:=rational) Demo.flat Demo.w0 0 (Demo.uniform 48 48 100)
           (0, 0) flat_selected Hfirst Hok).
Qed.

Lemma run_raises_witness :
  run (IJ:=rational) Demo.flat Demo.w0
  = Raise ZeroDivisionError (withCal (getCalibration Demo.flat) Demo.w0)
  /\ shown (withCal (getCalibration Demo.flat) Demo.w0) = shown Demo.w0
  /\ errors (withCal (getCalibration Demo.flat) Demo.w0) = errors Demo.w0.
Proof.
  split; [exact flat_raises|].
  destruct (run_raises (IJ:=rational) Demo.flat Demo.w0 ZeroDivisionError
              (withCal (getCalibration Demo.flat) Demo.w0) flat_raises)
    as (Hs & He & _).
  split; [exact Hs|exact He].
Defined.

Lemma labels_number_rows_witness :
  exists ol' w',
    tiledAnalysis (IJ:=rational) (Demo.synthetic 48 0) [] "cells" Demo.w0 = Ok ol' w'
    /\ exists rows prims,
         rt w' = rt Demo.w0 ++ rows /\ ol' = [] ++ prims
         /\ labelsOf prims = map (fun r => Py.str (Tile r)) rows
         /\ NoDup (labelsOf prims).
Proof.
  destruct (allScored_returns (IJ:=rational) (Demo.synthetic 48 0) [] "cells" Demo.w0
              synthetic_all_scored) as (ol' & w' & Hok).
  exists ol', w'. split; [exact Hok|].
  exact (labels_number_rows (IJ:=rational) (Demo.synthetic 48 0) [] "cells" Demo.w0
           ol' w' Hok).
Defined.

Lemma run_rows_title_and_centre_witness :
  selected (IJ:=rational) Demo.cells = inr (0, Demo.synthetic 48 0)
  /\ exists (n : nat) (rows : list Row),
       let ip := process (IJ:=rational) (Demo.synthetic 48 0) in
       let step := getHeight ip / nRows in
       rt (worldOf (run (IJ:=rational) Demo.cells Demo.w0)) = rt Demo.w0 ++ rows
       /\ map (fun r => (Image r, X r, Y r)) rows
          = map (fun xy =>
                   ((getTitle Demo.cells ++ "-Z" ++ Py.str 0)%string,
                    (inject_Z (fst xy + step / 2)
                     * pixelWidth (getCalibration Demo.cells))%Q,
                    (inject_Z (snd xy + step / 2)
                     * pixelHeight (getCalibration Demo.cells))%Q))
                (firstn n (gridOf ip)).
Proof.
  split; [exact cells_selected|].
  exact (run_rows_title_and_centre (IJ:=rational) Demo.cells Demo.w0 0
           (Demo.synthetic 48 0) cells_selected).
Defined.

Lemma lif_path : Py.endswith "blank.lif" ".lif" = true.
Proof. reflexivity. Qed.

Lemma batch_stops_at_exception_witness :
  fileHandler (IJ:=rational) (Directory []) Demo.w0 = Ok tt Demo.w0
  /\ fileHandler (IJ:=rational) (RegularFile "blank.lif" [Demo.flat]) Demo.w0
     = Raise ZeroDivisionError (withCal (getCalibration Demo.flat) Demo.w0)
  /\ fileHandler (IJ:=rational)
       (Directory ([] ++ RegularFile "blank.lif" [Demo.flat]
                      :: [RegularFile "cells.lif" [Demo.cells]])) Demo.w0
     = Raise ZeroDivisionError (withCal (getCalibration Demo.flat) Demo.w0).
Proof.
  assert (Hbefore : fileHandler (IJ:=rational) (Directory []) Demo.w0 = Ok tt Demo.w0)
    by reflexivity.
  assert (Hf : fileHandler (IJ:=rational) (RegularFile "blank.lif" [Demo.flat]) Demo.w0
               = Raise ZeroDivisionError (withCal (getCalibration Demo.flat) Demo.w0)).
  { cbn [fileHandler]. rewrite lif_path. cbn [forM]. unfold bind.
    now rewrite flat_raises. }
  split; [exact Hbefore|]. split; [exact Hf|].
  exact (batch_stops_at_exception (IJ:=rational) [] [RegularFile "cells.lif" [Demo.cells]]
           (RegularFile "blank.lif" [Demo.flat]) Demo.w0 Demo.w0 ZeroDivisionError
           (withCal (getCalibration Demo.flat) Demo.w0) Hbefore Hf).
Defined.

Lemma slice_loop_first_maximum_witness :
  selected (IJ:=rational) Demo.cells = inr (0, Demo.synthetic 48 0)
  /\ getProcessor (getImageStack Demo.cells) (getStackIndex Demo.cells 2 0 1)
     = inr (Demo.synthetic 48 0)
  /\ forall z, 0 <= z < getNSlices Demo.cells ->
       exists ip, getProcessor (getImageStack Demo.cells)
                               (getStackIndex Demo.cells 2 z 1) = inr ip.
Proof.
  split; [exact cells_selected|].
  destruct (slice_loop_first_maximum (IJ:=rational) Demo.cells 0 (Demo.synthetic 48 0)
              cells_selected) as (Hread & Hall & _).
  split; [exact Hread|exact Hall].
Defined.

Lemma cells_stack :
  1 <= getNChannels Demo.cells /\ 1 <= getNSlices Demo.cells
  /\ 1 <= getNFrames Demo.cells
  /\ Z.of_nat (List.length (getImageStack Demo.cells))
     = getNChannels Demo.cells * getNSlices Demo.cells * getNFrames Demo.cells.
Proof. lazy. repeat split; discriminate. Qed.

Lemma slice_loop_in_range_witness :
  (1 <= getNChannels Demo.cells /\ 1 <= getNSlices Demo.cells
   /\ 1 <= getNFrames Demo.cells
   /\ Z.of_nat (List.length (getImageStack Demo.cells))
      = getNChannels Demo.cells * getNSlices Demo.cells * getNFrames Demo.cells)
  /\ exists maxZ actin,
       selected (IJ:=rational) Demo.cells = inr (maxZ, actin)
       /\ -1 <= maxZ < getNSlices Demo.cells.
Proof.
  split; [exact cells_stack|].
  destruct cells_stack as (Hc & Hs & Hf & Hlen).
  exact (proj1 (slice_loop_in_range (IJ:=rational) Demo.cells Demo.w0 Hc Hs Hf Hlen)).
Defined.

Lemma slice_one_never_selected_witness :
  selected (IJ:=rational) Demo.cells = inr (0, Demo.synthetic 48 0) /\ 0 <> 1.
Proof.
  split; [exact cells_selected|].
  exact (slice_one_never_selected (IJ:=rational) Demo.cells 0 (Demo.synthetic 48 0)
           cells_selected).
Defined.


Lemma halved_first_tile :
  edgeDirections (IJ:=rational) (tileOf (IJ:=rational) Sample.halved 2 0 0 0)
  = [-42; -16; 30; 56; 0; 42; -40; -30]%Q.
Proof. vm_compute. reflexivity. Qed.

Lemma score_scale_invariant_witness :
  (0 < 1 # 2)%Q
  /\ ((tileBody (IJ:=rational) (Demo.synthetic 48 0) "cells" 48 48 2 0 0 0 (0, [])
                Demo.w0 = Raise ZeroDivisionError Demo.w0
       /\ tileBody (IJ:=rational) Sample.halved "cells" 48 48 2 0 0 0 (0, []) Demo.w0
          = Raise ZeroDivisionError Demo.w0)
      \/ exists r1 r2 ol1 ol2,
           tileBody (IJ:=rational) (Demo.synthetic 48 0) "cells" 48 48 2 0 0 0 (0, [])
                    Demo.w0 = Ok (0 + 1, ol1) (addRows (IJ:=rational) [r1] Demo.w0)
           /\ tileBody (IJ:=rational) Sample.halved "cells" 48 48 2 0 0 0 (0, [])
                       Demo.w0
              = Ok (0 + 1, ol2) (addRows (IJ:=rational) [r2] Demo.w0)
           /\ (StressFibreScore r2 == StressFibreScore r1)%Q
           /\ PrincipalDirection r2 = PrincipalDirection r1).
Proof.
  assert (Hc : (0 < 1 # 2)%Q) by reflexivity.
  split; [exact Hc|].
  destruct synthetic_first_tile as (Hb & _ & He1 & _).
  apply (score_scale_invariant (1 # 2) Hc (IJ:=rational) (Demo.synthetic 48 0)
           Sample.halved "cells" 48 48 2 0 0 0 0 [] Demo.w0 Hb eq_refl).
  rewrite He1, halved_first_tile. repeat constructor.
Defined.

Lemma recoloured_channel_two :
  forall z,
    getProcessor (getImageStack Demo.cells) (getStackIndex Demo.cells 2 z 1)
    = getProcessor (getImageStack Sample.recoloured)
                   (getStackIndex Sample.recoloured 2 z 1).
Proof.
  intros z. unfold getStackIndex.
  cbn [getNChannels getNSlices getNFrames Demo.cells Sample.recoloured].
  destruct (z <? 1) eqn:E1; [reflexivity|]. destruct (2 <? z) eqn:E2; [reflexivity|].
  apply Z.ltb_ge in E1, E2.
  assert (Hz : z = 1 \/ z = 2) by lia. destruct Hz as [-> | ->]; reflexivity.
Qed.

Lemma run_reads_channel_two_witness :
  run (IJ:=rational) Demo.cells Demo.w0 = run (IJ:=rational) Sample.recoloured Demo.w0.
Proof.
  exact (run_reads_channel_two (IJ:=rational) Demo.cells Sample.recoloured Demo.w0
           eq_refl eq_refl eq_refl recoloured_channel_two).
Defined.

Lemma blank_image_raises_witness :
  (24 <= 48)%nat
  /\ selected (IJ:=rational) Demo.flat
     = inr (0, mkImage 1 (repeat (repeat 100 48%nat) 48%nat))
  /\ run (IJ:=rational) Demo.flat Demo.w0
     = Raise ZeroDivisionError (withCal (getCalibration Demo.flat) Demo.w0).
Proof.
  assert (Hn : (24 <= 48)%nat) by lia.
  assert (Hsel : selected (IJ:=rational) Demo.flat
                 = inr (0, mkImage 1 (repeat (repeat 100 48%nat) 48%nat)))
    by (vm_compute; reflexivity).
  split; [exact Hn|]. split; [exact Hsel|].
  exact (proj2 (blank_image_raises Demo.flat Demo.w0 0 1 100 48 Hn Hsel)).
Defined.

Lemma small_image_raises_witness :
  24 <= 30 < 48
  /\ tiledAnalysis (IJ:=rational) (Demo.uniform 30 30 0) [] "small" Demo.w0
     = Raise ZeroDivisionError Demo.w0.
Proof.
  destruct thirty_size as (HW & HH).
  assert (H30 : 24 <= 30 < 48) by lia.
  split; [exact H30|].
  exact (small_image_raises (Demo.uniform 30 30 0) [] "small" Demo.w0 30 H30 HW HH).
Defined.

End MoreExamples.
